(** * NetGuard: flow aggregator and hybrid decision engine

  A shallow embedding of [virtual_soc/extractor.py] (the flow aggregator)
  and [virtual_soc/ids_engine.py] (the hybrid decision engine), with the
  properties of the design document stated and settled against it.

  Conventions of the embedding.
  - Python numbers are exact: an [int] is a [Z], a finite [float] is the
    rational it denotes ([Q]) and a decimal literal is the rational it
    spells.  Rounding of binary64 arithmetic is not modelled; the rates of
    the feature vector, whose divisor can be arbitrarily small, overflow to
    infinity as float division does.
  - A [float] that may be non-finite (the values of a request's feature
    dictionary) is a [pyfloat].
  - An exception is a [Raise] in the result type [pyres]; [try]/[except]
    is a match on it.
  - A [dict] that is looked up by name is a [gmap]; a dict literal is the
    list of its entries in order; a [list] grows at its right end.
  - A reading of the wall clock ([time.time()], [datetime.now()]) is an
    argument of the function that reads it, or the clock of the state. *)

From Stdlib Require Import QArith Qabs Lqa ZArith Lia Ascii String.
From stdpp Require Import gmap strings list.

(** ** Python values and built-ins *)

Module Py.

Inductive exn : Type :=
| ZeroDivisionError
| ValueError
| KeyError
| IndexError
| HTTPException (status_code : Z) (detail : exn).

Inductive pyres (A : Type) : Type :=
| Ok (a : A)
| Raise (e : exn).
Arguments Ok {A} a.
Arguments Raise {A} e.

#[global] Instance pyres_ret : MRet pyres := fun A a => Ok a.
#[global] Instance pyres_bind : MBind pyres := fun A B f m =>
  match m with
  | Ok a => f a
  | Raise e => Raise e
  end.

(** Evaluation of the entries of a dict literal, in order: the first
    entry whose expression raises aborts the whole literal. *)
Fixpoint dict_literal {V} (entries : list (string * pyres V))
  : pyres (list (string * V)) :=
  match entries with
  | [] => Ok []
  | (k, e) :: rest =>
      v ← e; vs ← dict_literal rest; mret ((k, v) :: vs)
  end.

(** [d[k]] on the entries of a literal whose keys are distinct. *)
Fixpoint assoc {V} (k : string) (d : list (string * V)) : option V :=
  match d with
  | [] => None
  | (k', v) :: rest => if String.eqb k k' then Some v else assoc k rest
  end.

(** *** Comparisons and arithmetic on finite numbers *)

Definition Qltb (x y : Q) : bool := negb (Qle_bool y x).
Definition Qleb (x y : Q) : bool := Qle_bool x y.
Definition Qgtb (x y : Q) : bool := Qltb y x.
Definition Qgeb (x y : Q) : bool := Qleb y x.

(** [x / y]: division by zero raises. *)
Definition py_div (x y : Q) : pyres Q :=
  if Qeq_bool y 0 then Raise ZeroDivisionError else Ok (x / y)%Q.

(** [sum(l)]: a left fold starting from 0. *)
Definition py_sum (l : list Q) : Q := fold_left Qplus l 0%Q.

(** [max(l)] keeps the first of the largest items and raises on an empty
    sequence; [min(l)] likewise. *)
Definition py_max (l : list Q) : pyres Q :=
  match l with
  | [] => Raise ValueError
  | x :: rest => Ok (fold_left (fun m y => if Qgtb y m then y else m) rest x)
  end.

Definition py_min (l : list Q) : pyres Q :=
  match l with
  | [] => Raise ValueError
  | x :: rest => Ok (fold_left (fun m y => if Qltb y m then y else m) rest x)
  end.

(** [max(a, b)] on two arguments. *)
Definition py_max2 (a b : Q) : Q := if Qgtb b a then b else a.

Definition Qlen (l : list Q) : Q := inject_Z (Z.of_nat (length l)).

(** *** Floats that may be non-finite *)

Inductive pyfloat : Type :=
| Fin (q : Q)
| PosInf
| NegInf
| NaN.

Definition of_int (n : Z) : pyfloat := Fin (inject_Z n).

Definition is_finite (x : pyfloat) : bool :=
  match x with Fin _ => true | _ => false end.

(** The least magnitude that binary64 rounds to infinity: the largest
    finite number, [2^1024 - 2^971], plus half a unit in its last place. *)
Definition float_overflow : Q := inject_Z (2 ^ 1024 - 2 ^ 970).

(** [x / y] with a float result: a zero divisor raises; the quotient is
    exact, and infinite once it is beyond the binary64 range (float
    division does not raise on overflow). *)
Definition py_float_div (x y : Q) : pyres pyfloat :=
  if Qeq_bool y 0 then Raise ZeroDivisionError
  else
    let q := (x / y)%Q in
    if Qleb float_overflow (Qabs q)
    then Ok (if Qltb 0 q then PosInf else NegInf)
    else Ok (Fin q).

(** [np.mean], [np.var] and [np.std] of a sequence of finite numbers; on an
    empty sequence numpy answers nan (with a warning).  The square root is
    numpy's and is left abstract. *)
Definition np_mean (l : list Q) : pyfloat :=
  match l with
  | [] => NaN
  | _ => Fin (py_sum l / Qlen l)
  end.

Definition np_var (l : list Q) : pyfloat :=
  match l with
  | [] => NaN
  | _ =>
      let m := (py_sum l / Qlen l)%Q in
      Fin (py_sum (map (fun x => (x - m) * (x - m))%Q l) / Qlen l)
  end.

Definition np_std (np_sqrt : Q -> Q) (l : list Q) : pyfloat :=
  match np_var l with
  | Fin v => Fin (np_sqrt v)
  | x => x
  end.

(** *** Ordering of tuples and [sorted] *)

(** [(a1, p1) < (a2, p2)] on (str, int) tuples: the first components that
    differ decide. *)
Definition endpoint_lt (x y : string * Z) : bool :=
  if String.eqb x.1 y.1 then (x.2 <? y.2)%Z else String.ltb x.1 y.1.

(** [sorted(l)]: a stable sort that only asks [<]. *)
Fixpoint sorted_insert {A} (lt : A -> A -> bool) (x : A) (l : list A) : list A :=
  match l with
  | [] => [x]
  | y :: l' => if lt y x then y :: sorted_insert lt x l' else x :: y :: l'
  end.

Definition py_sorted {A} (lt : A -> A -> bool) (l : list A) : list A :=
  foldr (sorted_insert lt) [] l.

(** [c in s] for a one-character string [c]. *)
Fixpoint str_contains (c : Ascii.ascii) (s : string) : bool :=
  match s with
  | EmptyString => false
  | String c' s' => if Ascii.eqb c c' then true else str_contains c s'
  end.

(** *** Comparisons and arithmetic on floats *)

(** [x < y]; every comparison with nan is false. *)
Definition flt (x y : pyfloat) : bool :=
  match x, y with
  | NaN, _ | _, NaN => false
  | Fin a, Fin b => Qltb a b
  | NegInf, NegInf => false
  | NegInf, _ => true
  | _, NegInf => false
  | PosInf, _ => false
  | Fin _, PosInf => true
  end.

Definition feq (x y : pyfloat) : bool :=
  match x, y with
  | Fin a, Fin b => Qeq_bool a b
  | PosInf, PosInf | NegInf, NegInf => true
  | _, _ => false
  end.

Definition fgt (x y : pyfloat) : bool := flt y x.
Definition fle (x y : pyfloat) : bool := flt x y || feq x y.
Definition fge (x y : pyfloat) : bool := fle y x.

(** sign of a float: [Some true] positive, [Some false] negative, [None]
    for zero and nan. *)
Definition fsign (x : pyfloat) : option bool :=
  match x with
  | Fin q => if Qltb 0 q then Some true else if Qltb q 0 then Some false else None
  | PosInf => Some true
  | NegInf => Some false
  | NaN => None
  end.

Definition inf_of_sign (positive : bool) : pyfloat :=
  if positive then PosInf else NegInf.

Definition fadd (x y : pyfloat) : pyfloat :=
  match x, y with
  | NaN, _ | _, NaN => NaN
  | Fin a, Fin b => Fin (a + b)
  | PosInf, NegInf | NegInf, PosInf => NaN
  | PosInf, _ | _, PosInf => PosInf
  | NegInf, _ | _, NegInf => NegInf
  end.

Definition fmul (x y : pyfloat) : pyfloat :=
  match x, y with
  | NaN, _ | _, NaN => NaN
  | Fin a, Fin b => Fin (a * b)
  | _, _ =>
      match fsign x, fsign y with
      | Some sx, Some sy => inf_of_sign (Bool.eqb sx sy)
      | _, _ => NaN
      end
  end.

(** [x / y] on floats: a zero divisor raises, also under inf and nan. *)
Definition fdiv (x y : pyfloat) : pyres pyfloat :=
  match y with
  | Fin b =>
      if Qeq_bool b 0 then Raise ZeroDivisionError
      else match x with
           | Fin a => Ok (Fin (a / b))
           | NaN => Ok NaN
           | _ => match fsign x, fsign y with
                  | Some sx, Some sy => Ok (inf_of_sign (Bool.eqb sx sy))
                  | _, _ => Ok NaN
                  end
           end
  | NaN => Ok NaN
  | _ => match x with
         | Fin _ => Ok (Fin 0)
         | _ => Ok NaN
         end
  end.

(** [x in l] on numbers. *)
Definition fmem (x : pyfloat) (l : list Z) : bool :=
  existsb (fun n => feq x (of_int n)) l.

(** [np.nan_to_num(x, nan=0.0, posinf=0.0, neginf=0.0)] on one entry; also
    [.replace([inf, -inf], 0).fillna(0)]. *)
Definition nan_to_num (x : pyfloat) : Q :=
  match x with Fin q => q | _ => 0%Q end.

End Py.
Export Py.

(** ** The flow aggregator ([virtual_soc/extractor.py]) *)

Module Extractor.

Definition FLOW_TIMEOUT : Q := 2.0.
Definition MIN_PACKETS : Z := 2.

(** *** Captured packets *)

(** What the handler reads of a scapy packet: its layers, its capture time
    ([packet.time], seconds) and its length ([len(packet)]). *)
Record IP := { src : string; dst : string }.

Record TCP := {
  sport : Z;
  dport : Z;
  flags : string;          (* str(tcp.flags), for instance "SA" *)
  window : Z;
  dataofs : option Z
}.

Record UDP := { udp_sport : Z; udp_dport : Z }.

Record Packet := {
  ip_layer : option IP;
  tcp_layer : option TCP;
  udp_layer : option UDP;
  time : Q;
  len : Z
}.

Inductive Direction : Type := fwd | bwd.

(** *** CICFlow *)

Record CICFlow := {
  src_ip : string;
  dst_ip : string;
  src_port : Z;
  dst_port : Z;
  protocol : string;
  start_time : Q;
  last_seen : Q;
  fwd_packets : Z;
  bwd_packets : Z;
  fwd_bytes : Z;
  bwd_bytes : Z;
  fwd_pkt_lengths : list Z;
  bwd_pkt_lengths : list Z;
  all_pkt_lengths : list Z;
  flow_iat : list Q;
  fwd_iat : list Q;
  bwd_iat : list Q;
  last_fwd_time : option Q;
  last_bwd_time : option Q;
  last_pkt_time : option Q;
  fin_count : Z;
  syn_count : Z;
  rst_count : Z;
  psh_count : Z;
  ack_count : Z;
  urg_count : Z;
  cwe_count : Z;
  ece_count : Z;
  fwd_psh_count : Z;
  fwd_urg_count : Z;
  init_win_fwd : Z;
  init_win_bwd : Z;
  fwd_header_len : Z;
  bwd_header_len : Z;
  active_times : list Q;
  idle_times : list Q;
  current_active_start : option Q;
  fwd_data_pkts : Z;
  min_seg_size_fwd : Z
}.

(** [CICFlow.__init__]; the two readings of [time.time()] are [t0] and [t1]. *)
Definition CICFlow_init (src_ip dst_ip : string) (src_port dst_port : Z)
    (protocol : string) (t0 t1 : Q) : CICFlow :=
  {| src_ip := src_ip; dst_ip := dst_ip;
     src_port := src_port; dst_port := dst_port; protocol := protocol;
     start_time := t0; last_seen := t1;
     fwd_packets := 0; bwd_packets := 0;
     fwd_bytes := 0; bwd_bytes := 0;
     fwd_pkt_lengths := []; bwd_pkt_lengths := []; all_pkt_lengths := [];
     flow_iat := []; fwd_iat := []; bwd_iat := [];
     last_fwd_time := None; last_bwd_time := None; last_pkt_time := None;
     fin_count := 0; syn_count := 0; rst_count := 0; psh_count := 0;
     ack_count := 0; urg_count := 0; cwe_count := 0; ece_count := 0;
     fwd_psh_count := 0; fwd_urg_count := 0;
     init_win_fwd := -1; init_win_bwd := -1;
     fwd_header_len := 0; bwd_header_len := 0;
     active_times := []; idle_times := []; current_active_start := None;
     fwd_data_pkts := 0; min_seg_size_fwd := 0 |}.

Definition IDLE_THRESHOLD : Q := 1_000_000.

(** The flow-wide inter-arrival time of a packet, in microseconds, when the
    flow has a previous packet. *)
Definition packet_iat (self : CICFlow) (current_time : Q) : option Q :=
  (fun last => (current_time - last) * 1_000_000)%Q <$> last_pkt_time self.

Definition is_fwd (d : Direction) : bool :=
  match d with fwd => true | bwd => false end.

(** [n + 1] when the condition holds. *)
Definition count_if (c : bool) (n : Z) : Z := if c then (n + 1)%Z else n.

(** ['X' in flags] when the packet has a TCP layer. *)
Definition has_flag (packet : Packet) (c : Ascii.ascii) : bool :=
  match tcp_layer packet with
  | Some tcp => str_contains c (flags tcp)
  | None => false
  end.

(** [header_len = tcp.dataofs * 4 if tcp.dataofs else 20] *)
Definition header_len (tcp : TCP) : Z :=
  match dataofs tcp with
  | Some d => if (d =? 0)%Z then 20 else (d * 4)%Z
  | None => 20
  end.

(** [CICFlow.add_packet(packet, direction, pkt_time)]; [now] is the reading
    of [time.time()]. *)
Definition add_packet (self : CICFlow) (packet : Packet) (direction : Direction)
    (pkt_time : Q) (now : Q) : CICFlow :=
  let current_time := pkt_time in
  let pkt_len := len packet in
  let iat := packet_iat self current_time in
  let f := is_fwd direction in
  let tcp := tcp_layer packet in
  {| src_ip := src_ip self; dst_ip := dst_ip self;
     src_port := src_port self; dst_port := dst_port self;
     protocol := protocol self;
     start_time := start_time self;
     last_seen := now;
     fwd_packets := count_if f (fwd_packets self);
     bwd_packets := count_if (negb f) (bwd_packets self);
     fwd_bytes := if f then (fwd_bytes self + pkt_len)%Z else fwd_bytes self;
     bwd_bytes := if f then bwd_bytes self else (bwd_bytes self + pkt_len)%Z;
     fwd_pkt_lengths :=
       if f then fwd_pkt_lengths self ++ [pkt_len] else fwd_pkt_lengths self;
     bwd_pkt_lengths :=
       if f then bwd_pkt_lengths self else bwd_pkt_lengths self ++ [pkt_len];
     all_pkt_lengths := all_pkt_lengths self ++ [pkt_len];
     flow_iat :=
       match iat with
       | Some i => flow_iat self ++ [i]
       | None => flow_iat self
       end;
     fwd_iat :=
       match f, last_fwd_time self with
       | true, Some t => fwd_iat self ++ [(current_time - t) * 1_000_000]%Q
       | _, _ => fwd_iat self
       end;
     bwd_iat :=
       match f, last_bwd_time self with
       | false, Some t => bwd_iat self ++ [(current_time - t) * 1_000_000]%Q
       | _, _ => bwd_iat self
       end;
     last_fwd_time := if f then Some current_time else last_fwd_time self;
     last_bwd_time := if f then last_bwd_time self else Some current_time;
     last_pkt_time := Some current_time;
     fin_count := count_if (has_flag packet "F"%char) (fin_count self);
     syn_count := count_if (has_flag packet "S"%char) (syn_count self);
     rst_count := count_if (has_flag packet "R"%char) (rst_count self);
     psh_count := count_if (has_flag packet "P"%char) (psh_count self);
     ack_count := count_if (has_flag packet "A"%char) (ack_count self);
     urg_count := count_if (has_flag packet "U"%char) (urg_count self);
     cwe_count := count_if (has_flag packet "C"%char) (cwe_count self);
     ece_count := count_if (has_flag packet "E"%char) (ece_count self);
     fwd_psh_count := count_if (has_flag packet "P"%char && f) (fwd_psh_count self);
     fwd_urg_count := count_if (has_flag packet "U"%char && f) (fwd_urg_count self);
     init_win_fwd :=
       match tcp with
       | Some t =>
           if f && (init_win_fwd self =? -1)%Z then window t
           else init_win_fwd self
       | None => init_win_fwd self
       end;
     init_win_bwd :=
       match tcp with
       | Some t =>
           if f && (init_win_fwd self =? -1)%Z then init_win_bwd self
           else if negb f && (init_win_bwd self =? -1)%Z then window t
           else init_win_bwd self
       | None => init_win_bwd self
       end;
     fwd_header_len :=
       match tcp with
       | Some t => if f then (fwd_header_len self + header_len t)%Z
                   else fwd_header_len self
       | None => fwd_header_len self
       end;
     bwd_header_len :=
       match tcp with
       | Some t => if f then bwd_header_len self
                   else (bwd_header_len self + header_len t)%Z
       | None => bwd_header_len self
       end;
     active_times :=
       match iat with
       | Some i =>
           if Qgtb i IDLE_THRESHOLD then
             match current_active_start self with
             | Some s => active_times self ++ [(current_time - s) * 1_000_000]%Q
             | None => active_times self
             end
           else active_times self
       | None => active_times self
       end;
     idle_times :=
       match iat with
       | Some i =>
           if Qgtb i IDLE_THRESHOLD then idle_times self ++ [i]
           else idle_times self
       | None => idle_times self
       end;
     current_active_start :=
       match iat with
       | Some i =>
           if Qgtb i IDLE_THRESHOLD then Some current_time
           else match current_active_start self with
                | None => last_pkt_time self
                | Some s => Some s
                end
       | None => Some current_time
       end;
     fwd_data_pkts :=
       count_if (f && (0 <? pkt_len)%Z) (fwd_data_pkts self);
     min_seg_size_fwd :=
       if f && (0 <? pkt_len)%Z
            && ((min_seg_size_fwd self =? 0)%Z
                || (pkt_len <? min_seg_size_fwd self)%Z)
       then pkt_len else min_seg_size_fwd self |}.

(** The packets of one flow in arrival order, each with its direction and
    the clock reading at its arrival, added one after the other; the packet
    time is [packet.time], as in [packet_handler]. *)
Definition feed (self : CICFlow) (arrivals : list (Packet * Direction * Q))
  : CICFlow :=
  fold_left (fun f a => add_packet f a.1.1 a.1.2 (time a.1.1) a.2) arrivals self.

(** The active segment that is open after the last packet, in microseconds:
    from [current_active_start] to [last_pkt_time]. *)
Definition open_segment (self : CICFlow) : Q :=
  match last_pkt_time self, current_active_start self with
  | Some t, Some s => ((t - s) * 1_000_000)%Q
  | _, _ => 0%Q
  end.

(** The time from the packet at [first] to the last packet, in
    microseconds. *)
Definition packet_span (first : Q) (self : CICFlow) : Q :=
  match last_pkt_time self with
  | Some t => ((t - first) * 1_000_000)%Q
  | None => 0%Q
  end.

(** The design document's reading of the segmentation: the active and the
    idle durations add up to the span of the flow, up to the open
    segment. *)
Definition spec_segments_cover_span (first : Q) (self : CICFlow) : Prop :=
  (Qabs (py_sum (active_times self) + py_sum (idle_times self)
         - packet_span first self) <= open_segment self)%Q.

(** What holds of a flow once it has seen a packet, the first one at [t0]:
    an active segment is open, and the closed ones add up to the time from
    [t0] to its start. *)
Definition segmented (t0 : Q) (f : CICFlow) : Prop :=
  exists cas last,
    current_active_start f = Some cas
    /\ last_pkt_time f = Some last
    /\ (py_sum (active_times f) == (cas - t0) * 1_000_000)%Q
    /\ Forall (fun i => (IDLE_THRESHOLD < i)%Q) (idle_times f).

(** The packet times [ts] that follow a packet at [t] do not decrease. *)
Fixpoint in_time_order (t : Q) (ts : list Q) : bool :=
  match ts with
  | [] => true
  | u :: rest => Qle_bool t u && in_time_order u rest
  end.

(** The times of the packets of a list of arrivals. *)
Definition packet_times (arrivals : list (Packet * Direction * Q)) : list Q :=
  map (fun a => time a.1.1) arrivals.

(** What holds of a flow whose packets came in time order: the open active
    segment starts no later than the last packet, and each idle duration is
    at most the active duration at the same position. *)
Definition contained (f : CICFlow) : Prop :=
  exists cas last,
    current_active_start f = Some cas
    /\ last_pkt_time f = Some last
    /\ (cas <= last)%Q
    /\ Forall2 (fun active idle : Q => (idle <= active)%Q)
               (active_times f) (idle_times f).

(** *** Feature derivation *)

Section Features.

(** numpy's square root, used by [np.std]. *)
Variable np_sqrt : Q -> Q.

(** [CICFlow._safe(arr, func, default=0)] *)
Definition _safe (arr : list Q) (func : list Q -> pyres pyfloat)
    (default : pyfloat) : pyres pyfloat :=
  if (0 <? length arr)%nat then func arr else Ok default.

Definition f_max (l : list Q) : pyres pyfloat := q ← py_max l; mret (Fin q).
Definition f_min (l : list Q) : pyres pyfloat := q ← py_min l; mret (Fin q).
Definition f_mean (l : list Q) : pyres pyfloat := Ok (np_mean l).
Definition f_std (l : list Q) : pyres pyfloat := Ok (np_std np_sqrt l).
Definition f_var (l : list Q) : pyres pyfloat := Ok (np_var l).

Definition ints (l : list Z) : list Q := map inject_Z l.

(** [duration = (last_seen - start_time) * 1_000_000], then
    [if duration == 0: duration = 1]. *)
Definition flow_duration (self : CICFlow) : Q :=
  let duration := ((last_seen self - start_time self) * 1_000_000)%Q in
  if Qeq_bool duration 0 then 1%Q else duration.

(** [x / (duration / 1_000_000) if duration > 0 else 0] *)
Definition per_second (x : Z) (duration : Q) : pyres pyfloat :=
  if Qgtb duration 0 then
    secs ← py_div duration 1_000_000;
    py_float_div (inject_Z x) secs
  else Ok (of_int 0).

(** [x / y if y > 0 else 0] on integers *)
Definition ratio_or_zero (x y : Z) : pyres pyfloat :=
  if (0 <? y)%Z then r ← py_div (inject_Z x) (inject_Z y); mret (Fin r)
  else Ok (of_int 0).

(** [sum(l) if l else 0] *)
Definition sum_or_zero (l : list Q) : pyres pyfloat :=
  match l with
  | [] => Ok (of_int 0)
  | _ => Ok (Fin (py_sum l))
  end.

Definition feature_entries (self : CICFlow) : list (string * pyres pyfloat) :=
  let duration := flow_duration self in
  let total_pkts := (fwd_packets self + bwd_packets self)%Z in
  let total_bytes := (fwd_bytes self + bwd_bytes self)%Z in
  let zero := of_int 0 in
  let int n := Ok (of_int n) in
  let fwd_l := ints (fwd_pkt_lengths self) in
  let bwd_l := ints (bwd_pkt_lengths self) in
  let all_l := ints (all_pkt_lengths self) in
  [ ("Destination Port", int (dst_port self));
    ("Flow Duration", Ok (Fin duration));
    ("Total Fwd Packets", int (fwd_packets self));
    ("Total Backward Packets", int (bwd_packets self));
    ("Total Length of Fwd Packets", int (fwd_bytes self));
    ("Total Length of Bwd Packets", int (bwd_bytes self));
    ("Fwd Packet Length Max", _safe fwd_l f_max zero);
    ("Fwd Packet Length Min", _safe fwd_l f_min zero);
    ("Fwd Packet Length Mean", _safe fwd_l f_mean zero);
    ("Fwd Packet Length Std", _safe fwd_l f_std zero);
    ("Bwd Packet Length Max", _safe bwd_l f_max zero);
    ("Bwd Packet Length Min", _safe bwd_l f_min zero);
    ("Bwd Packet Length Mean", _safe bwd_l f_mean zero);
    ("Bwd Packet Length Std", _safe bwd_l f_std zero);
    ("Flow Bytes/s", per_second total_bytes duration);
    ("Flow Packets/s", per_second total_pkts duration);
    ("Flow IAT Mean", _safe (flow_iat self) f_mean zero);
    ("Flow IAT Std", _safe (flow_iat self) f_std zero);
    ("Flow IAT Max", _safe (flow_iat self) f_max zero);
    ("Flow IAT Min", _safe (flow_iat self) f_min zero);
    ("Fwd IAT Total", sum_or_zero (fwd_iat self));
    ("Fwd IAT Mean", _safe (fwd_iat self) f_mean zero);
    ("Fwd IAT Std", _safe (fwd_iat self) f_std zero);
    ("Fwd IAT Max", _safe (fwd_iat self) f_max zero);
    ("Fwd IAT Min", _safe (fwd_iat self) f_min zero);
    ("Bwd IAT Total", sum_or_zero (bwd_iat self));
    ("Bwd IAT Mean", _safe (bwd_iat self) f_mean zero);
    ("Bwd IAT Std", _safe (bwd_iat self) f_std zero);
    ("Bwd IAT Max", _safe (bwd_iat self) f_max zero);
    ("Bwd IAT Min", _safe (bwd_iat self) f_min zero);
    ("Fwd PSH Flags", int (fwd_psh_count self));
    ("Fwd URG Flags", int (fwd_urg_count self));
    ("Fwd Header Length", int (fwd_header_len self));
    ("Bwd Header Length", int (bwd_header_len self));
    ("Fwd Packets/s", per_second (fwd_packets self) duration);
    ("Bwd Packets/s", per_second (bwd_packets self) duration);
    ("Min Packet Length", _safe all_l f_min zero);
    ("Max Packet Length", _safe all_l f_max zero);
    ("Packet Length Mean", _safe all_l f_mean zero);
    ("Packet Length Std", _safe all_l f_std zero);
    ("Packet Length Variance", _safe all_l f_var zero);
    ("FIN Flag Count", int (fin_count self));
    ("SYN Flag Count", int (syn_count self));
    ("RST Flag Count", int (rst_count self));
    ("PSH Flag Count", int (psh_count self));
    ("ACK Flag Count", int (ack_count self));
    ("URG Flag Count", int (urg_count self));
    ("CWE Flag Count", int (cwe_count self));
    ("ECE Flag Count", int (ece_count self));
    ("Down/Up Ratio", ratio_or_zero (bwd_packets self) (fwd_packets self));
    ("Average Packet Size", ratio_or_zero total_bytes total_pkts);
    ("Avg Fwd Segment Size", _safe fwd_l f_mean zero);
    ("Avg Bwd Segment Size", _safe bwd_l f_mean zero);
    ("Fwd Header Length.1", int (fwd_header_len self));
    ("Subflow Fwd Packets", int (fwd_packets self));
    ("Subflow Fwd Bytes", int (fwd_bytes self));
    ("Subflow Bwd Packets", int (bwd_packets self));
    ("Subflow Bwd Bytes", int (bwd_bytes self));
    ("Init_Win_bytes_forward", int (init_win_fwd self));
    ("Init_Win_bytes_backward", int (init_win_bwd self));
    ("act_data_pkt_fwd", int (fwd_data_pkts self));
    ("min_seg_size_forward",
      int (if (0 <? min_seg_size_fwd self)%Z then min_seg_size_fwd self else 20%Z));
    ("Active Mean", _safe (active_times self) f_mean zero);
    ("Active Std", _safe (active_times self) f_std zero);
    ("Active Max", _safe (active_times self) f_max zero);
    ("Active Min", _safe (active_times self) f_min zero);
    ("Idle Mean", _safe (idle_times self) f_mean zero);
    ("Idle Std", _safe (idle_times self) f_std zero);
    ("Idle Max", _safe (idle_times self) f_max zero);
    ("Idle Min", _safe (idle_times self) f_min zero) ].

(** [CICFlow.get_features()] *)
Definition get_features (self : CICFlow) : pyres (list (string * pyfloat)) :=
  dict_literal (feature_entries self).

End Features.

(** An entry of the dict literal that evaluates, and to a finite number. *)
Definition finite_ok (m : pyres pyfloat) : Prop := exists q, m = Ok (Fin q).

(** An entry of the dict literal that evaluates. *)
Definition returns (m : pyres pyfloat) : Prop := exists v, m = Ok v.



(** *** The flow table *)

Definition Endpoint : Type := string * Z.

(** A flow key is the tuple [sorted] returns: a sequence of endpoints. *)
Definition FlowKey : Type := list Endpoint.

Definition get_flow_key (src_ip : string) (src_port : Z)
    (dst_ip : string) (dst_port : Z) : FlowKey :=
  py_sorted endpoint_lt [(src_ip, src_port); (dst_ip, dst_port)].

(** The head of [packet_handler]: the addresses, ports and protocol name it
    reads of a packet, or nothing when it returns early (no IP layer, or
    neither TCP nor UDP). *)
Definition packet_fields (packet : Packet)
  : option (string * Z * string * Z * string) :=
  match ip_layer packet with
  | None => None
  | Some ip =>
      match tcp_layer packet, udp_layer packet with
      | Some tcp, _ => Some (src ip, sport tcp, dst ip, dport tcp, "TCP")
      | None, Some udp => Some (src ip, udp_sport udp, dst ip, udp_dport udp, "UDP")
      | None, None => None
      end
  end.

(** The key [packet_handler] computes for a packet. *)
Definition packet_flow_key (packet : Packet) : option FlowKey :=
  '(src_ip, src_port, dst_ip, dst_port, _) ← packet_fields packet;
  Some (get_flow_key src_ip src_port dst_ip dst_port).

(** *** The two threads over the shared table

    [active_flows] maps a key to a flow object; objects live in a heap and
    are named by their index, so that the reference the handler holds and
    the one a closing path popped can be the same object.  The packet
    handler (called by [sniff] for each packet) and [flow_timeout_checker]
    (a daemon thread) interleave between the operations on the shared
    dict, each of which is atomic: the membership test, the store, the
    subscript and [pop].  What a thread does to a flow object between two
    of them ([add_packet], the tests on the packet counts) is one step.
    The shutdown flush of [main] is not part of the model. *)

(** Objects are named by their index in the heap. *)
Abbreviation RecId := nat (only parsing).

(** Which call of [send_flow_to_api] closed a flow. *)
Inductive Path : Type :=
| early_emit        (* from packet_handler *)
| timeout_sweep.    (* from flow_timeout_checker *)

(** One closure: a call of [send_flow_to_api] whose pop returned an
    object, with the key, the object and its contents at the test of its
    packet count. *)
Record Closure := {
  cl_path : Path;
  cl_key : FlowKey;
  cl_rec : RecId;
  cl_flow : CICFlow
}.

(** The locals of [packet_handler] once the packet got past the early
    returns. *)
Record Locals := {
  l_packet : Packet;
  l_src_ip : string;
  l_src_port : Z;
  l_dst_ip : string;
  l_dst_port : Z;
  l_proto : string;
  l_flow_key : FlowKey
}.

Definition locals_of (packet : Packet) : option Locals :=
  '(src_ip, src_port, dst_ip, dst_port, proto) ← packet_fields packet;
  Some {| l_packet := packet;
          l_src_ip := src_ip; l_src_port := src_port;
          l_dst_ip := dst_ip; l_dst_port := dst_port;
          l_proto := proto;
          l_flow_key := get_flow_key src_ip src_port dst_ip dst_port |}.

(** Where the handler stands. *)
Inductive HandlerPC : Type :=
| H_idle                                    (* waiting for a packet *)
| H_test (c : Locals)                       (* if flow_key not in active_flows *)
| H_insert (c : Locals)                     (* active_flows[flow_key] = CICFlow(...) *)
| H_fetch (c : Locals)                      (* flow = active_flows[flow_key] *)
| H_add (c : Locals) (flow : RecId)         (* flow.add_packet(...) *)
| H_early (c : Locals) (flow : RecId)       (* the early-emit test, and the pop *)
| H_send (flow_key : FlowKey) (flow : option RecId)
                                            (* send_flow_to_api, after the pop *)
| H_dead (e : exn).                         (* an exception left the handler *)

(** Where the sweeper stands. *)
Inductive SweeperPC : Type :=
| S_sleep
| S_loop (expired : list FlowKey)           (* for key in expired *)
| S_send (flow_key : FlowKey) (flow : option RecId) (rest : list FlowKey).

(** The shared state and the two threads.  [emitted] logs the calls of
    [flow.get_features()] and [dropped] the objects that
    [send_flow_to_api] let go for having fewer than [MIN_PACKETS] packets;
    the program keeps neither list. *)
Record State := {
  heap : list CICFlow;
  active_flows : gmap FlowKey RecId;
  handler : HandlerPC;
  sweeper : SweeperPC;
  emitted : list Closure;
  dropped : list Closure;
  clock : Q
}.

Definition init : State :=
  {| heap := []; active_flows := ∅; handler := H_idle; sweeper := S_sleep;
     emitted := []; dropped := []; clock := 0 |}.

Definition total_packets (f : CICFlow) : Z := (fwd_packets f + bwd_packets f)%Z.

(** [send_flow_to_api] after [flow = active_flows.pop(flow_key, None)]:
    [if not flow or flow.fwd_packets + flow.bwd_packets < MIN_PACKETS: return],
    else [features = flow.get_features()]. *)
Inductive AfterPop : Type :=
| NoFlow
| TooShort (c : Closure)
| Extract (c : Closure).

Definition send_after_pop (path : Path) (flow_key : FlowKey)
    (flow : option RecId) (h : list CICFlow) : AfterPop :=
  match flow with
  | None => NoFlow
  | Some id =>
      match h !! id with
      | None => NoFlow
      | Some f =>
          let c := {| cl_path := path; cl_key := flow_key;
                      cl_rec := id; cl_flow := f |} in
          if (total_packets f <? MIN_PACKETS)%Z then TooShort c else Extract c
      end
  end.

Definition log_emitted (r : AfterPop) (log : list Closure) : list Closure :=
  match r with
  | Extract c => log ++ [c]
  | _ => log
  end.

Definition log_dropped (r : AfterPop) (log : list Closure) : list Closure :=
  match r with
  | TooShort c => log ++ [c]
  | _ => log
  end.

(** [[k for k, f in list(active_flows.items()) if now - f.last_seen > FLOW_TIMEOUT]] *)
Definition expired_keys (now : Q) (table : gmap FlowKey RecId)
    (h : list CICFlow) : list FlowKey :=
  omap (fun kf : FlowKey * RecId =>
          match h !! kf.2 with
          | Some f =>
              if Qgtb (now - last_seen f) FLOW_TIMEOUT then Some kf.1 else None
          | None => None
          end)
       (map_to_list table).

(** ["fwd" if (src_ip, src_port) == (flow.src_ip, flow.src_port) else "bwd"] *)
Definition direction_of (c : Locals) (f : CICFlow) : Direction :=
  if String.eqb (l_src_ip c) (src_ip f) && (l_src_port c =? src_port f)%Z
  then fwd else bwd.

Definition set_handler (pc : HandlerPC) (s : State) : State :=
  {| heap := heap s; active_flows := active_flows s; handler := pc;
     sweeper := sweeper s; emitted := emitted s; dropped := dropped s;
     clock := clock s |}.

Definition set_sweeper (pc : SweeperPC) (s : State) : State :=
  {| heap := heap s; active_flows := active_flows s; handler := handler s;
     sweeper := pc; emitted := emitted s; dropped := dropped s;
     clock := clock s |}.

(** One atomic step of the handler. *)
Definition handler_step (s : State) : option State :=
  match handler s with
  | H_idle => None
  | H_dead _ => None
  | H_test c =>
      Some (set_handler
              (if decide (active_flows s !! l_flow_key c = None)
               then H_insert c else H_fetch c) s)
  | H_insert c =>
      let f := CICFlow_init (l_src_ip c) (l_dst_ip c) (l_src_port c)
                 (l_dst_port c) (l_proto c) (clock s) (clock s) in
      Some {| heap := heap s ++ [f];
              active_flows := <[l_flow_key c := length (heap s)]> (active_flows s);
              handler := H_fetch c;
              sweeper := sweeper s; emitted := emitted s;
              dropped := dropped s; clock := clock s |}
  | H_fetch c =>
      Some (set_handler
              match active_flows s !! l_flow_key c with
              | Some id => H_add c id
              | None => H_dead KeyError
              end s)
  | H_add c id =>
      f ← heap s !! id;
      let f' := add_packet f (l_packet c) (direction_of c f)
                  (time (l_packet c)) (clock s) in
      Some {| heap := <[id := f']> (heap s);
              active_flows := active_flows s;
              handler := H_early c id;
              sweeper := sweeper s; emitted := emitted s;
              dropped := dropped s; clock := clock s |}
  | H_early c id =>
      f ← heap s !! id;
      if (total_packets f =? 2)%Z && (1 <=? syn_count f)%Z then
        Some {| heap := heap s;
                active_flows := delete (l_flow_key c) (active_flows s);
                handler := H_send (l_flow_key c) (active_flows s !! l_flow_key c);
                sweeper := sweeper s; emitted := emitted s;
                dropped := dropped s; clock := clock s |}
      else Some (set_handler H_idle s)
  | H_send k flow =>
      let r := send_after_pop early_emit k flow (heap s) in
      Some {| heap := heap s; active_flows := active_flows s;
              handler := H_idle; sweeper := sweeper s;
              emitted := log_emitted r (emitted s);
              dropped := log_dropped r (dropped s);
              clock := clock s |}
  end.

(** One atomic step of the sweeper; it leaves [time.sleep] whenever it is
    scheduled. *)
Definition sweeper_step (s : State) : option State :=
  match sweeper s with
  | S_sleep =>
      Some (set_sweeper
              (S_loop (expired_keys (clock s) (active_flows s) (heap s))) s)
  | S_loop [] => Some (set_sweeper S_sleep s)
  | S_loop (k :: rest) =>
      Some {| heap := heap s;
              active_flows := delete k (active_flows s);
              handler := handler s;
              sweeper := S_send k (active_flows s !! k) rest;
              emitted := emitted s; dropped := dropped s; clock := clock s |}
  | S_send k flow rest =>
      let r := send_after_pop timeout_sweep k flow (heap s) in
      Some {| heap := heap s; active_flows := active_flows s;
              handler := handler s; sweeper := S_loop rest;
              emitted := log_emitted r (emitted s);
              dropped := log_dropped r (dropped s);
              clock := clock s |}
  end.

(** What can happen next: the wall clock moves (forward, or back when it
    is set), a packet reaches the idle handler, or one of the threads takes
    its next step. *)
Inductive Action : Type :=
| Tick (d : Q)
| Arrive (packet : Packet)
| Handler
| Sweeper.

Definition step (a : Action) (s : State) : option State :=
  match a with
  | Tick d =>
      Some {| heap := heap s; active_flows := active_flows s;
              handler := handler s; sweeper := sweeper s;
              emitted := emitted s; dropped := dropped s;
              clock := (clock s + d)%Q |}
  | Arrive packet =>
      match handler s with
      | H_idle =>
          Some (set_handler
                  match locals_of packet with
                  | Some c => H_test c
                  | None => H_idle
                  end s)
      | _ => None
      end
  | Handler => handler_step s
  | Sweeper => sweeper_step s
  end.

(** A schedule is a list of actions; a run fails when an action is not
    enabled. *)
Fixpoint run (acts : list Action) (s : State) : option State :=
  match acts with
  | [] => Some s
  | a :: rest => s' ← step a s; run rest s'
  end.

(** The design document's reading of the closure triggers: a flow key is
    handed to feature extraction once. *)
Definition spec_each_key_emitted_once (s : State) : Prop :=
  NoDup (map cl_key (emitted s)).

(** The design document's reading of the key: the protocol is part of it,
    so packets of different protocols have different keys. *)
Definition spec_protocol_separates_keys (p1 p2 : Packet) : Prop :=
  forall a pa b pb proto1 proto2,
    packet_fields p1 = Some (a, pa, b, pb, proto1) ->
    packet_fields p2 = Some (a, pa, b, pb, proto2) ->
    proto1 <> proto2 ->
    packet_flow_key p1 <> packet_flow_key p2.

(** A schedule in which the clock is never set back. *)
Definition clock_advances (acts : list Action) : Prop :=
  Forall (fun a => match a with Tick d => (0 <= d)%Q | _ => True end) acts.

(** While the clock is not set back, an object is never last seen before
    it was created. *)
Definition times_ordered (s : State) : Prop :=
  Forall (fun f => (start_time f <= last_seen f)%Q /\ (last_seen f <= clock s)%Q)
         (heap s).

(** *** The invariant of the table *)

Definition closed (s : State) : list Closure := emitted s ++ dropped s.

Definition closed_ids (s : State) : list RecId := map cl_rec (closed s).

Definition in_table (s : State) (id : RecId) : Prop :=
  exists k, active_flows s !! k = Some id.

(** The object a thread popped and has not yet tested. *)
Definition held_by_handler (s : State) : option RecId :=
  match handler s with
  | H_send _ flow => flow
  | _ => None
  end.

Definition held_by_sweeper (s : State) : option RecId :=
  match sweeper s with
  | S_send _ flow _ => flow
  | _ => None
  end.

(** The key under which the handler is about to store a new object. *)
Definition pending_store (s : State) : option FlowKey :=
  match handler s with
  | H_insert c => Some (l_flow_key c)
  | _ => None
  end.

Definition unclaimed (s : State) (id : RecId) : Prop :=
  (id ∉ closed_ids s) /\ (id < length (heap s))%nat.

(** Where a flow object is: in the table, in the hands of a thread that
    popped it, or closed. *)
Definition accounted (s : State) (id : RecId) : Prop :=
  in_table s id \/ held_by_handler s = Some id \/ held_by_sweeper s = Some id
  \/ id ∈ closed_ids s.

Record Inv (s : State) : Prop := {
  inv_nodup : NoDup (closed_ids s);
  inv_inj : forall k1 k2 id,
    active_flows s !! k1 = Some id -> active_flows s !! k2 = Some id -> k1 = k2;
  inv_table : forall id, in_table s id -> unclaimed s id;
  inv_handler : forall id,
    held_by_handler s = Some id -> unclaimed s id /\ ~ in_table s id;
  inv_sweeper : forall id,
    held_by_sweeper s = Some id -> unclaimed s id /\ ~ in_table s id;
  inv_apart : forall id,
    held_by_handler s = Some id -> held_by_sweeper s <> Some id;
  inv_emitted : Forall (fun c => (MIN_PACKETS <= total_packets (cl_flow c))%Z)
                       (emitted s);
  inv_dropped : Forall (fun c => (total_packets (cl_flow c) < MIN_PACKETS)%Z)
                       (dropped s);
  inv_closed : Forall (fun id => (id < length (heap s))%nat) (closed_ids s);
  inv_store : forall k, pending_store s = Some k -> active_flows s !! k = None;
  inv_accounted : forall id, (id < length (heap s))%nat -> accounted s id
}.

End Extractor.

(** ** The hybrid decision engine ([virtual_soc/ids_engine.py]) *)

Module Engine.

Local Open Scope Q_scope.

Definition ATTACK_THRESHOLD : Q := 0.25.
Definition CONFIDENT_BENIGN_THRESHOLD : Q := 0.80.

(** *** Requests

    The body of a [/predict] request: the feature dictionary the extractor
    sends.  Its numeric entries are a map from names to numbers; the two
    address entries, the only values that are not numbers, are kept
    beside it. *)
Record FlowData := {
  features : gmap string pyfloat;
  features_src_ip : option string;
  features_dst_ip : option string
}.

(** [features.get(name, d)] for an integer default. *)
Definition get (feats : gmap string pyfloat) (name : string) (d : Z) : pyfloat :=
  default (of_int d) (feats !! name).

(** *** The event buffer: [EVENT_HISTORY = deque(maxlen=100)] *)

Definition maxlen : nat := 100.

(** [deque.append(x)]: the new item goes to the right end; a full deque
    first discards the item at its left end. *)
Definition deque_append {A} (d : list A) (x : A) : list A :=
  if (length d <? maxlen)%nat then d ++ [x] else drop 1 d ++ [x].

Record Event := {
  timestamp : string;
  src_ip : string;
  dst_ip : string;
  dst_port : pyfloat;
  label : string;
  attack_type : string;
  confidence : Q;
  is_malicious : bool;
  detection_method : string;
  ml_attack_prob : Q;
  ml_attack_type : string;
  model : string
}.

(** [get_events()]: [list(EVENT_HISTORY)], the items from the left end to
    the right end. *)
Definition get_events (EVENT_HISTORY : list Event) : list Event := EVENT_HISTORY.

(** The design document's reading of the events query: the events that
    were appended, the most recent one first. *)
Definition spec_most_recent_first (appended : list Event) : Prop :=
  get_events (fold_left deque_append appended []) = take maxlen (rev appended).

(** [clear_events()] *)
Definition clear_events (EVENT_HISTORY : list Event) : list Event := [].

(** *** The binary gate *)

(** The loaded binary classifier: its schema, its scaler and its scoring
    function, which answers [(probs[ATTACK_IDX], probs[BENIGN_IDX])]. *)
Record BinaryModel := {
  BINARY_FEATURE_NAMES : list string;
  BINARY_SCALER_transform : list Q -> list Q;
  BINARY_MODEL_predict_proba : list Q -> Q * Q
}.

(** [feature_map.items()], in the order of the literal *)
Definition feature_map : list (string * string) :=
  [ ("Flow Duration", "Flow Duration");
    ("Total Fwd Packets", "Total Fwd Packet");
    ("Total Backward Packets", "Total Bwd packets");
    ("Total Length of Fwd Packets", "Total Length of Fwd Packet");
    ("Total Length of Bwd Packets", "Total Length of Bwd Packet") ].

Definition has_key (feats : gmap string pyfloat) (name : string) : bool :=
  bool_decide (is_Some (feats !! name)).

(** The body of [for feat_name in BINARY_FEATURE_NAMES]: the value appended
    to [feature_vector]. *)
Definition binary_value (feats : gmap string pyfloat) (feat_name : string) : pyfloat :=
  let value := Fin 0.0 in
  let value := default value (feats !! feat_name) in
  match find (fun on : string * string =>
                String.eqb on.2 feat_name && has_key feats on.1) feature_map with
  | Some (old_name, _) => default value (feats !! old_name)
  | None => value
  end.

(** A name of the binary schema that the request does not carry, neither
    under that name nor under a name the table maps to it. *)
Definition unmapped (feats : gmap string pyfloat) (name : string) : Prop :=
  feats !! name = None
  /\ forall old, (old, name) ∈ feature_map -> feats !! old = None.

Definition feature_vector (m : BinaryModel) (feats : gmap string pyfloat)
  : list pyfloat :=
  map (binary_value feats) (BINARY_FEATURE_NAMES m).

(** [X = np.nan_to_num(np.array(feature_vector).reshape(1, -1), ...)] *)
Definition binary_input (m : BinaryModel) (feats : gmap string pyfloat) : list Q :=
  map nan_to_num (feature_vector m feats).

Definition binary_probs (m : BinaryModel) (feats : gmap string pyfloat) : Q * Q :=
  BINARY_MODEL_predict_proba m (BINARY_SCALER_transform m (binary_input m feats)).

(** Step 1 of [predict_flow]: what it leaves in [is_attack],
    [binary_confidence] and [attack_prob]. *)
Record Gate := {
  is_attack : bool;
  binary_confidence : Q;
  attack_prob : Q
}.

Definition binary_gate (BINARY_MODEL : option BinaryModel)
    (feats : gmap string pyfloat) : Gate :=
  match BINARY_MODEL with
  | None => {| is_attack := false; binary_confidence := 0.5; attack_prob := 0.0 |}
  | Some m =>
      let attack_prob := (binary_probs m feats).1 in
      let benign_prob := (binary_probs m feats).2 in
      {| is_attack := Qgtb attack_prob ATTACK_THRESHOLD
                      || Qltb benign_prob CONFIDENT_BENIGN_THRESHOLD;
         binary_confidence := py_max2 attack_prob benign_prob;
         attack_prob := attack_prob |}
  end.

(** *** The rule engine *)

(** The first rule whose condition holds answers. *)
Fixpoint first_match {A} (rules : list (bool * A)) (otherwise : A) : A :=
  match rules with
  | [] => otherwise
  | (c, r) :: rest => if c then r else first_match rest otherwise
  end.

(** [rule_based_classification(features)].  The quotient of the packet
    rate is exact here: a positive duration so small that
    [flow_duration / 1_000_000] rounds to [0.0], and a count too large to
    be converted to a float, make the code raise where this function
    returns.  The properties of the engine are therefore stated of the
    answers it returns. *)
Definition rule_based_classification (feats : gmap string pyfloat)
  : pyres (string * Q) :=
  let dst_port := get feats "Destination Port" 0 in
  let syn_count := get feats "SYN Flag Count" 0 in
  let rst_count := get feats "RST Flag Count" 0 in
  let ack_count := get feats "ACK Flag Count" 0 in
  let psh_count := get feats "PSH Flag Count" 0 in
  let fwd_packets := get feats "Total Fwd Packets" 0 in
  let bwd_packets := get feats "Total Backward Packets" 0 in
  let fwd_bytes := get feats "Total Length of Fwd Packets" 0 in
  let bwd_bytes := get feats "Total Length of Bwd Packets" 0 in
  let flow_duration := get feats "Flow Duration" 1 in
  let total_packets := fadd fwd_packets bwd_packets in
  pps ← (if fgt flow_duration (of_int 0)
         then secs ← fdiv flow_duration (of_int 1_000_000); fdiv total_packets secs
         else Ok fwd_packets);
  let is_asymmetric :=
    feq bwd_packets (of_int 0) || fgt fwd_packets (fmul bwd_packets (of_int 2)) in
  let is_very_asymmetric :=
    feq bwd_packets (of_int 0) || fgt fwd_packets (fmul bwd_packets (of_int 5)) in
  let web := fmem dst_port [80; 443; 8080]%Z in
  Ok (first_match
    [ (web && (fge syn_count (of_int 2) && is_very_asymmetric),
        ("DDoS", 0.90));
      (web && (fge fwd_packets (of_int 2) && fge syn_count (of_int 1) && is_asymmetric)
           && fle ack_count syn_count,
        ("DDoS", 0.85));
      (web && fgt pps (of_int 20),
        ("DDoS", 0.80));
      (fgt pps (of_int 50) && is_asymmetric,
        ("DDoS", 0.85));
      (feq dst_port (of_int 80) && fge psh_count (of_int 3) && fge fwd_packets (of_int 5),
        ("DoS Hulk", 0.80));
      (fmem dst_port [80; 443]%Z && fgt flow_duration (of_int 30000000)
           && (fge fwd_packets (of_int 2) && flt pps (of_int 5)),
        ("DoS slowloris", 0.75));
      (feq dst_port (of_int 80) && fge psh_count (of_int 5) && fge fwd_packets (of_int 10),
        ("DoS GoldenEye", 0.75));
      (fge syn_count (of_int 1) && fge rst_count (of_int 1)
           && (fle fwd_packets (of_int 3) && flt flow_duration (of_int 2000000)),
        ("PortScan", 0.85));
      (fge syn_count (of_int 1) && feq bwd_packets (of_int 0) && fle fwd_packets (of_int 2)
           && negb (fmem dst_port [80; 443; 8080]%Z),
        ("PortScan", 0.80));
      (feq dst_port (of_int 22) && (fge fwd_packets (of_int 3) || fge syn_count (of_int 2)),
        ("SSH-Patator", 0.85));
      (feq dst_port (of_int 21) && (fge fwd_packets (of_int 3) || fge syn_count (of_int 2)),
        ("FTP-Patator", 0.85));
      (feq dst_port (of_int 23) && fge fwd_packets (of_int 3),
        ("Telnet Brute Force", 0.80));
      (feq dst_port (of_int 3389) && fge fwd_packets (of_int 3),
        ("RDP Brute Force", 0.80));
      (fmem dst_port [80; 443; 8080; 8443]%Z
           && (fge psh_count (of_int 3) && fgt fwd_bytes (of_int 1000)),
        ("Web Attack", 0.70));
      (fgt flow_duration (of_int 30000000) && fge fwd_packets (of_int 3)
           && (fgt pps (Fin 0.5) && flt pps (of_int 10)),
        ("Bot", 0.65));
      (fgt dst_port (of_int 10000) && fgt fwd_bytes (of_int 5000),
        ("Infiltration", 0.60));
      (feq dst_port (of_int 443) && fgt bwd_bytes (fmul fwd_bytes (of_int 10)),
        ("Heartbleed", 0.65));
      (fmem dst_port [80; 443; 8080]%Z && is_asymmetric,
        ("DDoS", 0.70));
      (fmem dst_port [22; 21; 23; 3389]%Z && fge fwd_packets (of_int 2),
        ("Brute Force", 0.65)) ]
    ("Unknown Attack", 0.50)).

(** *** The multiclass resolver *)

(** The loaded multiclass classifier: the columns its preprocessor expects,
    the indices of the selected columns, the preprocessor and the scoring
    function (either may raise), and the class names of its label encoder. *)
Record MulticlassModel := {
  MULTICLASS_PREPROCESSOR_FEATURES : list string;
  MULTICLASS_FEATURE_INDICES : list nat;
  MULTICLASS_PREPROCESSOR_transform : list Q -> pyres (list Q);
  MULTICLASS_MODEL_predict_proba : list Q -> pyres (list Q);
  MULTICLASS_classes : list string
}.

(** [l[i]], an [IndexError] out of range *)
Definition index {A} (l : list A) (i : nat) : pyres A :=
  match l !! i with
  | Some x => Ok x
  | None => Raise IndexError
  end.

(** [[f(x) for x in l]], stopping at the first exception *)
Fixpoint for_each {A B} (f : A -> pyres B) (l : list A) : pyres (list B) :=
  match l with
  | [] => Ok []
  | x :: rest => y ← f x; ys ← for_each f rest; mret (y :: ys)
  end.

(** [probs.argmax()]: the first index of the largest entry *)
Fixpoint argmax_from (best_i : nat) (best : Q) (i : nat) (l : list Q) : nat :=
  match l with
  | [] => best_i
  | x :: rest =>
      if Qgtb x best then argmax_from i x (S i) rest
      else argmax_from best_i best (S i) rest
  end.

Definition np_argmax (l : list Q) : pyres nat :=
  match l with
  | [] => Raise ValueError
  | x :: rest => Ok (argmax_from 0 x 1 rest)
  end.

(** What [classify_attack_type_ml] returns: a tuple of two or of three
    items. *)
Inductive MlResult : Type :=
| Tuple2 (attack_type : string) (confidence : Q)
| Tuple3 (attack_type : string) (confidence : Q) (top3 : list (string * Q)).

(** [a, b, c = t] *)
Definition unpack3 (t : MlResult) : pyres (string * Q * list (string * Q)) :=
  match t with
  | Tuple3 a b c => Ok (a, b, c)
  | Tuple2 _ _ => Raise ValueError
  end.

Section Resolver.

(** numpy's [argsort] *)
Variable np_argsort : list Q -> list nat.

(** The input frame: the preprocessor's columns in order, a missing one
    filled with 0, then [.replace([np.inf, -np.inf], 0).fillna(0)]. *)
Definition multiclass_input (m : MulticlassModel) (feats : gmap string pyfloat)
  : list Q :=
  map (fun feat => nan_to_num (get feats feat 0))
      (MULTICLASS_PREPROCESSOR_FEATURES m).

(** The body of the [try] of [classify_attack_type_ml]. *)
Definition classify_try (m : MulticlassModel) (feats : gmap string pyfloat)
  : pyres (string * Q * list (string * Q)) :=
  processed ← MULTICLASS_PREPROCESSOR_transform m (multiclass_input m feats);
  selected ← for_each (index processed) (MULTICLASS_FEATURE_INDICES m);
  probs ← MULTICLASS_MODEL_predict_proba m selected;
  pred_idx ← np_argmax probs;
  attack_type ← index (MULTICLASS_classes m) pred_idx;
  confidence ← index probs pred_idx;
  let sorted_idx := np_argsort probs in
  let top3_idx := rev (drop (length sorted_idx - 3)%nat sorted_idx) in
  top3 ← for_each (fun i => c ← index (MULTICLASS_classes m) i;
                            p ← index probs i; mret (c, p)) top3_idx;
  mret (attack_type, confidence, top3).

Definition classify_attack_type_ml (MULTICLASS_MODEL : option MulticlassModel)
    (feats : gmap string pyfloat) : MlResult :=
  match MULTICLASS_MODEL with
  | None => Tuple2 "Unknown" 0.5
  | Some m =>
      match classify_try m feats with
      | Ok (attack_type, confidence, top3) => Tuple3 attack_type confidence top3
      | Raise e => Tuple3 "Unknown" 0.5 []
      end
  end.

(** *** Fusion and the prediction handler *)

(** The decision of step 2: the attack type, its confidence and the
    detection method. *)
Definition fusion (rule_type : string) (rule_conf : Q)
    (ml_type : string) (ml_conf : Q) : string * Q * string :=
  if Qgeb rule_conf 0.70 && negb (String.eqb rule_type "Unknown Attack") then
    (rule_type, rule_conf, "rules")
  else if negb (String.eqb ml_type "BENIGN") && Qgtb ml_conf 0.30 then
    (ml_type, ml_conf, "ml-multiclass")
  else
    (rule_type, rule_conf, "rules").

(** The components step 2 calls. *)
Inductive Component : Type := RuleEngine | MulticlassResolver.

(** What step 2 leaves in its variables. *)
Record Step2 := {
  s2_attack_type : string;
  s2_type_confidence : Q;
  s2_detection_method : string;
  s2_ml_attack_type : string
}.

(** The branch of step 2, with the calls it makes in order. *)
Definition classify_type (MULTICLASS_MODEL : option MulticlassModel)
    (feats : gmap string pyfloat) : list Component * pyres Step2 :=
  match rule_based_classification feats with
  | Raise e => ([RuleEngine], Raise e)
  | Ok (rule_type, rule_conf) =>
      ([RuleEngine; MulticlassResolver],
       '(ml_type, ml_conf, top3) ←
          unpack3 (classify_attack_type_ml MULTICLASS_MODEL feats);
       let '(attack_type, type_confidence, detection_method) :=
         fusion rule_type rule_conf ml_type ml_conf in
       mret {| s2_attack_type := attack_type;
               s2_type_confidence := type_confidence;
               s2_detection_method := detection_method;
               s2_ml_attack_type := ml_type |})
  end.

(** The outcome of a request: the response (an event, or the HTTP error),
    the components that were called, and the event buffer afterwards. *)
Record Outcome := {
  response : pyres Event;
  invoked : list Component;
  history : list Event
}.

(** [predict_flow(data)]; [now] is [datetime.now().isoformat()]. *)
Definition predict_flow (BINARY_MODEL : option BinaryModel)
    (MULTICLASS_MODEL : option MulticlassModel)
    (now : string) (data : FlowData) (EVENT_HISTORY : list Event) : Outcome :=
  let src_ip := default "unknown" (features_src_ip data) in
  let dst_ip := default "unknown" (features_dst_ip data) in
  let dst_port := get (features data) "Destination Port" 0 in
  let gate := binary_gate BINARY_MODEL (features data) in
  let event final_label attack_type confidence is_attack detection_method
        ml_attack_type :=
    {| timestamp := now; src_ip := src_ip; dst_ip := dst_ip;
       dst_port := dst_port; label := final_label;
       attack_type := attack_type; confidence := confidence;
       is_malicious := is_attack; detection_method := detection_method;
       ml_attack_prob := attack_prob gate;
       ml_attack_type := ml_attack_type; model := "Hybrid-v3" |} in
  if is_attack gate || Qgtb (attack_prob gate) 0.20 then
    match classify_type MULTICLASS_MODEL (features data) with
    | (calls, Raise e) =>
        {| response := Raise (HTTPException 400 e);
           invoked := calls; history := EVENT_HISTORY |}
    | (calls, Ok r) =>
        let ev := event "ATTACK" (s2_attack_type r) (s2_type_confidence r)
                    true (s2_detection_method r) (s2_ml_attack_type r) in
        {| response := Ok ev; invoked := calls;
           history := deque_append EVENT_HISTORY ev |}
    end
  else
    let ev := event "BENIGN" "BENIGN" (binary_confidence gate) false "ml"
                "BENIGN" in
    {| response := Ok ev; invoked := [];
       history := deque_append EVENT_HISTORY ev |}.

End Resolver.

End Engine.

(** ** Concrete flows, requests and models *)

Module Examples.

Import Extractor Engine.

Definition host_a : string := "10.0.0.1".
Definition host_b : string := "10.0.0.2".

Definition tcp_packet (a : string) (pa : Z) (b : string) (pb : Z)
    (fl : string) (t : Q) : Packet :=
  {| ip_layer := Some {| src := a; dst := b |};
     tcp_layer := Some {| sport := pa; dport := pb; flags := fl;
                          window := 8192; dataofs := Some 5%Z |};
     udp_layer := None; time := t; len := 60 |}.

Definition udp_packet (a : string) (pa : Z) (b : string) (pb : Z) (t : Q)
  : Packet :=
  {| ip_layer := Some {| src := a; dst := b |};
     tcp_layer := None;
     udp_layer := Some {| udp_sport := pa; udp_dport := pb |};
     time := t; len := 60 |}.

(** A DNS query over TCP and one over UDP between the same endpoints. *)
Definition dns_over_tcp : Packet := tcp_packet host_a 5353 host_b 53 "PA" 0.
Definition dns_over_udp : Packet := udp_packet host_a 5353 host_b 53 0.

(** A client packet and the server's answer on one connection. *)
Definition syn : Packet := tcp_packet host_a 40000 host_b 80 "S" 0.
Definition syn_ack : Packet := tcp_packet host_b 80 host_a 40000 "SA" 0.001.
Definition ack : Packet := tcp_packet host_a 40000 host_b 80 "A" 0.002.
Definition request : Packet := tcp_packet host_a 40000 host_b 80 "PA" 0.003.

(** The handler runs a packet to the end without the sweeper in between:
    the packet arrives and the handler takes [n] steps. *)
Definition handle (packet : Packet) (n : nat) : list Action :=
  Arrive packet :: replicate n Handler.

(** A handshake that the early-emit trigger closes after two packets,
    then two more packets on the same connection, closed by the sweeper
    three seconds later. *)
Definition double_emission : list Action :=
  handle syn 5 ++ handle syn_ack 5 ++ handle ack 5 ++ handle request 4
  ++ [Tick 3; Sweeper; Sweeper; Sweeper; Sweeper].

(** A flow whose only packet is three seconds old: the sweeper has listed
    its key as expired when a second packet arrives, and pops the key
    between the handler's subscript and its [add_packet]. *)
Definition sweep_during_packet : list Action :=
  handle syn 5
  ++ [Tick 3; Sweeper;
      Arrive syn_ack; Handler; Handler;
      Sweeper; Sweeper;
      Handler; Handler; Handler; Sweeper].

(** What a run leaves behind: which path emitted which key from which
    object, which objects were let go, the packet counts of the objects in
    the heap, and the table. *)
Definition summary (s : State)
  : list (Path * FlowKey * RecId) * list (Path * FlowKey * RecId)
    * list Z * list (FlowKey * RecId) :=
  (map (fun c => (cl_path c, cl_key c, cl_rec c)) (emitted s),
   map (fun c => (cl_path c, cl_key c, cl_rec c)) (dropped s),
   map total_packets (heap s),
   map_to_list (active_flows s)).

Definition connection_key : FlowKey := [(host_a, 40000%Z); (host_b, 80%Z)].

(** Three packets at 0 s, 0.5 s and 3 s. *)
Definition gap_arrivals : list (Packet * Direction * Q) :=
  [ (tcp_packet host_a 40000 host_b 80 "S" 0, fwd, 0%Q);
    (tcp_packet host_a 40000 host_b 80 "A" 0.5, fwd, 0.5%Q);
    (tcp_packet host_a 40000 host_b 80 "A" 3, fwd, 3%Q) ].

Definition gap_flow : CICFlow :=
  feed (CICFlow_init host_a host_b 40000 80 "TCP" 0 0) gap_arrivals.

(** Three packets whose times are 10 s, 5 s and 7 s. *)
Definition reordered_arrivals : list (Packet * Direction * Q) :=
  [ (tcp_packet host_a 40000 host_b 80 "S" 10, fwd, 10%Q);
    (tcp_packet host_a 40000 host_b 80 "A" 5, fwd, 10%Q);
    (tcp_packet host_a 40000 host_b 80 "A" 7, fwd, 10%Q) ].

Definition reordered_flow : CICFlow :=
  feed (CICFlow_init host_a host_b 40000 80 "TCP" 10 10) reordered_arrivals.




(** The clock is set back by two seconds between the creation of a flow
    object and its first packet. *)
Definition clock_set_back : list Action :=
  [Arrive syn; Handler; Handler; Tick (-2); Handler; Handler].

(** Two events of the buffer. *)
Definition event_at (t : string) : Event :=
  {| timestamp := t; Engine.src_ip := host_a; Engine.dst_ip := host_b;
     Engine.dst_port := of_int 80; label := "BENIGN"; attack_type := "BENIGN";
     confidence := 0.9; is_malicious := false; detection_method := "ml";
     ml_attack_prob := 0.1; ml_attack_type := "BENIGN"; model := "Hybrid-v3" |}.

Definition first_event : Event := event_at "2024-01-01T00:00:00".
Definition second_event : Event := event_at "2024-01-01T00:00:01".

(** A binary classifier over four columns that calls a flow an attack when
    its scaled SYN count is positive. *)
Definition demo_binary : BinaryModel :=
  {| BINARY_FEATURE_NAMES :=
       ["Flow Duration"; "Total Fwd Packet"; "SYN Flag Count"; "Idle Max"];
     BINARY_SCALER_transform := map (fun x => x / 10)%Q;
     BINARY_MODEL_predict_proba := fun X =>
       match X !! 2%nat with
       | Some syn => if Qgtb syn 0 then (0.9, 0.1)%Q else (0.1, 0.9)%Q
       | None => (0.1, 0.9)%Q
       end |}.

(** A binary classifier whose two scores are 0.22 and 0.80 for every flow:
    the gate does not flag the flow, and step 2 is entered. *)
Definition cautious_binary : BinaryModel :=
  {| BINARY_FEATURE_NAMES := BINARY_FEATURE_NAMES demo_binary;
     BINARY_SCALER_transform := BINARY_SCALER_transform demo_binary;
     BINARY_MODEL_predict_proba := fun _ => (0.22, 0.80)%Q |}.

(** A multiclass classifier over three classes that favours DDoS. *)
Definition demo_multiclass : MulticlassModel :=
  {| MULTICLASS_PREPROCESSOR_FEATURES := ["Destination Port"; "SYN Flag Count"];
     MULTICLASS_FEATURE_INDICES := [1%nat; 0%nat];
     MULTICLASS_PREPROCESSOR_transform := fun X => Ok X;
     MULTICLASS_MODEL_predict_proba := fun _ => Ok [0.05; 0.92; 0.03]%Q;
     MULTICLASS_classes := ["BENIGN"; "DDoS"; "PortScan"] |}.

(** An argsort: the indices in ascending order of their entries, equal
    entries in their order. *)
Definition demo_argsort (l : list Q) : list nat :=
  map fst (py_sorted (fun a b : nat * Q => Qltb a.2 b.2)
                     (zip (seq 0 (length l)) l)).

(** The all-zero feature vector with port 443. *)
Definition quiet_request : FlowData :=
  {| features := list_to_map
       [ ("Destination Port", of_int 443); ("Flow Duration", of_int 0);
         ("Total Fwd Packets", of_int 0); ("Total Backward Packets", of_int 0);
         ("SYN Flag Count", of_int 0); ("RST Flag Count", of_int 0);
         ("Idle Max", of_int 0) ];
     features_src_ip := Some host_a;
     features_dst_ip := Some host_b |}.

(** A request with a renamed column, a missing one and a non-finite value. *)
Definition ragged_request : FlowData :=
  {| features := list_to_map
       [ ("Destination Port", of_int 443); ("Flow Duration", of_int 5000);
         ("Total Fwd Packets", of_int 3); ("Idle Max", PosInf) ];
     features_src_ip := None;
     features_dst_ip := None |}.

(** A short flow to port 22 with a SYN and a RST. *)
Definition scan_request : FlowData :=
  {| features := list_to_map
       [ ("Destination Port", of_int 22); ("Flow Duration", of_int 50000);
         ("Total Fwd Packets", of_int 2); ("Total Backward Packets", of_int 1);
         ("SYN Flag Count", of_int 1); ("RST Flag Count", of_int 1);
         ("ACK Flag Count", of_int 1) ];
     features_src_ip := Some host_a;
     features_dst_ip := Some host_b |}.

End Examples.

(** ** What the rule engine reads and answers *)

Module RuleDefs.

Import Engine.
Local Open Scope Q_scope.

(** The names whose values [rule_based_classification] uses; it also
    reads "FIN Flag Count", "Fwd Packets/s" and "Init_Win_bytes_backward",
    into variables it never uses. *)
Definition rule_fields : list string :=
  [ "Destination Port"; "SYN Flag Count"; "RST Flag Count"; "ACK Flag Count";
    "PSH Flag Count"; "Total Fwd Packets"; "Total Backward Packets";
    "Total Length of Fwd Packets"; "Total Length of Bwd Packets";
    "Flow Duration" ].

(** The types the rule engine answers with a confidence below 0.70. *)
Definition weak_rule_types : list string :=
  [ "Bot"; "Infiltration"; "Heartbleed"; "Brute Force"; "Unknown Attack" ].

(** Three SYNs to port 80 and no answer. *)
Definition syn_flood_request : gmap string pyfloat :=
  list_to_map
    [ ("Destination Port", of_int 80); ("SYN Flag Count", of_int 3);
      ("ACK Flag Count", of_int 0); ("Total Fwd Packets", of_int 3);
      ("Total Backward Packets", of_int 0) ].
End RuleDefs.

(** ** The service: requests, the event buffer and its statistics
    ([virtual_soc/ids_engine.py]) *)

Module Service.

Import Engine.
Local Open Scope Q_scope.

(** The two shapes of a verdict. *)
Definition attack_verdict (ev : Event) : Prop :=
  label ev = "ATTACK" /\ is_malicious ev = true
  /\ attack_type ev <> "BENIGN"
  /\ (detection_method ev = "rules" \/ detection_method ev = "ml-multiclass").

Definition benign_verdict (ev : Event) : Prop :=
  label ev = "BENIGN" /\ is_malicious ev = false
  /\ attack_type ev = "BENIGN"
  /\ detection_method ev = "ml" /\ ml_attack_type ev = "BENIGN".

(** The requests that touch the event buffer. *)
Inductive Request : Type :=
| Predict (now : string) (data : FlowData)     (* POST /predict *)
| Clear.                                       (* POST /clear *)

Section Server.

Variable np_argsort : list Q -> list nat.
Variable BINARY_MODEL : option BinaryModel.
Variable MULTICLASS_MODEL : option MulticlassModel.

(** The event buffer after a request. *)
Definition serve (EVENT_HISTORY : list Event) (r : Request) : list Event :=
  match r with
  | Predict now data =>
      history (predict_flow np_argsort BINARY_MODEL MULTICLASS_MODEL now data
                 EVENT_HISTORY)
  | Clear => clear_events EVENT_HISTORY
  end.

End Server.

(** *** [get_stats] *)

(** [d[k] = d.get(k, 0) + 1] *)
Definition bump (k : string) (d : gmap string Z) : gmap string Z :=
  <[k := (default 0 (d !! k) + 1)%Z]> d.

(** The body of [for e in events], on the pair of the two dicts. *)
Definition tally (d : gmap string Z * gmap string Z) (e : Event)
  : gmap string Z * gmap string Z :=
  let attack_types := if is_malicious e then bump (attack_type e) d.1 else d.1 in
  let detection_methods := bump (detection_method e) d.2 in
  (attack_types, detection_methods).

(** What [get_stats] returns: the three counts, and for a non-empty buffer
    the percentage and the two histograms as well. *)
Record Breakdown := {
  attack_percentage : Q;
  attack_types : gmap string Z;
  detection_methods : gmap string Z
}.

Record Stats := {
  total : Z;
  attacks : Z;
  benign : Z;
  breakdown : option Breakdown
}.

Definition len {A} (l : list A) : Z := Z.of_nat (length l).

Definition get_stats (EVENT_HISTORY : list Event) : pyres Stats :=
  match EVENT_HISTORY with
  | [] => Ok {| total := 0; attacks := 0; benign := 0; breakdown := None |}
  | _ =>
      let events := EVENT_HISTORY in
      let attacks := filter (fun e => is_malicious e = true) events in
      let d := fold_left tally events (∅, ∅) in
      pct ← match events with
            | [] => Ok 0
            | _ => r ← py_div (inject_Z (len attacks)) (inject_Z (len events));
                   mret (r * 100)
            end;
      mret {| total := len events;
              attacks := len attacks;
              benign := (len events - len attacks)%Z;
              breakdown := Some {| attack_percentage := pct;
                                   attack_types := d.1;
                                   detection_methods := d.2 |} |}
  end.

(** The number of events that satisfy a test, as a histogram entry: a name
    that never occurred has no entry. *)
Definition entry (n : nat) : option Z :=
  if (n =? 0)%nat then None else Some (Z.of_nat n).

Definition count (P : Event -> bool) (events : list Event) : nat :=
  length (filter (fun e => P e = true) events).

(** An entry after [n] more occurrences of its name. *)
Definition more (o : option Z) (n : nat) : option Z :=
  if (n =? 0)%nat then o else Some (default 0 o + Z.of_nat n)%Z.

End Service.

(** ** The resolver's probabilities *)

Module ResolverDefs.

Import Engine.
Local Open Scope Q_scope.

(** The class probabilities of the [try] of [classify_attack_type_ml]:
    preprocessing, column selection and scoring. *)
Definition multiclass_probs (m : MulticlassModel) (feats : gmap string pyfloat)
  : pyres (list Q) :=
  processed ← MULTICLASS_PREPROCESSOR_transform m (multiclass_input m feats);
  selected ← for_each (index processed) (MULTICLASS_FEATURE_INDICES m);
  MULTICLASS_MODEL_predict_proba m selected.

(** A multiclass classifier whose preprocessor rejects every input. *)
Definition broken_multiclass : MulticlassModel :=
  {| MULTICLASS_PREPROCESSOR_FEATURES := ["Destination Port"];
     MULTICLASS_FEATURE_INDICES := [0%nat];
     MULTICLASS_PREPROCESSOR_transform := fun _ => Raise ValueError;
     MULTICLASS_MODEL_predict_proba := fun _ => Ok [1];
     MULTICLASS_classes := ["BENIGN"] |}.

(** A flow to a high port with a SYN count the binary model flags, for
    which the rule engine has no pattern. *)
Definition odd_request : FlowData :=
  {| features := list_to_map
       [ ("Destination Port", of_int 9999); ("Flow Duration", of_int 50000);
         ("Total Fwd Packets", of_int 4); ("Total Backward Packets", of_int 4);
         ("SYN Flag Count", of_int 1) ];
     features_src_ip := None;
     features_dst_ip := None |}.
End ResolverDefs.

(** ** The books of a flow: what its packets leave in it *)

Module Accounting.

Import Extractor.

(** The packets of a list of arrivals, and those of one direction. *)
Definition packets (arrivals : list (Packet * Direction * Q)) : list Packet :=
  map (fun a => a.1.1) arrivals.

Definition fwd_of (arrivals : list (Packet * Direction * Q)) : list Packet :=
  omap (fun a => if is_fwd a.1.2 then Some a.1.1 else None) arrivals.

Definition bwd_of (arrivals : list (Packet * Direction * Q)) : list Packet :=
  omap (fun a => if is_fwd a.1.2 then None else Some a.1.1) arrivals.

(** The differences of consecutive times, in microseconds. *)
Fixpoint gaps (times : list Q) : list Q :=
  match times with
  | [] => []
  | t1 :: rest =>
      match rest with
      | [] => []
      | t2 :: _ => ((t2 - t1) * 1_000_000)%Q :: gaps rest
      end
  end.

(** [sum] of a list of integers. *)
Definition zsum (l : list Z) : Z := foldr Z.add 0%Z l.

(** How many packets carry the flag [c]. *)
Definition flagged (c : Ascii.ascii) (l : list Packet) : Z :=
  Z.of_nat (length (filter (fun p => has_flag p c = true) l)).

(** The TCP windows of the packets that have a TCP layer. *)
Definition windows (l : list Packet) : list Z :=
  omap (fun p => window <$> tcp_layer p) l.

(** The first window that is not the sentinel -1, and -1 without one. *)
Definition first_window (ws : list Z) : Z :=
  default (-1)%Z (head (filter (fun w => w <> (-1)%Z) ws)).

(** The lengths of the packets that carry data. *)
Definition data_lengths (l : list Packet) : list Z :=
  filter (fun n => (0 < n)%Z) (map len l).

(** The header length of the packets that have a TCP layer. *)
Definition header_lengths (l : list Packet) : list Z :=
  omap (fun p => header_len <$> tcp_layer p) l.

(** The time from the first to the last of a list of times, in
    microseconds. *)
Definition span (times : list Q) : Q :=
  match times with
  | [] => 0%Q
  | t :: _ => ((default t (last times) - t) * 1_000_000)%Q
  end.

(** The clock reading at the last arrival. *)
Definition last_reading (t1 : Q) (arrivals : list (Packet * Direction * Q)) : Q :=
  default t1 (last (map snd arrivals)).

(** What [add_packet] keeps of a flow's books, packet after packet. *)
Record books (a b : string) (pa pb : Z) (proto : string) (t0 t1 : Q)
    (arrivals : list (Packet * Direction * Q)) (f : CICFlow) : Prop := {
  b_src_ip : src_ip f = a;
  b_dst_ip : dst_ip f = b;
  b_src_port : src_port f = pa;
  b_dst_port : dst_port f = pb;
  b_protocol : protocol f = proto;
  b_start : start_time f = t0;
  b_last_seen : last_seen f = last_reading t1 arrivals;
  b_all : all_pkt_lengths f = map len (packets arrivals);
  b_fwd : fwd_pkt_lengths f = map len (fwd_of arrivals);
  b_bwd : bwd_pkt_lengths f = map len (bwd_of arrivals);
  b_fwd_packets : fwd_packets f = Z.of_nat (length (fwd_of arrivals));
  b_bwd_packets : bwd_packets f = Z.of_nat (length (bwd_of arrivals));
  b_fwd_bytes : fwd_bytes f = zsum (map len (fwd_of arrivals));
  b_bwd_bytes : bwd_bytes f = zsum (map len (bwd_of arrivals));
  b_fin : fin_count f = flagged "F" (packets arrivals);
  b_syn : syn_count f = flagged "S" (packets arrivals);
  b_rst : rst_count f = flagged "R" (packets arrivals);
  b_psh : psh_count f = flagged "P" (packets arrivals);
  b_ack : ack_count f = flagged "A" (packets arrivals);
  b_urg : urg_count f = flagged "U" (packets arrivals);
  b_cwe : cwe_count f = flagged "C" (packets arrivals);
  b_ece : ece_count f = flagged "E" (packets arrivals);
  b_fwd_psh : fwd_psh_count f = flagged "P" (fwd_of arrivals);
  b_fwd_urg : fwd_urg_count f = flagged "U" (fwd_of arrivals);
  b_fwd_header : fwd_header_len f = zsum (header_lengths (fwd_of arrivals));
  b_bwd_header : bwd_header_len f = zsum (header_lengths (bwd_of arrivals))
}.


End Accounting.

(** ** The handler and the sweeper, each at its own work *)

Module Threads.

Import Extractor Examples.

(** What the handler has established about the object it works on: the
    object it looked up is still under its key unless the key was popped,
    and the object it popped passed the early-emit test. *)
Definition handler_knows (s : State) : Prop :=
  match handler s with
  | H_add c id | H_early c id =>
      (id < length (heap s))%nat
      /\ (active_flows s !! l_flow_key c = Some id
          \/ active_flows s !! l_flow_key c = None)
  | H_send _ (Some id) =>
      exists f, heap s !! id = Some f
        /\ total_packets f = 2%Z /\ (1 <= syn_count f)%Z
  | _ => True
  end.

Definition two_packets_with_syn (c : Closure) : Prop :=
  cl_path c = early_emit ->
  total_packets (cl_flow c) = 2%Z /\ (1 <= syn_count (cl_flow c))%Z.

Record Early (s : State) : Prop := {
  early_handler : handler_knows s;
  early_emitted : Forall two_packets_with_syn (emitted s);
  early_dropped : Forall (fun c => cl_path c = timeout_sweep) (dropped s)
}.

(** What holds while the sweeper never runs: the handler's key is in the
    table from the membership test on. *)
Definition handler_alone (s : State) : Prop :=
  sweeper s = S_sleep
  /\ dropped s = []
  /\ Forall (fun c => cl_path c = early_emit) (emitted s)
  /\ match handler s with
     | H_fetch c => is_Some (active_flows s !! l_flow_key c)
     | H_add c id | H_early c id =>
         active_flows s !! l_flow_key c = Some id /\ (id < length (heap s))%nat
     | H_send _ flow =>
         exists id f, flow = Some id /\ heap s !! id = Some f
           /\ total_packets f = 2%Z
     | H_dead _ => False
     | _ => True
     end.

(** The closure a call of [send_flow_to_api] hands to feature extraction,
    and the one it lets go. *)
Definition extracted (r : AfterPop) : option Closure :=
  match r with Extract c => Some c | _ => None end.

Definition let_go (r : AfterPop) : option Closure :=
  match r with TooShort c => Some c | _ => None end.

(** One round of the sweeper over [n] expired keys: it wakes up, pops and
    sends each key, and goes back to sleep. *)
Definition sweep (n : nat) : list Action := replicate (2 * n + 2) Sweeper.

(** A flow that is three seconds old when its second packet arrives: the
    sweeper pops its key between the handler's membership test and its
    subscript. *)
Definition sweep_before_subscript : list Action :=
  handle syn 5 ++ [Tick 3; Sweeper; Arrive syn_ack; Handler; Sweeper; Handler].

(** A flow of one packet, three seconds old. *)
Definition lone_syn : State := default init (run (handle syn 5 ++ [Tick 3]) init).

End Threads.

(** ** The direction of a flow *)

Module Forwards.

Import Extractor.

(** A flow that holds a packet holds a forward one. *)
Definition starts_forward (f : CICFlow) : Prop :=
  (0 <= fwd_packets f)%Z /\ (0 <= bwd_packets f)%Z
  /\ (fwd_packets f = 0%Z -> bwd_packets f = 0%Z).

(** The packet of the handler comes from the endpoint that the flow
    records as its source. *)
Definition from_sender (c : Locals) (f : CICFlow) : Prop :=
  l_src_ip c = src_ip f /\ l_src_port c = src_port f.

(** An object without a packet is the one the handler has just stored and
    is about to add its packet to. *)
Record Forward (s : State) : Prop := {
  fw_heap : Forall starts_forward (heap s);
  fw_table : forall k id f,
    active_flows s !! k = Some id -> heap s !! id = Some f ->
    fwd_packets f = 0%Z ->
    exists c, (handler s = H_fetch c \/ handler s = H_add c id)
              /\ k = l_flow_key c /\ from_sender c f;
  fw_add : forall c id f,
    handler s = H_add c id -> heap s !! id = Some f ->
    fwd_packets f = 0%Z -> from_sender c f;
  fw_closed : Forall (fun c => starts_forward (cl_flow c)) (emitted s ++ dropped s)
}.

End Forwards.

(** ** Accepted and added packets *)

Module Conservation.

Import Extractor.

(** A packet that gets past the early returns of [packet_handler]. *)
Definition accepts (a : Action) : bool :=
  match a with
  | Arrive packet =>
      match locals_of packet with Some _ => true | None => false end
  | _ => false
  end.

Definition accepted (acts : list Action) : Z :=
  Z.of_nat (length (filter (fun a => accepts a = true) acts)).

(** The packets the flow objects hold, closed or not. *)
Definition added (h : list CICFlow) : Z :=
  foldr (fun f n => (total_packets f + n)%Z) 0%Z h.

(** The packet the handler has accepted and not yet added, or has died
    on. *)
Definition in_flight (s : State) : Z :=
  match handler s with
  | H_test _ | H_insert _ | H_fetch _ | H_add _ _ | H_dead _ => 1%Z
  | H_idle | H_early _ _ | H_send _ _ => 0%Z
  end.

End Conservation.

(** ** From the extractor to the engine *)

Module Pipeline.

Import Extractor Engine Examples.

(** The body [send_flow_to_api] posts, as the engine reads it: the feature
    dict, with the two addresses of the flow added. *)
Definition request_of (flow : CICFlow) (d : list (string * pyfloat)) : FlowData :=
  {| features := list_to_map d;
     features_src_ip := Some (Extractor.src_ip flow);
     features_dst_ip := Some (Extractor.dst_ip flow) |}.

(** The minimum, mean and maximum entries of the three packet length
    families. *)
Definition length_statistics : list (string * string * string) :=
  [ ("Fwd Packet Length Min", "Fwd Packet Length Mean", "Fwd Packet Length Max");
    ("Bwd Packet Length Min", "Bwd Packet Length Mean", "Bwd Packet Length Max");
    ("Min Packet Length", "Packet Length Mean", "Max Packet Length") ].

(** A SYN sent twice to a web server that does not answer. *)
Definition repeated_syn : list (Packet * Direction * Q) :=
  [ (syn, fwd, 0%Q); (tcp_packet host_a 40000 host_b 80 "S" 1, fwd, 1%Q) ].

End Pipeline.

(** * Properties *)

(** ** Facts about the built-ins *)

Module PyFacts.

Local Open Scope Q_scope.

Lemma Qltb_lt x y : Qltb x y = true <-> x < y.
Proof.
  unfold Qltb. rewrite negb_true_iff. split.
  - intros H. apply Qnot_le_lt. intros Hle. apply Qle_bool_iff in Hle. congruence.
  - intros H. destruct (Qle_bool y x) eqn:E; [|done].
    apply Qle_bool_iff in E. exfalso. apply (Qlt_not_le _ _ H E).
Qed.

Lemma Qltb_ge x y : Qltb x y = false <-> y <= x.
Proof. unfold Qltb. rewrite negb_false_iff. apply Qle_bool_iff. Qed.

Lemma Qgtb_gt x y : Qgtb x y = true <-> y < x.
Proof. apply Qltb_lt. Qed.

Lemma Qgtb_le x y : Qgtb x y = false <-> x <= y.
Proof. apply Qltb_ge. Qed.

Lemma Qgeb_ge x y : Qgeb x y = true <-> y <= x.
Proof. apply Qle_bool_iff. Qed.

Lemma Qgeb_lt x y : Qgeb x y = false <-> x < y.
Proof.
  unfold Qgeb, Qleb. split.
  - intros H. apply Qnot_le_lt. intros Hle. apply Qle_bool_iff in Hle. congruence.
  - intros H. destruct (Qle_bool y x) eqn:E; [|done].
    apply Qle_bool_iff in E. exfalso. apply (Qlt_not_le _ _ H E).
Qed.

(** Boolean comparisons in the context become order facts. *)
Ltac to_prop :=
  repeat match goal with
  | H : Qgeb _ _ = true |- _ => apply Qgeb_ge in H
  | H : Qgeb _ _ = false |- _ => apply Qgeb_lt in H
  | H : Qgtb _ _ = true |- _ => apply Qgtb_gt in H
  | H : Qgtb _ _ = false |- _ => apply Qgtb_le in H
  | H : Qltb _ _ = true |- _ => apply Qltb_lt in H
  | H : Qltb _ _ = false |- _ => apply Qltb_ge in H
  end.

Lemma py_max2_max a b :
  a <= py_max2 a b /\ b <= py_max2 a b /\ (py_max2 a b = a \/ py_max2 a b = b).
Proof.
  unfold py_max2. destruct (Qgtb b a) eqn:E; to_prop.
  - repeat split; [lra|lra|by right].
  - repeat split; [lra|lra|by left].
Qed.

Lemma py_sum_snoc l x : py_sum (l ++ [x]) = py_sum l + x.
Proof. unfold py_sum. by rewrite fold_left_app. Qed.

Lemma py_div_nonzero x y : ~ y == 0 -> py_div x y = Ok (x / y).
Proof.
  intros Hy. unfold py_div. destruct (Qeq_bool y 0) eqn:E; [|done].
  apply Qeq_bool_iff in E. done.
Qed.

(** The order on strings and on endpoints is asymmetric and total, which
    is what makes sorting a pair insensitive to its order. *)
Lemma string_ltb_asym s t : String.ltb s t = true -> String.ltb t s = false.
Proof.
  unfold String.ltb. rewrite (String.compare_antisym t s).
  destruct (String.compare s t); simpl; congruence.
Qed.

Lemma string_ltb_total s t :
  String.ltb s t = false -> String.ltb t s = false -> s = t.
Proof.
  unfold String.ltb. rewrite (String.compare_antisym t s).
  destruct (String.compare s t) eqn:E; simpl; try congruence.
  intros _ _. by apply String.compare_eq_iff.
Qed.

Lemma endpoint_lt_asym x y : endpoint_lt x y = true -> endpoint_lt y x = false.
Proof.
  destruct x as [a p], y as [b q]. unfold endpoint_lt. simpl.
  rewrite (String.eqb_sym b a).
  destruct (String.eqb a b) eqn:E.
  - intros H. apply Z.ltb_lt in H. apply Z.ltb_ge. lia.
  - apply string_ltb_asym.
Qed.

Lemma endpoint_lt_total x y :
  endpoint_lt x y = false -> endpoint_lt y x = false -> x = y.
Proof.
  destruct x as [a p], y as [b q]. unfold endpoint_lt. simpl.
  rewrite (String.eqb_sym b a).
  destruct (String.eqb a b) eqn:E.
  - apply String.eqb_eq in E. subst b.
    intros H1 H2. apply Z.ltb_ge in H1, H2. f_equal. lia.
  - intros H1 H2. apply String.eqb_neq in E. destruct E.
    by apply string_ltb_total.
Qed.

End PyFacts.

(** ** The flow key *)

Module FlowKeyProps.

Import Extractor PyFacts Examples.

Lemma get_flow_key_unfold a pa b pb :
  get_flow_key a pa b pb =
  if endpoint_lt (b, pb) (a, pa) then [(b, pb); (a, pa)] else [(a, pa); (b, pb)].
Proof. reflexivity. Qed.

Lemma get_flow_key_sym a pa b pb :
  get_flow_key a pa b pb = get_flow_key b pb a pa.
Proof.
  rewrite !get_flow_key_unfold.
  destruct (endpoint_lt (b, pb) (a, pa)) eqn:E1.
  - by rewrite (endpoint_lt_asym _ _ E1).
  - destruct (endpoint_lt (a, pa) (b, pb)) eqn:E2; [done|].
    by rewrite (endpoint_lt_total _ _ E1 E2).
Qed.

(** C3, as amended: the key of a packet is the sorted pair of its two
    (address, port) endpoints and nothing more.  A packet from A to B and
    one between the same endpoints, in either direction and of whatever
    protocol, have the same key. *)
Theorem flow_key_is_the_sorted_endpoint_pair
    (p1 p2 : Packet) (a b : string) (pa pb : Z) (proto1 proto2 : string) :
  packet_fields p1 = Some (a, pa, b, pb, proto1) ->
  packet_fields p2 = Some (b, pb, a, pa, proto2)
  \/ packet_fields p2 = Some (a, pa, b, pb, proto2) ->
  packet_flow_key p1 = Some (py_sorted endpoint_lt [(a, pa); (b, pb)])
  /\ packet_flow_key p2 = packet_flow_key p1.
Proof.
  intros H1 H2. unfold packet_flow_key. rewrite H1. simpl. split; [done|].
  destruct H2 as [-> | ->]; simpl; [|done].
  f_equal. apply get_flow_key_sym.
Qed.

Lemma flow_key_is_the_sorted_endpoint_pair_witness :
  packet_flow_key syn = Some [(host_a, 40000%Z); (host_b, 80%Z)]
  /\ packet_flow_key syn_ack = packet_flow_key syn.
Proof.
  apply (flow_key_is_the_sorted_endpoint_pair syn syn_ack
           host_a host_b 40000 80 "TCP" "TCP").
  - reflexivity.
  - left. reflexivity.
Defined.

(** C3, as stated, fails: a TCP and a UDP packet between the same endpoints
    have the same key. *)
Lemma protocol_is_not_in_the_key :
  ~ spec_protocol_separates_keys dns_over_tcp dns_over_udp.
Proof.
  intros H.
  apply (H host_a 5353%Z host_b 53%Z "TCP"%string "UDP"%string);
    (reflexivity || discriminate).
Qed.

End FlowKeyProps.

(** ** The flow table under interleaving *)

Module FlowTableProps.

Import Extractor Examples.

Lemma Inv_init : Inv init.
Proof.
  split; simpl; try done.
  - constructor.
  - intros id [k Hk]. simpl in Hk. by rewrite lookup_empty in Hk.
  - intros id Hid. simpl in Hid. lia.
Qed.

(** The invariant reads the heap only through its length, and the threads
    only through the objects they hold and the key about to be stored. *)
Lemma Inv_same s s' :
  length (heap s') = length (heap s) ->
  active_flows s' = active_flows s ->
  held_by_handler s' = held_by_handler s ->
  held_by_sweeper s' = held_by_sweeper s ->
  emitted s' = emitted s ->
  dropped s' = dropped s ->
  (forall k, pending_store s' = Some k -> active_flows s !! k = None) ->
  Inv s -> Inv s'.
Proof.
  intros Hh Ht Hhh Hhs He Hd Hp [I1 I2 I3 I4 I5 I6 I7 I8 I9 I10 I11].
  unfold accounted, in_table, unclaimed, closed_ids, closed in *.
  split; unfold accounted, in_table, unclaimed, closed_ids, closed;
    rewrite ?Hh, ?Ht, ?Hhh, ?Hhs, ?He, ?Hd; assumption.
Qed.

Lemma send_after_pop_cases path k id h :
  (id < length h)%nat ->
  exists f,
    h !! id = Some f
    /\ let c := {| cl_path := path; cl_key := k; cl_rec := id; cl_flow := f |} in
       (send_after_pop path k (Some id) h = TooShort c
        /\ (total_packets f < MIN_PACKETS)%Z)
       \/ (send_after_pop path k (Some id) h = Extract c
           /\ (MIN_PACKETS <= total_packets f)%Z).
Proof.
  intros Hlt. destruct (lookup_lt_is_Some_2 h id Hlt) as [f Hf].
  exists f. split; [done|]. cbv zeta. unfold send_after_pop. rewrite Hf.
  destruct (total_packets f <? MIN_PACKETS)%Z eqn:E.
  - left. apply Z.ltb_lt in E. done.
  - right. apply Z.ltb_ge in E. done.
Qed.

Lemma closed_ids_close s s' c :
  (emitted s' = emitted s ++ [c] /\ dropped s' = dropped s)
  \/ (emitted s' = emitted s /\ dropped s' = dropped s ++ [c]) ->
  closed_ids s' ≡ₚ cl_rec c :: closed_ids s.
Proof.
  unfold closed_ids, closed. intros [[-> ->] | [-> ->]].
  - rewrite !map_app. simpl. rewrite <- app_assoc. simpl.
    symmetry. apply Permutation_middle.
  - rewrite !map_app. simpl. rewrite app_assoc.
    rewrite <- Permutation_cons_append. done.
Qed.

(** A thread that holds an object closes it: the object goes to one of the
    two logs, according to its packet count. *)
Lemma Inv_close s s' c :
  Inv s ->
  heap s' = heap s ->
  active_flows s' = active_flows s ->
  (emitted s' = emitted s ++ [c] /\ dropped s' = dropped s
     /\ (MIN_PACKETS <= total_packets (cl_flow c))%Z)
  \/ (emitted s' = emitted s /\ dropped s' = dropped s ++ [c]
     /\ (total_packets (cl_flow c) < MIN_PACKETS)%Z) ->
  (held_by_handler s = Some (cl_rec c) /\ held_by_handler s' = None
     /\ held_by_sweeper s' = held_by_sweeper s /\ pending_store s' = None)
  \/ (held_by_sweeper s = Some (cl_rec c) /\ held_by_sweeper s' = None
     /\ held_by_handler s' = held_by_handler s
     /\ pending_store s' = pending_store s) ->
  Inv s'.
Proof.
  intros HI Hh Ht Hlog Hheld.
  assert (Hperm : closed_ids s' ≡ₚ cl_rec c :: closed_ids s).
  { apply closed_ids_close. tauto. }
  assert (Hun : unclaimed s (cl_rec c) /\ ~ in_table s (cl_rec c)).
  { destruct Hheld as [(H & _) | (H & _)].
    - by apply (inv_handler s HI).
    - by apply (inv_sweeper s HI). }
  destruct Hun as [[Hnew Hlt] Hnt].
  assert (Hother : forall id, unclaimed s id -> id <> cl_rec c -> unclaimed s' id).
  { intros id [Ha Hb] Hne. split; [|by rewrite Hh].
    rewrite Hperm. rewrite elem_of_cons. tauto. }
  assert (Htab : forall id, in_table s' id <-> in_table s id).
  { intros id. unfold in_table. by rewrite Ht. }
  destruct HI as [I1 I2 I3 I4 I5 I6 I7 I8 I9 I10 I11].
  split.
  - rewrite Hperm. by apply NoDup_cons.
  - by rewrite Ht.
  - intros id Hin. apply Htab in Hin. apply Hother; [by apply I3|].
    intros ->. done.
  - intros id Hid. destruct Hheld as [(_ & H' & _) | (Hs & _ & H' & _)];
      rewrite H' in Hid; [done|].
    destruct (I4 _ Hid) as [Ha Hb]. split; [|by rewrite Htab].
    apply Hother; [done|]. intros ->. by apply (I6 _ Hid).
  - intros id Hid. destruct Hheld as [(Hs & _ & H' & _) | (_ & H' & _)];
      rewrite H' in Hid; [|done].
    destruct (I5 _ Hid) as [Ha Hb]. split; [|by rewrite Htab].
    apply Hother; [done|]. intros ->. by apply (I6 _ Hs).
  - intros id Hid. destruct Hheld as [(_ & H' & _) | (_ & H' & _)];
      rewrite H' in *; done.
  - destruct Hlog as [(-> & _ & Hmin) | (-> & _)]; [|done].
    apply Forall_app. split; [done|]. by apply Forall_singleton.
  - destruct Hlog as [(_ & -> & _) | (_ & -> & Hmin)]; [done|].
    apply Forall_app. split; [done|]. by apply Forall_singleton.
  - rewrite Hperm, Hh. by apply Forall_cons.
  - intros k Hk. rewrite Ht. apply I10.
    destruct Hheld as [(_ & _ & _ & H') | (_ & _ & _ & H')];
      rewrite H' in Hk; done.
  - intros id Hid. rewrite Hh in Hid. unfold accounted.
    rewrite Hperm, elem_of_cons, Htab.
    destruct (decide (id = cl_rec c)) as [-> | Hne]; [tauto|].
    destruct (I11 id Hid) as [H | [H | [H | H]]]; [tauto| | |tauto].
    + destruct Hheld as [(Hc & _) | (_ & _ & H' & _)]; [congruence|].
      rewrite H'. tauto.
    + destruct Hheld as [(_ & _ & H' & _) | (Hc & _)]; [|congruence].
      rewrite H'. tauto.
Qed.

(** Popping a key hands its object, if any, to the thread that popped. *)
Lemma Inv_pop s s' k :
  Inv s ->
  heap s' = heap s ->
  active_flows s' = delete k (active_flows s) ->
  emitted s' = emitted s ->
  dropped s' = dropped s ->
  (held_by_handler s' = active_flows s !! k /\ held_by_handler s = None
     /\ held_by_sweeper s' = held_by_sweeper s /\ pending_store s' = None)
  \/ (held_by_sweeper s' = active_flows s !! k /\ held_by_sweeper s = None
     /\ held_by_handler s' = held_by_handler s
     /\ pending_store s' = pending_store s) ->
  Inv s'.
Proof.
  intros [I1 I2 I3 I4 I5 I6 I7 I8 I9 I10 I11] Hh Ht He Hd Hheld.
  assert (Hsub : forall id, in_table s' id -> in_table s id).
  { intros id [k' Hk']. exists k'. rewrite Ht in Hk'.
    apply lookup_delete_Some in Hk'. tauto. }
  assert (Hout : forall id, active_flows s !! k = Some id -> ~ in_table s' id).
  { intros id Hk [k' Hk']. rewrite Ht in Hk'.
    apply lookup_delete_Some in Hk' as [Hne Hk'].
    apply Hne. by apply (I2 _ _ id). }
  assert (Hids : closed_ids s' = closed_ids s).
  { unfold closed_ids, closed. by rewrite He, Hd. }
  assert (Hun : forall id, unclaimed s id -> unclaimed s' id).
  { unfold unclaimed. rewrite Hh, Hids. done. }
  split.
  - by rewrite Hids.
  - intros k1 k2 id. rewrite Ht. intros H1 H2.
    apply lookup_delete_Some in H1 as [_ H1].
    apply lookup_delete_Some in H2 as [_ H2].
    by apply (I2 _ _ id).
  - intros id Hin. apply Hun, I3, Hsub, Hin.
  - intros id Hheld'. destruct Hheld as [(Hn & _ & _) | (_ & _ & Hn & _)];
      rewrite Hn in Hheld'.
    + split; [|by apply Hout]. apply Hun, I3. by exists k.
    + destruct (I4 _ Hheld') as [Ha Hb]. split; [by apply Hun|].
      intros Hin. by apply Hb, Hsub.
  - intros id Hheld'. destruct Hheld as [(_ & _ & Hn & _) | (Hn & _ & _)];
      rewrite Hn in Hheld'.
    + destruct (I5 _ Hheld') as [Ha Hb]. split; [by apply Hun|].
      intros Hin. by apply Hb, Hsub.
    + split; [|by apply Hout]. apply Hun, I3. by exists k.
  - intros id Hh1 Hh2.
    destruct Hheld as [(Hn & _ & Hn' & _) | (Hn & _ & Hn' & _)];
      rewrite Hn in *; rewrite Hn' in *.
    + destruct (I5 _ Hh2) as [_ Hb]. apply Hb. by exists k.
    + destruct (I4 _ Hh1) as [_ Hb]. apply Hb. by exists k.
  - by rewrite He.
  - by rewrite Hd.
  - by rewrite Hids, Hh.
  - intros k' Hk'. rewrite Ht. apply lookup_delete_None. right. apply I10.
    destruct Hheld as [(_ & _ & _ & H') | (_ & _ & _ & H')];
      rewrite H' in Hk'; done.
  - intros id Hid. rewrite Hh in Hid. unfold accounted. rewrite Hids.
    destruct (I11 id Hid) as [[k' Hk'] | [H | [H | H]]]; [| | |tauto].
    + destruct (decide (k' = k)) as [-> | Hne].
      * destruct Hheld as [(Hn & _) | (Hn & _)]; rewrite Hn; tauto.
      * left. exists k'. rewrite Ht. by rewrite lookup_delete_ne.
    + destruct Hheld as [(_ & Hc & _) | (_ & _ & H' & _)]; [congruence|].
      rewrite H'. tauto.
    + destruct Hheld as [(_ & _ & H' & _) | (_ & Hc & _)]; [|congruence].
      rewrite H'. tauto.
Qed.

(** Storing a new object under a key that is not in the table. *)
Lemma Inv_insert s s' k f :
  Inv s ->
  pending_store s = Some k ->
  heap s' = heap s ++ [f] ->
  active_flows s' = <[k := length (heap s)]> (active_flows s) ->
  emitted s' = emitted s ->
  dropped s' = dropped s ->
  held_by_handler s' = None ->
  held_by_sweeper s' = held_by_sweeper s ->
  pending_store s' = None ->
  Inv s'.
Proof.
  intros [I1 I2 I3 I4 I5 I6 I7 I8 I9 I10 I11] Hpend Hh Ht He Hd Hhh Hhs Hp.
  assert (Habsent : active_flows s !! k = None) by by apply I10.
  assert (Hids : closed_ids s' = closed_ids s).
  { unfold closed_ids, closed. by rewrite He, Hd. }
  assert (Hlen : length (heap s') = S (length (heap s))).
  { rewrite Hh, length_app. simpl. lia. }
  assert (Hun : forall id, unclaimed s id -> unclaimed s' id).
  { unfold unclaimed. rewrite Hids, Hlen. intros id [? ?]. split; [done|lia]. }
  assert (Htab : forall id,
            in_table s' id <-> id = length (heap s) \/ in_table s id).
  { intros id. unfold in_table. rewrite Ht. split.
    - intros [k' Hk'].
      apply lookup_insert_Some in Hk' as [[_ <-] | [_ Hk']]; [by left|].
      right. by exists k'.
    - intros [-> | [k' Hk']].
      + exists k. by rewrite lookup_insert_eq.
      + exists k'. rewrite lookup_insert_ne; [done|]. congruence. }
  split.
  - by rewrite Hids.
  - intros k1 k2 id. rewrite Ht. intros H1 H2.
    apply lookup_insert_Some in H1 as [[<- <-] | [Hn1 H1]];
    apply lookup_insert_Some in H2 as [[<- Heq] | [Hn2 H2]]; try done.
    + destruct (I3 (length (heap s))) as [_ Hlt]; [by exists k2|]. lia.
    + destruct (I3 id) as [_ Hlt]; [by exists k1|]. lia.
    + by apply (I2 _ _ id).
  - intros id Hin. apply Htab in Hin as [-> | Hin'].
    + split; [|lia]. rewrite Hids. intros Hin'.
      rewrite Forall_forall in I9. specialize (I9 _ Hin'). lia.
    + by apply Hun, I3.
  - intros id. rewrite Hhh. done.
  - intros id. rewrite Hhs. intros Hheld.
    destruct (I5 _ Hheld) as [Ha Hb]. split; [by apply Hun|].
    intros Hin. apply Htab in Hin as [-> | Hin']; [|done].
    destruct Ha. lia.
  - intros id. rewrite Hhh. done.
  - by rewrite He.
  - by rewrite Hd.
  - rewrite Hids, Hlen. eapply Forall_impl; [exact I9|]. simpl. lia.
  - intros k'. rewrite Hp. done.
  - intros id Hid. rewrite Hlen in Hid. unfold accounted.
    rewrite Htab, Hhh, Hhs, Hids.
    destruct (decide (id = length (heap s))) as [-> | Hne]; [tauto|].
    destruct (I11 id) as [H | [H | [H | H]]]; [lia|tauto| |tauto|tauto].
    unfold held_by_handler in H. unfold pending_store in Hpend.
    destruct (handler s); done.
Qed.

Lemma Inv_handler_step s s' : Inv s -> handler_step s = Some s' -> Inv s'.
Proof.
  intros HI. unfold handler_step.
  destruct (handler s) as [|c|c|c|c id|c id|k flow|e] eqn:Hpc; try done.
  - (* the membership test *)
    intros [= <-]. apply (Inv_same s); try done.
    + unfold held_by_handler. simpl. rewrite Hpc. by case_decide.
    + unfold pending_store. simpl. intros k. case_decide; [|done].
      by intros [= <-].
  - (* the store *)
    intros [= <-]. eapply (Inv_insert s); try done.
    unfold pending_store. by rewrite Hpc.
  - (* the subscript *)
    intros [= <-]. apply (Inv_same s); try done.
    + unfold held_by_handler. simpl. rewrite Hpc. by destruct (_ !! _).
    + unfold pending_store. simpl. by destruct (_ !! _).
  - (* add_packet *)
    destruct (heap s !! id) as [f|] eqn:Hf; [|done]. simpl.
    intros [= <-]. apply (Inv_same s); try done.
    + simpl. by rewrite length_insert.
    + unfold held_by_handler. simpl. by rewrite Hpc.
  - (* the early-emit test and its pop *)
    destruct (heap s !! id) as [f|] eqn:Hf; [|done]. simpl.
    destruct (_ && _).
    + intros [= <-]. eapply (Inv_pop s); try done. left.
      unfold held_by_handler. simpl. by rewrite Hpc.
    + intros [= <-]. apply (Inv_same s); try done.
      unfold held_by_handler. simpl. by rewrite Hpc.
  - (* send_flow_to_api after the pop *)
    cbv zeta. destruct flow as [id|].
    + destruct (inv_handler s HI id) as [[Hnew Hlt] Hnt].
      { unfold held_by_handler. by rewrite Hpc. }
      destruct (send_after_pop_cases early_emit k id (heap s) Hlt)
        as (f & Hf & [[-> Hmin] | [-> Hmin]]); intros [= <-].
      * eapply (Inv_close s _ {| cl_path := early_emit; cl_key := k;
                                 cl_rec := id; cl_flow := f |}); try done.
        -- by right.
        -- left. simpl. unfold held_by_handler. rewrite Hpc. done.
      * eapply (Inv_close s _ {| cl_path := early_emit; cl_key := k;
                                 cl_rec := id; cl_flow := f |}); try done.
        -- by left.
        -- left. simpl. unfold held_by_handler. rewrite Hpc. done.
    + intros [= <-]. apply (Inv_same s); try done.
      unfold held_by_handler. simpl. by rewrite Hpc.
Qed.

Lemma Inv_sweeper_step s s' : Inv s -> sweeper_step s = Some s' -> Inv s'.
Proof.
  intros HI. unfold sweeper_step.
  destruct (sweeper s) as [|[|k rest]|k flow rest] eqn:Hpc.
  - intros [= <-]. apply (Inv_same s); try done.
    + unfold held_by_sweeper. simpl. by rewrite Hpc.
    + apply (inv_store s HI).
  - intros [= <-]. apply (Inv_same s); try done.
    + unfold held_by_sweeper. simpl. by rewrite Hpc.
    + apply (inv_store s HI).
  - intros [= <-]. eapply (Inv_pop s); try done. right.
    unfold held_by_sweeper. simpl. by rewrite Hpc.
  - cbv zeta. destruct flow as [id|].
    + destruct (inv_sweeper s HI id) as [[Hnew Hlt] Hnt].
      { unfold held_by_sweeper. by rewrite Hpc. }
      destruct (send_after_pop_cases timeout_sweep k id (heap s) Hlt)
        as (f & Hf & [[-> Hmin] | [-> Hmin]]); intros [= <-].
      * eapply (Inv_close s _ {| cl_path := timeout_sweep; cl_key := k;
                                 cl_rec := id; cl_flow := f |}); try done.
        -- by right.
        -- right. simpl. unfold held_by_sweeper. rewrite Hpc. done.
      * eapply (Inv_close s _ {| cl_path := timeout_sweep; cl_key := k;
                                 cl_rec := id; cl_flow := f |}); try done.
        -- by left.
        -- right. simpl. unfold held_by_sweeper. rewrite Hpc. done.
    + intros [= <-]. apply (Inv_same s); try done.
      * unfold held_by_sweeper. simpl. by rewrite Hpc.
      * apply (inv_store s HI).
Qed.

Lemma Inv_step a s s' : Inv s -> step a s = Some s' -> Inv s'.
Proof.
  intros HI. destruct a as [d|packet| |]; simpl.
  - intros [= <-].
    apply (Inv_same s); try done. apply (inv_store s HI).
  - destruct (handler s) eqn:Hpc; try done. intros [= <-].
    apply (Inv_same s); try done.
    + unfold held_by_handler. simpl. rewrite Hpc. by destruct (locals_of packet).
    + unfold pending_store. simpl. by destruct (locals_of packet).
  - by apply Inv_handler_step.
  - by apply Inv_sweeper_step.
Qed.

Lemma Inv_run acts : forall s s', Inv s -> run acts s = Some s' -> Inv s'.
Proof.
  induction acts as [|a acts IH]; simpl; intros s s' HI.
  - by intros [= <-].
  - destruct (step a s) as [s1|] eqn:Hs; [|done]. simpl.
    apply IH. by apply (Inv_step a s).
Qed.

Lemma times_ordered_step a s s' :
  clock_advances [a] ->
  times_ordered s -> step a s = Some s' -> times_ordered s'.
Proof.
  unfold times_ordered. intros Ha%Forall_inv HT.
  destruct a as [d|packet| |]; simpl.
  - intros [= <-]. simpl.
    eapply Forall_impl; [exact HT|]. simpl. intros f [H1 H2]. split; [done|lra].
  - destruct (handler s); try done. by intros [= <-].
  - unfold handler_step.
    destruct (handler s) as [|c|c|c|c id|c id|k flow|e]; try done.
    + by intros [= <-].
    + intros [= <-]. simpl. apply Forall_app. split; [done|].
      apply Forall_singleton. simpl. split; lra.
    + by intros [= <-].
    + destruct (heap s !! id) as [f|] eqn:Hf; [|done]. simpl. intros [= <-].
      simpl. apply Forall_insert; [done|]. simpl.
      rewrite Forall_forall in HT.
      destruct (HT f) as [H1 H2]; [by eapply list_elem_of_lookup_2|].
      split; lra.
    + destruct (heap s !! id) as [f|]; [|done]. simpl.
      destruct (_ && _); by intros [= <-].
    + by intros [= <-].
  - unfold sweeper_step.
    destruct (sweeper s) as [|[|k rest]|k flow rest]; by intros [= <-].
Qed.

Lemma times_ordered_run acts : forall s s',
  clock_advances acts ->
  times_ordered s -> run acts s = Some s' -> times_ordered s'.
Proof.
  induction acts as [|a acts IH]; simpl; intros s s' Hacts HT.
  - by intros [= <-].
  - destruct (step a s) as [s1|] eqn:Hs; [|done]. simpl.
    apply Forall_cons in Hacts as [Ha Hacts].
    apply IH; [done|]. apply (times_ordered_step a s); [|done..].
    by apply Forall_singleton.
Qed.

(** While the clock is not set back, every flow object of a run was last
    seen at or after its creation. *)
Lemma heap_times_ordered acts s :
  clock_advances acts ->
  run acts init = Some s ->
  Forall (fun f => (start_time f <= last_seen f)%Q) (heap s).
Proof.
  intros Hacts Hrun.
  assert (HT : times_ordered s).
  { apply (times_ordered_run acts init); [done| |done]. by apply Forall_nil. }
  eapply Forall_impl; [exact HT|]. simpl. tauto.
Qed.

(** C1, as amended: under every interleaving of the packet handler and
    the timeout sweeper, a flow object is closed at most once.  Both paths
    take it out of the table with the same pop; the path whose pop returned
    it hands it to feature extraction if it then holds at least MIN_PACKETS
    packets and lets it go otherwise; a closed object is out of the table;
    and every object ever created is in the table, in the hands of the path
    that popped it, or closed.  (A key may be emitted again, through a
    later object.) *)
Theorem each_flow_object_is_closed_at_most_once
    (acts : list Action) (s : State) :
  run acts init = Some s ->
  NoDup (map cl_rec (emitted s ++ dropped s))
  /\ Forall (fun c => (MIN_PACKETS <= total_packets (cl_flow c))%Z) (emitted s)
  /\ Forall (fun c => (total_packets (cl_flow c) < MIN_PACKETS)%Z) (dropped s)
  /\ (forall c k, c ∈ emitted s ++ dropped s ->
                  active_flows s !! k <> Some (cl_rec c))
  /\ (forall id, (id < length (heap s))%nat ->
        (exists k, active_flows s !! k = Some id)
        \/ held_by_handler s = Some id \/ held_by_sweeper s = Some id
        \/ exists c, c ∈ emitted s ++ dropped s /\ cl_rec c = id).
Proof.
  intros Hrun. pose proof (Inv_run acts init s Inv_init Hrun) as HI.
  split; [apply (inv_nodup s HI)|].
  split; [apply (inv_emitted s HI)|].
  split; [apply (inv_dropped s HI)|].
  split.
  - intros c k Hc Hk.
    destruct (inv_table s HI (cl_rec c)) as [Hne _]; [by exists k|].
    apply Hne. unfold closed_ids, closed. apply list_elem_of_fmap. by exists c.
  - intros id Hid.
    destruct (inv_accounted s HI id Hid) as [H | [H | [H | H]]]; [tauto..|].
    right. right. right. unfold closed_ids, closed in H.
    apply list_elem_of_fmap in H as (c & -> & Hc). by exists c.
Qed.

Lemma each_flow_object_is_closed_at_most_once_witness :
  exists s, run double_emission init = Some s
    /\ NoDup (map cl_rec (emitted s ++ dropped s))
    /\ Forall (fun c => (MIN_PACKETS <= total_packets (cl_flow c))%Z) (emitted s).
Proof.
  destruct (run double_emission init) as [s|] eqn:Hrun.
  - exists s. split; [reflexivity|].
    destruct (each_flow_object_is_closed_at_most_once double_emission s Hrun)
      as (Hnd & Hem & _).
    by split.
  - exfalso. vm_compute in Hrun. discriminate Hrun.
Defined.

Lemma double_emission_summary :
  summary <$> run double_emission init
  = Some ([ (early_emit, connection_key, 0%nat);
            (timeout_sweep, connection_key, 1%nat) ],
          [], [2%Z; 2%Z], []).
Proof. vm_compute. reflexivity. Qed.

(** C1, as stated, fails: with four packets on one connection, the first
    of them a SYN, the key is emitted by the early-emit trigger after the
    second packet and again by the sweeper for the other two. *)
Lemma a_key_is_emitted_twice :
  exists s, run double_emission init = Some s
    /\ ~ spec_each_key_emitted_once s.
Proof.
  pose proof double_emission_summary as Hsum.
  destruct (run double_emission init) as [s|]; [|discriminate Hsum].
  exists s. split; [reflexivity|].
  injection Hsum as Hem _ _ _.
  unfold spec_each_key_emitted_once. intros Hnd.
  assert (Hk : map cl_key (emitted s) = [connection_key; connection_key]).
  { apply (f_equal (map (fun x : Path * FlowKey * RecId => x.1.2))) in Hem.
    rewrite map_map in Hem. exact Hem. }
  rewrite Hk in Hnd. apply NoDup_cons in Hnd as [Hnin _].
  apply Hnin. apply list_elem_of_here.
Qed.

(** The pop is atomic, the handler's use of the object it looked up is not:
    when the sweeper pops a key between the handler's subscript and its
    [add_packet], the object is let go with one packet, receives its second
    packet afterwards, and is never emitted. *)
Lemma a_sweep_during_a_packet_loses_the_flow :
  summary <$> run sweep_during_packet init
  = Some ([], [(timeout_sweep, connection_key, 0%nat)], [2%Z], []).
Proof. vm_compute. reflexivity. Qed.

End FlowTableProps.

(** ** Active and idle segments *)

Module SegmentProps.

Import Extractor PyFacts Examples.
Local Open Scope Q_scope.

Lemma segmented_first f packet d now :
  last_pkt_time f = None -> active_times f = [] -> idle_times f = [] ->
  segmented (time packet) (add_packet f packet d (time packet) now).
Proof.
  intros Hl Ha Hi. exists (time packet), (time packet).
  unfold add_packet, packet_iat. rewrite Hl, Ha, Hi. simpl.
  repeat split; try done. unfold py_sum. simpl. ring.
Qed.

Lemma segmented_next t0 f packet d now :
  segmented t0 f -> segmented t0 (add_packet f packet d (time packet) now).
Proof.
  intros (cas & last & Hc & Hl & Hsum & Hidle).
  unfold segmented, add_packet, packet_iat. rewrite Hl, Hc. simpl.
  destruct (Qgtb _ IDLE_THRESHOLD) eqn:Hgt.
  - exists (time packet), (time packet). repeat split; try done.
    + rewrite py_sum_snoc, Hsum. ring.
    + apply Forall_app. split; [done|]. apply Forall_singleton.
      by apply Qgtb_gt.
  - exists cas, (time packet). repeat split; done.
Qed.

Lemma segmented_feed t0 arrivals : forall f,
  segmented t0 f -> segmented t0 (feed f arrivals).
Proof.
  induction arrivals as [|a rest IH]; intros f Hf; [done|].
  simpl. apply IH. by apply segmented_next.
Qed.

Lemma paired_next t0 f packet d now :
  segmented t0 f -> length (active_times f) = length (idle_times f) ->
  length (active_times (add_packet f packet d (time packet) now))
  = length (idle_times (add_packet f packet d (time packet) now)).
Proof.
  intros (cas & last & Hc & Hl & _) Hlen.
  unfold add_packet, packet_iat. rewrite Hl, Hc. simpl.
  destruct (Qgtb _ IDLE_THRESHOLD); [|done].
  rewrite !length_app, Hlen. done.
Qed.

Lemma paired_feed t0 arrivals : forall f,
  segmented t0 f -> length (active_times f) = length (idle_times f) ->
  length (active_times (feed f arrivals)) = length (idle_times (feed f arrivals)).
Proof.
  induction arrivals as [|a rest IH]; intros f Hf Hlen; [done|].
  simpl. apply IH; [by apply segmented_next | by apply (paired_next t0)].
Qed.

Lemma contained_first f packet d now :
  last_pkt_time f = None -> active_times f = [] -> idle_times f = [] ->
  contained (add_packet f packet d (time packet) now).
Proof.
  intros Hl Ha Hi. exists (time packet), (time packet).
  unfold add_packet, packet_iat. rewrite Hl, Ha, Hi. simpl.
  repeat split; try done. apply Qle_refl.
Qed.

(** A packet that is not earlier than the one before it keeps the pairing:
    the idle duration it appends is measured from the last packet, the
    active duration from the start of the open segment, which is not
    later. *)
Lemma contained_next f packet d now last :
  last_pkt_time f = Some last -> last <= time packet ->
  contained f -> contained (add_packet f packet d (time packet) now).
Proof.
  intros Hl Hle (cas & last' & Hc & Hl' & Hcas & Hpair).
  rewrite Hl in Hl'. injection Hl' as <-.
  unfold contained, add_packet, packet_iat. rewrite Hl, Hc. simpl.
  destruct (Qgtb _ IDLE_THRESHOLD) eqn:Hgt.
  - exists (time packet), (time packet). repeat split; try done.
    + apply Qle_refl.
    + apply Forall2_app; [done|]. constructor; [|constructor].
      apply Qmult_le_compat_r; [|done].
      unfold Qminus. apply Qplus_le_r. by apply Qopp_le_compat.
  - exists cas, (time packet). repeat split; try done.
    by apply Qle_trans with last.
Qed.

Lemma contained_feed arrivals : forall f last,
  last_pkt_time f = Some last ->
  in_time_order last (packet_times arrivals) = true ->
  contained f -> contained (feed f arrivals).
Proof.
  induction arrivals as [|a rest IH]; intros f last Hl Ho Hf; [done|].
  simpl in Ho. apply andb_true_iff in Ho as [Hle Ho].
  apply Qle_bool_iff in Hle.
  simpl. apply (IH _ (time a.1.1)); [done|done|].
  by apply (contained_next _ _ _ _ last).
Qed.

(** C6, as amended: for every packet sequence fed to a new flow, the active
    durations and the open active segment add up to the time from the first
    packet to the last, exactly; there are as many active durations as idle
    ones, one of each per packet that ends a gap; every idle duration
    exceeds the threshold; and when the packet times do not decrease, each
    idle duration is at most the active duration appended by the same
    packet, which counts it a second time. *)
Theorem active_segments_cover_the_span
    (a b : string) (pa pb : Z) (proto : string) (t0 t1 : Q)
    (packet : Packet) (d : Direction) (now : Q)
    (rest : list (Packet * Direction * Q)) :
  let f := feed (CICFlow_init a b pa pb proto t0 t1) ((packet, d, now) :: rest) in
  py_sum (active_times f) + open_segment f == packet_span (time packet) f
  /\ Forall (fun i => IDLE_THRESHOLD < i) (idle_times f)
  /\ length (active_times f) = length (idle_times f)
  /\ (in_time_order (time packet) (packet_times rest) = true ->
      Forall2 (fun active idle => idle <= active)
              (active_times f) (idle_times f)).
Proof.
  intros f.
  assert (Hfirst : segmented (time packet)
            (add_packet (CICFlow_init a b pa pb proto t0 t1) packet d
                        (time packet) now)).
  { by apply segmented_first. }
  assert (Hseg : segmented (time packet) f).
  { unfold f. simpl. by apply segmented_feed. }
  split; [|split; [|split]].
  - destruct Hseg as (cas & last & Hc & Hl & Hsum & Hidle).
    unfold open_segment, packet_span. rewrite Hl, Hc, Hsum. ring.
  - by destruct Hseg as (cas & last & Hc & Hl & Hsum & Hidle).
  - unfold f. simpl. by apply (paired_feed (time packet)).
  - intros Ho.
    assert (Hcont : contained f).
    { unfold f. simpl. apply (contained_feed _ _ (time packet)); [done|done|].
      by apply contained_first. }
    by destruct Hcont as (cas & last & _ & _ & _ & Hpair).
Qed.

Lemma active_segments_cover_the_span_witness :
  in_time_order 0 (packet_times (tl gap_arrivals)) = true
  /\ py_sum (active_times gap_flow) + open_segment gap_flow
     == packet_span 0 gap_flow
  /\ length (active_times gap_flow) = 1%nat
  /\ Forall2 (fun active idle => idle <= active)
             (active_times gap_flow) (idle_times gap_flow).
Proof.
  destruct (active_segments_cover_the_span host_a host_b 40000 80 "TCP" 0 0
              (tcp_packet host_a 40000 host_b 80 "S" 0) fwd 0 (tl gap_arrivals))
    as (Hsum & _ & Hlen & Hpair).
  split; [reflexivity|]. split; [exact Hsum|]. split; [reflexivity|].
  apply Hpair. reflexivity.
Defined.

(** The order of the packet times is needed for the pairing: with packet
    times 10 s, 5 s and 7 s the one active duration is -3,000,000 and the
    one idle duration 2,000,000. *)
Lemma reordered_packets_break_the_pairing :
  in_time_order 10 (packet_times (tl reordered_arrivals)) = false
  /\ ~ Forall2 (fun active idle => idle <= active)
               (active_times reordered_flow) (idle_times reordered_flow).
Proof.
  split; [reflexivity|]. intros H.
  assert (E : active_times reordered_flow = [(7 - 10) * 1000000]
              /\ idle_times reordered_flow = [(7 - 5) * 1000000]).
  { split; reflexivity. }
  destruct E as [Ea Ei]. rewrite Ea, Ei in H.
  apply Forall2_cons_1 in H as [H _]. vm_compute in H. by apply H.
Qed.

Lemma gap_flow_segments :
  active_times gap_flow = [3000000] /\ idle_times gap_flow = [2500000.0]
  /\ open_segment gap_flow = 0 /\ packet_span 0 gap_flow = 3000000.
Proof. vm_compute. done. Qed.

(** C6, as stated, fails: with packets at 0 s, 0.5 s and 3 s the active
    list holds 3,000,000 and the idle list 2,500,000, against a span of
    3,000,000 and an open segment of 0. *)
Lemma segments_exceed_the_span : ~ spec_segments_cover_span 0 gap_flow.
Proof.
  unfold spec_segments_cover_span.
  destruct gap_flow_segments as (-> & -> & -> & ->).
  vm_compute. intros H. apply H. reflexivity.
Qed.

End SegmentProps.

(** ** Feature derivation *)

Module FeatureProps.

Import Extractor PyFacts Examples.
Local Open Scope Q_scope.

Lemma dict_literal_returns (entries : list (string * pyres pyfloat)) :
  Forall (fun e => returns e.2) entries ->
  exists d, dict_literal entries = Ok d
    /\ forall k, Ok <$> assoc k d = assoc k entries.
Proof.
  induction 1 as [|[k e] rest [v Hv] _ (d & Hd & Hassoc)].
  - by exists [].
  - simpl in Hv. subst e. exists ((k, v) :: d). simpl. rewrite Hd. simpl.
    split; [done|].
    intros k'. destruct (String.eqb k' k); [done|]. apply Hassoc.
Qed.

Lemma finite_ok_returns m : finite_ok m -> returns m.
Proof. intros [q ->]. by eexists. Qed.

Lemma float_overflow_pos : 0 < float_overflow.
Proof. by vm_compute. Qed.


Section Entries.

Variable np_sqrt : Q -> Q.

Lemma finite_ok_int n : finite_ok (Ok (of_int n)).
Proof. by eexists. Qed.

Lemma finite_ok_fin q : finite_ok (Ok (Fin q)).
Proof. by eexists. Qed.

(** The guard of [_safe] keeps the empty sequence away from its function. *)
Lemma finite_ok_safe arr func :
  (forall x rest, finite_ok (func (x :: rest))) ->
  finite_ok (_safe arr func (of_int 0)).
Proof.
  intros Hf. unfold _safe. destruct arr as [|x rest]; simpl.
  - apply finite_ok_int.
  - apply Hf.
Qed.

Lemma finite_ok_max arr : finite_ok (_safe arr f_max (of_int 0)).
Proof. apply finite_ok_safe. intros x rest. by eexists. Qed.

Lemma finite_ok_min arr : finite_ok (_safe arr f_min (of_int 0)).
Proof. apply finite_ok_safe. intros x rest. by eexists. Qed.

Lemma finite_ok_mean arr : finite_ok (_safe arr f_mean (of_int 0)).
Proof. apply finite_ok_safe. intros x rest. by eexists. Qed.

Lemma finite_ok_var arr : finite_ok (_safe arr f_var (of_int 0)).
Proof. apply finite_ok_safe. intros x rest. by eexists. Qed.

Lemma finite_ok_std arr : finite_ok (_safe arr (f_std np_sqrt) (of_int 0)).
Proof. apply finite_ok_safe. intros x rest. by eexists. Qed.

Lemma finite_ok_sum l : finite_ok (sum_or_zero l).
Proof. destruct l; by eexists. Qed.

(** The rate expression divides by a positive number or not at all; its
    quotient overflows to infinity. *)
Lemma per_second_value x duration :
  per_second x duration
  = Ok (if Qgtb duration 0 then
          let q := inject_Z x / (duration / 1000000) in
          if Qleb float_overflow (Qabs q)
          then (if Qltb 0 q then PosInf else NegInf)
          else Fin q
        else of_int 0).
Proof.
  unfold per_second. destruct (Qgtb duration 0) eqn:Hgt; [|done].
  apply Qgtb_gt in Hgt.
  rewrite py_div_nonzero by (intros H; discriminate H). simpl.
  unfold py_float_div.
  destruct (Qeq_bool (duration / 1000000) 0) eqn:E.
  - apply Qeq_bool_iff in E.
    assert (Hd : duration == duration / 1000000 * 1000000) by (field; discriminate).
    rewrite E in Hd. lra.
  - cbv zeta. by destruct (Qleb _ _).
Qed.

Lemma returns_per_second x duration : returns (per_second x duration).
Proof. rewrite per_second_value. by eexists. Qed.

Lemma finite_ok_ratio x y : finite_ok (ratio_or_zero x y).
Proof.
  unfold ratio_or_zero. destruct (0 <? y)%Z eqn:Hy; [|by eexists].
  apply Z.ltb_lt in Hy. rewrite py_div_nonzero; [by eexists|].
  intros H. unfold Qeq in H. simpl in H. lia.
Qed.

Lemma feature_entries_return self :
  Forall (fun e => returns e.2) (feature_entries np_sqrt self).
Proof.
  unfold feature_entries.
  repeat (apply Forall_cons; split;
          [ simpl; first [ apply returns_per_second
                         | apply finite_ok_returns;
                           first [ apply finite_ok_int | apply finite_ok_fin
                                 | apply finite_ok_max | apply finite_ok_min
                                 | apply finite_ok_mean | apply finite_ok_std
                                 | apply finite_ok_var | apply finite_ok_sum
                                 | apply finite_ok_ratio ] ]
          | ]).
  apply Forall_nil. done.
Qed.


Lemma flow_duration_positive self :
  start_time self <= last_seen self -> 0 < flow_duration self.
Proof.
  intros Hle. unfold flow_duration. simpl.
  destruct (Qeq_bool _ 0) eqn:E; [reflexivity|].
  apply Qeq_bool_neq in E.
  assert (H : 0 <= (last_seen self - start_time self) * 1000000).
  { apply Qmult_le_0_compat; [lra|discriminate]. }
  apply Qle_lteq in H. destruct H as [H|H]; [done|]. by destruct E.
Qed.



End Entries.




(** A record with a negative duration arises in a run: the clock is set
    back between the creation of the flow object and the reading of the
    clock in [add_packet]. *)
Lemma a_clock_set_back_gives_a_negative_duration :
  exists s f,
    run clock_set_back init = Some s /\ heap s = [f]
    /\ last_seen f < start_time f /\ flow_duration f < 0.
Proof.
  eexists _, _. split; [by vm_compute|]. split; [reflexivity|].
  split; by vm_compute.
Qed.


End FeatureProps.

(** ** The event buffer *)

Module EventProps.

Import Engine Examples.

Lemma deque_append_all {A} (es : list A) : forall d : list A,
  (length d <= maxlen)%nat ->
  fold_left deque_append es d = drop (length (d ++ es) - maxlen) (d ++ es)
  /\ (length (fold_left deque_append es d) <= maxlen)%nat.
Proof.
  unfold maxlen. induction es as [|e es IH]; intros d Hd.
  - simpl. rewrite app_nil_r.
    assert (length d - 100 = 0)%nat as -> by lia. done.
  - simpl fold_left. unfold deque_append at 2 4. unfold maxlen.
    destruct (length d <? 100)%nat eqn:Hlt.
    + apply Nat.ltb_lt in Hlt.
      destruct (IH (d ++ [e])) as [-> Hlen].
      { rewrite length_app. simpl. lia. }
      rewrite <- !app_assoc. simpl. split; [done|].
      rewrite <- app_assoc in Hlen. exact Hlen.
    + apply Nat.ltb_ge in Hlt. assert (length d = 100%nat) as Hfull by lia.
      destruct (IH (drop 1 d ++ [e])) as [-> Hlen].
      { rewrite length_app, length_drop. simpl. lia. }
      split; [|exact Hlen].
      rewrite <- !app_assoc. simpl.
      rewrite !length_app, length_drop. simpl.
      rewrite <- (drop_app_le d (e :: es) 1) by lia.
      rewrite drop_drop. f_equal. lia.
Qed.

(** C8, as amended: the events query returns the contents of the buffer,
    which are the last 100 events appended (older ones were discarded
    first), in the order they were appended: the oldest first and the most
    recent last. *)
Theorem events_are_returned_oldest_first (appended : list Event) :
  get_events (fold_left deque_append appended [])
  = drop (length appended - maxlen) appended
  /\ (length (get_events (fold_left deque_append appended [])) <= maxlen)%nat.
Proof.
  unfold get_events.
  destruct (deque_append_all appended []) as [H1 H2]; [simpl; lia|].
  simpl in H1. done.
Qed.

(** C8, as stated, fails: after two events the query returns the older one
    first. *)
Lemma events_are_not_most_recent_first :
  ~ spec_most_recent_first [first_event; second_event].
Proof. unfold spec_most_recent_first. vm_compute. discriminate. Qed.

End EventProps.

(** ** The decision engine *)

Module EngineProps.

Import Engine PyFacts Examples.
Local Open Scope Q_scope.

(** *** The rule engine always answers *)

Lemma fdiv_million x : exists secs,
  fdiv x (of_int 1000000) = Ok secs
  /\ (fgt x (of_int 0) = true ->
      secs = PosInf \/ exists q, secs = Fin q /\ 0 < q).
Proof.
  destruct x as [q| | |]; simpl; eexists; (split; [reflexivity|]); try done.
  - intros Hq. right. eexists. split; [done|].
    apply Qltb_lt in Hq. unfold inject_Z in *.
    apply Qlt_shift_div_l; [reflexivity|]. lra.
  - intros _. by left.
Qed.

Lemma fdiv_positive x secs :
  secs = PosInf \/ (exists q, secs = Fin q /\ 0 < q) ->
  exists r, fdiv x secs = Ok r.
Proof.
  intros [-> | (q & -> & Hq)].
  - destruct x; by eexists.
  - unfold fdiv. destruct (Qeq_bool q 0) eqn:E.
    + apply Qeq_bool_iff in E. lra.
    + destruct x; try by eexists.
      * destruct (fsign PosInf), (fsign (Fin q)); by eexists.
      * destruct (fsign NegInf), (fsign (Fin q)); by eexists.
Qed.

Lemma pps_total (flow_duration total_packets fwd_packets : pyfloat) :
  exists pps,
    (if fgt flow_duration (of_int 0)
     then secs ← fdiv flow_duration (of_int 1000000); fdiv total_packets secs
     else Ok fwd_packets) = Ok pps.
Proof.
  destruct (fgt flow_duration (of_int 0)) eqn:Hd; [|by eexists].
  destruct (fdiv_million flow_duration) as (secs & -> & Hs).
  apply (fdiv_positive total_packets secs (Hs Hd)).
Qed.

Lemma rule_based_classification_total feats :
  exists rule_type rule_conf,
    rule_based_classification feats = Ok (rule_type, rule_conf).
Proof.
  unfold rule_based_classification.
  destruct (pps_total (get feats "Flow Duration" 1)
              (fadd (get feats "Total Fwd Packets" 0)
                    (get feats "Total Backward Packets" 0))
              (get feats "Total Fwd Packets" 0)) as [pps ->].
  unfold mbind, pyres_bind.
  match goal with |- context [first_match ?l ?o] =>
    destruct (first_match l o) as [t c] end.
  by exists t, c.
Qed.

(** *** The binary gate *)

Lemma binary_value_unmapped feats name :
  unmapped feats name -> binary_value feats name = Fin 0.0.
Proof.
  intros [Hn Hold]. unfold binary_value. rewrite Hn.
  destruct (find _ feature_map) as [[old new]|] eqn:Hf; [|done].
  apply find_some in Hf as [Hin Hc]. simpl in Hc.
  apply andb_true_iff in Hc as [Hnew Hkey].
  apply String.eqb_eq in Hnew. subst new.
  rewrite (Hold old); [done|]. by apply list_elem_of_In.
Qed.

Lemma binary_value_direct feats name v :
  feats !! name = Some v ->
  (forall old, (old, name) ∈ feature_map -> feats !! old = None) ->
  binary_value feats name = v.
Proof.
  intros Hn Hold. unfold binary_value. rewrite Hn.
  destruct (find _ feature_map) as [[old new]|] eqn:Hf; [|done].
  apply find_some in Hf as [Hin Hc]. simpl in Hc.
  apply andb_true_iff in Hc as [Hnew Hkey].
  apply String.eqb_eq in Hnew. subst new.
  rewrite (Hold old); [done|]. by apply list_elem_of_In.
Qed.

(** A name of the classifier's schema whose old name the request carries
    takes the value found there, whether or not the request also carries
    the schema's name. *)
Lemma binary_value_mapped feats old name v :
  (old, name) ∈ feature_map -> feats !! old = Some v ->
  binary_value feats name = v.
Proof.
  intros Hin Hv. unfold binary_value.
  destruct (find _ feature_map) as [[old' new']|] eqn:Hf.
  - apply find_some in Hf as [Hin' Hc]. simpl in Hc.
    apply andb_true_iff in Hc as [Hnew Hkey].
    apply String.eqb_eq in Hnew. subst new'.
    assert (old' = old) as ->.
    { apply list_elem_of_In in Hin'. unfold feature_map in Hin, Hin'.
      repeat (apply elem_of_cons in Hin as [Hin|Hin];
              [ injection Hin as -> ->;
                repeat (apply elem_of_cons in Hin' as [Hin'|Hin'];
                        [by injection Hin'|]);
                by apply elem_of_nil in Hin' |]).
      by apply elem_of_nil in Hin. }
    by rewrite Hv.
  - exfalso. apply list_elem_of_In in Hin.
    apply (find_none _ _ Hf) in Hin. simpl in Hin.
    assert (has_key feats old = true) as Hk.
    { unfold has_key. rewrite Hv. apply bool_decide_eq_true. by eexists. }
    rewrite String.eqb_refl, Hk in Hin. discriminate Hin.
Qed.

(** C4: the gate flags a flow exactly when the attack probability exceeds
    0.25 or the benign probability is below 0.80, the probabilities being
    those of the classifier on the scaled input; the input has one entry
    per name of the classifier's schema: the value the request carries
    under the old name that the table maps to the schema's name (Total Fwd
    Packets for Total Fwd Packet, and so on for the five pairs), otherwise
    the value it carries under the schema's name, otherwise 0; and 0 for a
    non-finite value. *)
Theorem binary_gate_decision (m : BinaryModel) (feats : gmap string pyfloat) :
  let X := binary_input m feats in
  let probs := BINARY_MODEL_predict_proba m (BINARY_SCALER_transform m X) in
  let g := binary_gate (Some m) feats in
  (is_attack g = true <-> 0.25 < probs.1 \/ probs.2 < 0.80)
  /\ ATTACK_THRESHOLD = 0.25 /\ CONFIDENT_BENIGN_THRESHOLD = 0.80
  /\ attack_prob g = probs.1
  /\ length X = length (BINARY_FEATURE_NAMES m)
  /\ forall i name, BINARY_FEATURE_NAMES m !! i = Some name ->
       exists x, X !! i = Some x
         /\ x = nan_to_num (binary_value feats name)
         /\ (unmapped feats name -> x == 0)
         /\ (is_finite (binary_value feats name) = false -> x == 0)
         /\ (forall v, feats !! name = Some v ->
             (forall old, (old, name) ∈ feature_map -> feats !! old = None) ->
             x = nan_to_num v)
         /\ (forall old v,
               (old, name) ∈
                 [ ("Flow Duration", "Flow Duration");
                   ("Total Fwd Packets", "Total Fwd Packet");
                   ("Total Backward Packets", "Total Bwd packets");
                   ("Total Length of Fwd Packets", "Total Length of Fwd Packet");
                   ("Total Length of Bwd Packets", "Total Length of Bwd Packet") ] ->
               feats !! old = Some v ->
               x = nan_to_num v).
Proof.
  intros X probs g. split; [|split; [done|split; [done|split; [done|split]]]].
  - unfold g, binary_gate, is_attack. fold probs.
    rewrite orb_true_iff, Qgtb_gt, Qltb_lt. done.
  - unfold X, binary_input, feature_vector. by rewrite !length_map.
  - intros i name Hi. exists (nan_to_num (binary_value feats name)).
    split.
    { unfold X, binary_input, feature_vector.
      rewrite !list_lookup_fmap, Hi. done. }
    split; [done|]. split; [|split; [|split]].
    + intros Hu. rewrite (binary_value_unmapped _ _ Hu). reflexivity.
    + destruct (binary_value feats name); try done. all: intros _; reflexivity.
    + intros v Hv Hold. by rewrite (binary_value_direct _ _ v).
    + intros old v Hin Hv. by rewrite (binary_value_mapped _ old name v).
Qed.

Lemma syn_count_is_unmapped : unmapped (features ragged_request) "SYN Flag Count".
Proof.
  split; [reflexivity|]. intros old Hin. unfold feature_map in Hin.
  repeat (apply elem_of_cons in Hin as [Hin|Hin]; [discriminate Hin|]).
  by apply elem_of_nil in Hin.
Qed.

Lemma binary_gate_decision_witness :
  is_attack (binary_gate (Some demo_binary) (features ragged_request)) = false
  /\ length (binary_input demo_binary (features ragged_request)) = 4%nat
  /\ (exists x, binary_input demo_binary (features ragged_request) !! 1%nat = Some x
                /\ x == 3)
  /\ (exists x, binary_input demo_binary (features ragged_request) !! 2%nat = Some x
                /\ x == 0)
  /\ (exists x, binary_input demo_binary (features ragged_request) !! 3%nat = Some x
                /\ x == 0).
Proof.
  destruct (binary_gate_decision demo_binary (features ragged_request))
    as (Hdec & _ & _ & _ & Hlen & Hcol).
  split; [|split; [exact Hlen|split; [|split]]].
  - apply not_true_is_false. intros E.
    apply Hdec in E. vm_compute in E. destruct E; discriminate.
  - destruct (Hcol 1%nat "Total Fwd Packet"%string eq_refl)
      as (x & Hx & _ & _ & _ & _ & Hmap).
    exists x. split; [exact Hx|].
    rewrite (Hmap "Total Fwd Packets"%string (of_int 3)); [reflexivity| |reflexivity].
    rewrite !elem_of_cons. tauto.
  - destruct (Hcol 2%nat "SYN Flag Count"%string eq_refl)
      as (x & Hx & _ & Hun & _).
    exists x. split; [exact Hx|]. apply Hun, syn_count_is_unmapped.
  - destruct (Hcol 3%nat "Idle Max"%string eq_refl) as (x & Hx & _ & _ & Hinf & _).
    exists x. split; [exact Hx|]. apply Hinf. reflexivity.
Defined.

(** *** The prediction handler *)

Section Handler.
Variable np_argsort : list Q -> list nat.

(** C5: when the gate did not flag the flow and the attack probability is
    at most 0.20, the flow is finalized as BENIGN with confidence
    max(attack_prob, benign_prob), and neither the rule engine nor the
    multiclass resolver is called. *)
Theorem confident_benign_short_circuit
    (bm : BinaryModel) (MULTICLASS_MODEL : option MulticlassModel)
    (now : string) (data : FlowData) (EVENT_HISTORY : list Event) :
  let probs := binary_probs bm (features data) in
  ~ (0.25 < probs.1 \/ probs.2 < 0.80) ->
  probs.1 <= 0.20 ->
  let o := predict_flow np_argsort (Some bm) MULTICLASS_MODEL now data EVENT_HISTORY in
  exists ev,
    response o = Ok ev
    /\ label ev = "BENIGN" /\ attack_type ev = "BENIGN"
    /\ is_malicious ev = false
    /\ confidence ev = py_max2 probs.1 probs.2
    /\ probs.1 <= confidence ev /\ probs.2 <= confidence ev
    /\ invoked o = []
    /\ history o = deque_append EVENT_HISTORY ev.
Proof.
  intros probs Hgate Hlow o. unfold o, predict_flow.
  assert (Hg : is_attack (binary_gate (Some bm) (features data)) = false).
  { simpl. fold probs. apply orb_false_iff. split.
    - apply Qgtb_le. apply Qnot_lt_le. tauto.
    - apply Qltb_ge. apply Qnot_lt_le. tauto. }
  assert (Ha : Qgtb (attack_prob (binary_gate (Some bm) (features data))) 0.20 = false).
  { simpl. fold probs. by apply Qgtb_le. }
  rewrite Hg, Ha. simpl. eexists. split; [reflexivity|]. simpl. fold probs.
  destruct (py_max2_max probs.1 probs.2) as (H1 & H2 & _).
  repeat split; done.
Qed.

Lemma fusion_cases rule_type rule_conf ml_type ml_conf :
  (0.70 <= rule_conf /\ rule_type <> "Unknown Attack" ->
   fusion rule_type rule_conf ml_type ml_conf = (rule_type, rule_conf, "rules"))
  /\ (~ (0.70 <= rule_conf /\ rule_type <> "Unknown Attack") ->
      ml_type <> "BENIGN" /\ 0.30 < ml_conf ->
      fusion rule_type rule_conf ml_type ml_conf = (ml_type, ml_conf, "ml-multiclass"))
  /\ (~ (0.70 <= rule_conf /\ rule_type <> "Unknown Attack") ->
      ~ (ml_type <> "BENIGN" /\ 0.30 < ml_conf) ->
      fusion rule_type rule_conf ml_type ml_conf = (rule_type, rule_conf, "rules")).
Proof.
  unfold fusion.
  destruct (Qgeb rule_conf 0.70) eqn:Hrc;
  destruct (String.eqb_spec rule_type "Unknown Attack") as [Hrt|Hrt];
  destruct (String.eqb_spec ml_type "BENIGN") as [Hmt|Hmt];
  destruct (Qgtb ml_conf 0.30) eqn:Hmc; simpl; to_prop;
  repeat split; intros; try done; exfalso; intuition lra.
Qed.

Lemma predict_flow_fusion BM MM now data hist rt rc mt mc top3 :
  let g := binary_gate BM (features data) in
  is_attack g || Qgtb (attack_prob g) 0.20 = true ->
  rule_based_classification (features data) = Ok (rt, rc) ->
  classify_attack_type_ml np_argsort MM (features data) = Tuple3 mt mc top3 ->
  let o := predict_flow np_argsort BM MM now data hist in
  exists ev,
    response o = Ok ev
    /\ label ev = "ATTACK" /\ is_malicious ev = true
    /\ (attack_type ev, confidence ev, detection_method ev) = fusion rt rc mt mc
    /\ invoked o = [RuleEngine; MulticlassResolver]
    /\ history o = deque_append hist ev
    /\ ml_attack_type ev = mt.
Proof.
  intros g Hg Hrule Hml o. unfold o, predict_flow. fold g. rewrite Hg.
  unfold classify_type. rewrite Hrule, Hml. simpl.
  destruct (fusion rt rc mt mc) as [[t c] m]. simpl.
  eexists. split; [reflexivity|]. done.
Qed.

Lemma predict_flow_unavailable BM now data hist :
  let g := binary_gate BM (features data) in
  is_attack g || Qgtb (attack_prob g) 0.20 = true ->
  let o := predict_flow np_argsort BM None now data hist in
  response o = Raise (HTTPException 400 ValueError)
  /\ history o = hist.
Proof.
  intros g Hg o. unfold o, predict_flow. fold g. rewrite Hg.
  unfold classify_type.
  destruct (rule_based_classification_total (features data)) as (rt & rc & ->).
  done.
Qed.

Lemma classify_available m feats :
  exists mt mc top3,
    classify_attack_type_ml np_argsort (Some m) feats = Tuple3 mt mc top3
    /\ (forall e, classify_try np_argsort m feats = Raise e ->
        mt = "Unknown" /\ mc = 0.5 /\ top3 = []).
Proof.
  unfold classify_attack_type_ml.
  destruct (classify_try np_argsort m feats) as [[[t c] top3]|e].
  - exists t, c, top3. split; [done|]. intros e. done.
  - exists "Unknown"%string, 0.5, []. split; [done|]. done.
Qed.

Lemma reached_iff BM feats :
  let g := binary_gate BM feats in
  is_attack g || Qgtb (attack_prob g) 0.20 = true
  <-> is_attack g = true \/ 0.20 < attack_prob g.
Proof. intros g. by rewrite orb_true_iff, Qgtb_gt. Qed.

(** C2: in the fusion step, a rule result of confidence at least 0.70 whose
    type is not "Unknown Attack" gives the verdict, with method "rules";
    otherwise a multiclass result whose type is not "BENIGN" and whose
    confidence exceeds 0.30 gives it, with method "ml-multiclass";
    otherwise the rule result gives it, with method "rules".  The rule
    result ("PortScan", 0.75) wins over the multiclass result
    ("DDoS", 0.92). *)
Theorem fusion_precedence
    (BM : option BinaryModel) (MM : option MulticlassModel)
    (now : string) (data : FlowData) (EVENT_HISTORY : list Event)
    (rule_type : string) (rule_conf : Q)
    (ml_type : string) (ml_conf : Q) (top3 : list (string * Q)) :
  let g := binary_gate BM (features data) in
  is_attack g = true \/ 0.20 < attack_prob g ->
  rule_based_classification (features data) = Ok (rule_type, rule_conf) ->
  classify_attack_type_ml np_argsort MM (features data) = Tuple3 ml_type ml_conf top3 ->
  exists ev,
    response (predict_flow np_argsort BM MM now data EVENT_HISTORY) = Ok ev
    /\ (0.70 <= rule_conf /\ rule_type <> "Unknown Attack" ->
        attack_type ev = rule_type /\ confidence ev = rule_conf
        /\ detection_method ev = "rules")
    /\ (~ (0.70 <= rule_conf /\ rule_type <> "Unknown Attack") ->
        ml_type <> "BENIGN" /\ 0.30 < ml_conf ->
        attack_type ev = ml_type /\ confidence ev = ml_conf
        /\ detection_method ev = "ml-multiclass")
    /\ (~ (0.70 <= rule_conf /\ rule_type <> "Unknown Attack") ->
        ~ (ml_type <> "BENIGN" /\ 0.30 < ml_conf) ->
        attack_type ev = rule_type /\ confidence ev = rule_conf
        /\ detection_method ev = "rules")
    /\ fusion "PortScan" 0.75 "DDoS" 0.92 = ("PortScan", 0.75, "rules").
Proof.
  intros g Hg Hrule Hml. apply reached_iff in Hg.
  destruct (predict_flow_fusion BM MM now data EVENT_HISTORY _ _ _ _ _ Hg Hrule Hml)
    as (ev & Hev & _ & _ & Hfus & _).
  exists ev. split; [exact Hev|].
  destruct (fusion_cases rule_type rule_conf ml_type ml_conf) as (F1 & F2 & F3).
  split; [|split; [|split]].
  - intros H. rewrite (F1 H) in Hfus. by injection Hfus.
  - intros H H'. rewrite (F2 H H') in Hfus. by injection Hfus.
  - intros H H'. rewrite (F3 H H') in Hfus. by injection Hfus.
  - reflexivity.
Qed.

(** A verdict of step 2 is an attack made of the answers of the rule
    engine and of the resolver, which both returned. *)
Lemma predict_flow_verdict BM MM now data hist ev :
  let g := binary_gate BM (features data) in
  is_attack g || Qgtb (attack_prob g) 0.20 = true ->
  response (predict_flow np_argsort BM MM now data hist) = Ok ev ->
  exists rt rc mt mc top3,
    rule_based_classification (features data) = Ok (rt, rc)
    /\ classify_attack_type_ml np_argsort MM (features data) = Tuple3 mt mc top3
    /\ label ev = "ATTACK" /\ is_malicious ev = true
    /\ (attack_type ev, confidence ev, detection_method ev) = fusion rt rc mt mc.
Proof.
  intros g Hg Hev.
  destruct (rule_based_classification (features data)) as [[rt rc]|e] eqn:Hrule.
  - destruct (classify_attack_type_ml np_argsort MM (features data))
      as [mt mc|mt mc top3] eqn:Hml.
    + exfalso. revert Hev. unfold predict_flow. fold g. rewrite Hg.
      unfold classify_type. rewrite Hrule, Hml. simpl. discriminate.
    + destruct (predict_flow_fusion BM MM now data hist _ _ _ _ _ Hg Hrule Hml)
        as (ev' & Hev' & Hlab & Hmal & Hfus & _).
      rewrite Hev in Hev'. injection Hev' as <-.
      by exists rt, rc, mt, mc, top3.
  - exfalso. revert Hev. unfold predict_flow. fold g. rewrite Hg.
    unfold classify_type. rewrite Hrule. simpl. discriminate.
Qed.

(** C10: the label of a request's verdict is ATTACK if and only if
    attack_prob > 0.20 or benign_prob < 0.80, whatever the state of the
    multiclass model; the gate judges the flow benign exactly when
    attack_prob <= 0.25 and benign_prob >= 0.80, and a verdict with
    attack_prob > 0.20 is an attack also then, its confidence being that of
    the source fusion chose, the rule engine's or the multiclass
    resolver's; a request with attack_prob <= 0.20 and benign_prob >= 0.80
    always gets its verdict, and any other request gets it when the
    multiclass model is loaded and the rule engine returns. *)
Theorem final_label_threshold
    (bm : BinaryModel) (MM : option MulticlassModel)
    (now : string) (data : FlowData) (EVENT_HISTORY : list Event) :
  let probs := binary_probs bm (features data) in
  let g := binary_gate (Some bm) (features data) in
  let o := predict_flow np_argsort (Some bm) MM now data EVENT_HISTORY in
  (forall ev, response o = Ok ev ->
     (label ev = "ATTACK" \/ label ev = "BENIGN")
     /\ (label ev = "ATTACK" <-> 0.20 < probs.1 \/ probs.2 < 0.80)
     /\ (0.20 < probs.1 ->
         is_malicious ev = true
         /\ exists rule_type rule_conf ml_type ml_conf top3,
              rule_based_classification (features data) = Ok (rule_type, rule_conf)
              /\ classify_attack_type_ml np_argsort MM (features data)
                 = Tuple3 ml_type ml_conf top3
              /\ (attack_type ev, confidence ev, detection_method ev)
                 = fusion rule_type rule_conf ml_type ml_conf
              /\ (confidence ev = rule_conf \/ confidence ev = ml_conf)))
  /\ (is_attack g = false <-> probs.1 <= 0.25 /\ 0.80 <= probs.2)
  /\ (~ (0.20 < probs.1 \/ probs.2 < 0.80) -> exists ev, response o = Ok ev)
  /\ (forall mm r, MM = Some mm ->
        rule_based_classification (features data) = Ok r ->
        exists ev, response o = Ok ev).
Proof.
  intros probs g o.
  assert (Hgate : is_attack g = Qgtb probs.1 0.25 || Qltb probs.2 0.80) by done.
  assert (Hprob : attack_prob g = probs.1) by done.
  assert (Hreached : is_attack g || Qgtb (attack_prob g) 0.20 = true
                     <-> 0.20 < probs.1 \/ probs.2 < 0.80).
  { rewrite Hgate, Hprob, !orb_true_iff, !Qgtb_gt, Qltb_lt.
    split; [intros [[H|H]|H]|intros [H|H]]; try tauto; left; lra. }
  split; [|split; [|split]].
  - intros ev Hev.
    destruct (is_attack g || Qgtb (attack_prob g) 0.20) eqn:Hreach.
    + destruct (predict_flow_verdict (Some bm) MM now data EVENT_HISTORY ev
                  Hreach Hev)
        as (rt & rc & mt & mc & top3 & Hrule & Hml & Hlab & Hmal & Hfus).
      split; [by left|]. split.
      * split; [|done]. intros _. by apply Hreached.
      * intros _. split; [done|]. exists rt, rc, mt, mc, top3.
        split; [done|]. split; [done|]. split; [done|].
        unfold fusion in Hfus.
        destruct (_ && _) in Hfus; [injection Hfus; auto|].
        destruct (_ && _) in Hfus; injection Hfus; auto.
    + assert (Hnot : ~ (0.20 < probs.1 \/ probs.2 < 0.80)).
      { intros H. apply Hreached in H. discriminate H. }
      revert Hev. unfold o, predict_flow. fold g. rewrite Hreach.
      simpl. intros [= <-]. simpl.
      split; [by right|]. split.
      * split; [done|]. intros H. by destruct Hnot.
      * intros H. destruct Hnot. by left.
  - rewrite Hgate, orb_false_iff, Qgtb_le, Qltb_ge. done.
  - intros Hnot.
    assert (Hreach : is_attack g || Qgtb (attack_prob g) 0.20 = false).
    { apply not_true_is_false. intros H. by apply Hnot, Hreached. }
    unfold o, predict_flow. fold g. rewrite Hreach. simpl. by eexists.
  - intros mm [rt rc] -> Hrule.
    destruct (classify_available mm (features data)) as (mt & mc & top3 & Hml & _).
    destruct (is_attack g || Qgtb (attack_prob g) 0.20) eqn:Hreach.
    + destruct (predict_flow_fusion (Some bm) (Some mm) now data EVENT_HISTORY
                  _ _ _ _ _ Hreach Hrule Hml) as (ev & Hev & _).
      by exists ev.
    + unfold o, predict_flow. fold g. rewrite Hreach. simpl. by eexists.
Qed.

(** An exception inside the resolver's [try] is absorbed: the resolver
    answers ("Unknown", 0.5, []) and the request still gets its verdict. *)
Lemma resolver_exception_degrades BM m now data hist e :
  let g := binary_gate BM (features data) in
  is_attack g = true \/ 0.20 < attack_prob g ->
  classify_try np_argsort m (features data) = Raise e ->
  classify_attack_type_ml np_argsort (Some m) (features data)
  = Tuple3 "Unknown" 0.5 []
  /\ exists ev,
       response (predict_flow np_argsort BM (Some m) now data hist) = Ok ev
       /\ ml_attack_type ev = "Unknown".
Proof.
  intros g Hg Htry.
  assert (Hml : classify_attack_type_ml np_argsort (Some m) (features data)
                = Tuple3 "Unknown" 0.5 []).
  { unfold classify_attack_type_ml. by rewrite Htry. }
  split; [exact Hml|].
  destruct (rule_based_classification_total (features data)) as (rt & rc & Hrule).
  apply reached_iff in Hg.
  destruct (predict_flow_fusion BM (Some m) now data hist _ _ _ _ _ Hg Hrule Hml)
    as (ev & Hev & _ & _ & _ & _ & _ & Hmt).
  by exists ev.
Qed.

End Handler.

Lemma confident_benign_short_circuit_witness :
  let o := predict_flow demo_argsort (Some demo_binary) (Some demo_multiclass)
             "2024-01-01T00:00:00" quiet_request [] in
  exists ev, response o = Ok ev /\ label ev = "BENIGN"
             /\ confidence ev = 0.9 /\ invoked o = [].
Proof.
  pose proof (confident_benign_short_circuit demo_argsort demo_binary
                (Some demo_multiclass) "2024-01-01T00:00:00" quiet_request [])
    as H.
  cbv zeta in H. destruct H as (ev & Hev & Hlab & _ & _ & Hconf & _ & _ & Hinv & _).
  - vm_compute. intros [H|H]; discriminate H.
  - vm_compute. discriminate.
  - exists ev. split; [exact Hev|]. split; [exact Hlab|].
    split; [|exact Hinv]. rewrite Hconf. reflexivity.
Defined.

Lemma fusion_precedence_witness :
  exists ev,
    response (predict_flow demo_argsort (Some demo_binary) (Some demo_multiclass)
                "2024-01-01T00:00:00" scan_request []) = Ok ev
    /\ attack_type ev = "PortScan" /\ confidence ev = 0.85
    /\ detection_method ev = "rules".
Proof.
  destruct (fusion_precedence demo_argsort (Some demo_binary)
              (Some demo_multiclass) "2024-01-01T00:00:00" scan_request []
              "PortScan" 0.85 "DDoS" 0.92
              [("DDoS", 0.92); ("BENIGN", 0.05); ("PortScan", 0.03)]%string)
    as (ev & Hev & Hrules & _).
  - left. reflexivity.
  - reflexivity.
  - reflexivity.
  - exists ev. split; [exact Hev|]. apply Hrules.
    split; [vm_compute; discriminate | discriminate].
Defined.

Lemma final_label_threshold_witness :
  let g := binary_gate (Some cautious_binary) (features scan_request) in
  is_attack g = false /\ attack_prob g = 0.22
  /\ exists ev,
       response (predict_flow demo_argsort (Some cautious_binary)
                   (Some demo_multiclass) "2024-01-01T00:00:00" scan_request [])
       = Ok ev
       /\ label ev = "ATTACK" /\ is_malicious ev = true
       /\ attack_type ev = "PortScan" /\ confidence ev = 0.85.
Proof.
  destruct (final_label_threshold demo_argsort cautious_binary
              (Some demo_multiclass) "2024-01-01T00:00:00" scan_request [])
    as (Hverdict & Hgate & _ & Hreturns).
  split; [|split; [reflexivity|]].
  - apply Hgate. split; vm_compute; discriminate.
  - destruct (Hreturns demo_multiclass ("PortScan"%string, 0.85) eq_refl eq_refl)
      as (ev & Hev).
    exists ev. split; [exact Hev|].
    destruct (Hverdict ev Hev) as (_ & Hiff & Hforced).
    split; [apply Hiff; by left|].
    destruct Hforced as (Hmal & rt & rc & mt & mc & top3 & Hrule & Hml & Hfus & _);
      [reflexivity|].
    split; [exact Hmal|].
    assert (Hrule' : rule_based_classification (features scan_request)
                     = Ok ("PortScan"%string, 0.85)) by reflexivity.
    rewrite Hrule' in Hrule. injection Hrule as <- <-.
    assert (E : fusion "PortScan" 0.85 mt mc = ("PortScan"%string, 0.85, "rules"%string))
      by reflexivity.
    rewrite E in Hfus. by injection Hfus.
Defined.

(** C9 fails on the code when the multiclass model is not loaded:
    [classify_attack_type_ml] answers a tuple of two items, the handler
    unpacks three, and the request of a flagged flow ends in the HTTP
    error 400 with no event recorded, instead of a verdict with the
    default ("Unknown", 0.5). *)
Theorem unavailable_multiclass_model_aborts_the_request :
  let o := predict_flow demo_argsort (Some demo_binary) None
             "2024-01-01T00:00:00" scan_request [] in
  classify_attack_type_ml demo_argsort None (features scan_request)
  = Tuple2 "Unknown" 0.5
  /\ response o = Raise (HTTPException 400 ValueError)
  /\ history o = [].
Proof. vm_compute. done. Qed.

End EngineProps.

(** ** The rule engine *)

Module RuleProps.

Import Engine PyFacts EngineProps RuleDefs.
Local Open Scope Q_scope.

Lemma Ok_inj {A} (x y : A) : Ok x = Ok y -> x = y.
Proof. by intros [= ->]. Qed.

Lemma first_match_in {A} (rules : list (bool * A)) (otherwise : A) :
  first_match rules otherwise ∈ map snd rules ++ [otherwise].
Proof.
  induction rules as [|[c r] rest IH]; simpl.
  - apply list_elem_of_here.
  - destruct c; [apply list_elem_of_here|]. by apply list_elem_of_further.
Qed.

(** What the engine answers is one of the pairs of its return statements. *)
Lemma rule_answer_listed feats t c :
  rule_based_classification feats = Ok (t, c) ->
  (t, c) ∈ [ ("DDoS", 0.90); ("DDoS", 0.85); ("DDoS", 0.80); ("DDoS", 0.85);
             ("DoS Hulk", 0.80); ("DoS slowloris", 0.75); ("DoS GoldenEye", 0.75);
             ("PortScan", 0.85); ("PortScan", 0.80); ("SSH-Patator", 0.85);
             ("FTP-Patator", 0.85); ("Telnet Brute Force", 0.80);
             ("RDP Brute Force", 0.80); ("Web Attack", 0.70); ("Bot", 0.65);
             ("Infiltration", 0.60); ("Heartbleed", 0.65); ("DDoS", 0.70);
             ("Brute Force", 0.65); ("Unknown Attack", 0.50) ]%string.
Proof.
  unfold rule_based_classification.
  destruct (pps_total (get feats "Flow Duration" 1)
              (fadd (get feats "Total Fwd Packets" 0)
                    (get feats "Total Backward Packets" 0))
              (get feats "Total Fwd Packets" 0)) as [pps ->].
  unfold mbind, pyres_bind. intros H%Ok_inj. rewrite <- H.
  match goal with |- first_match ?l ?o ∈ _ =>
    exact (first_match_in l o) end.
Qed.

(** Whenever the rule engine returns, its answer is one of the pairs of its
    return statements: a confidence between 0.50 and 0.90, never the type
    BENIGN; the confidence is 0.50 exactly for "Unknown Attack", and below
    0.70, where fusion lets the multiclass resolver overrule the rules,
    only for Bot, Infiltration, Heartbleed, Brute Force and Unknown
    Attack. *)
Theorem rule_answers_are_bounded (feats : gmap string pyfloat)
    (t : string) (c : Q) :
  rule_based_classification feats = Ok (t, c) ->
  0.50 <= c /\ c <= 0.90
  /\ t <> "BENIGN"
  /\ (t = "Unknown Attack" <-> c == 0.50)
  /\ (c < 0.70 -> t ∈ weak_rule_types).
Proof.
  intros Hr. apply rule_answer_listed in Hr.
  repeat (apply elem_of_cons in Hr as [[= -> ->] | Hr];
          [ unfold weak_rule_types;
            repeat split; try discriminate; try (intros H; discriminate H);
            try (intros H; exfalso; revert H; discriminate);
            try (intros _; rewrite !elem_of_cons; tauto); try done |]).
  by apply elem_of_nil in Hr.
Qed.

Lemma rule_answers_are_bounded_witness :
  rule_based_classification syn_flood_request = Ok ("DDoS"%string, 0.90)
  /\ 0.50 <= 0.90 /\ 0.90 <= 0.90
  /\ "DDoS"%string <> "BENIGN"%string.
Proof.
  split; [reflexivity|].
  destruct (rule_answers_are_bounded syn_flood_request "DDoS" 0.90 eq_refl)
    as (H1 & H2 & H3 & _).
  split; [exact H1|]. split; [exact H2|exact H3].
Defined.

(** *** Order facts on request values *)

Lemma fge_int x (n : Z) :
  fge x (of_int n) = true <-> x = PosInf \/ exists q, x = Fin q /\ inject_Z n <= q.
Proof.
  unfold fge, fle, of_int. destruct x as [q| | |]; simpl.
  - rewrite orb_true_iff, Qltb_lt, Qeq_bool_iff. split.
    + intros H. right. exists q. split; [done|]. destruct H as [H|H]; lra.
    + intros [H | (q' & [= <-] & H)]; [done|].
      apply Qle_lteq in H. tauto.
  - split; [by left|done].
  - split; [done|]. intros [H | (q & H & _)]; done.
  - split; [done|]. intros [H | (q & H & _)]; done.
Qed.

Lemma fge_int_mono x (m n : Z) :
  (n <= m)%Z -> fge x (of_int m) = true -> fge x (of_int n) = true.
Proof.
  intros Hnm. rewrite !fge_int. intros [-> | (q & -> & Hq)]; [by left|].
  right. exists q. split; [done|].
  apply Qle_trans with (inject_Z m); [|done].
  by rewrite <- Zle_Qle.
Qed.

(** The GoldenEye pattern is a special case of the Hulk pattern, which is
    tested first. *)
Lemma goldeneye_is_hulk dst_port psh_count fwd_packets :
  feq dst_port (of_int 80) && fge psh_count (of_int 5)
    && fge fwd_packets (of_int 10) = true ->
  feq dst_port (of_int 80) && fge psh_count (of_int 3)
    && fge fwd_packets (of_int 5) = true.
Proof.
  rewrite !andb_true_iff. intros [[H1 H2] H3]. repeat split; [done| |].
  - by apply (fge_int_mono _ 5 3).
  - by apply (fge_int_mono _ 10 5).
Qed.

(** The GoldenEye rule is dead: whatever the request, the engine never
    answers "DoS GoldenEye". *)
Theorem goldeneye_is_never_answered (feats : gmap string pyfloat) (c : Q) :
  rule_based_classification feats <> Ok ("DoS GoldenEye", c).
Proof.
  unfold rule_based_classification.
  destruct (pps_total (get feats "Flow Duration" 1)
              (fadd (get feats "Total Fwd Packets" 0)
                    (get feats "Total Backward Packets" 0))
              (get feats "Total Fwd Packets" 0)) as [pps ->].
  unfold mbind, pyres_bind. intros H%Ok_inj.
  cbn [first_match] in H.
  repeat match type of H with
  | (if ?b then _ else _) = _ => destruct b eqn:?; [try discriminate H|]
  end; [|discriminate H].
  match goal with
  | Hh : _ && _ && _ = false, Hg : _ && _ && _ = true |- _ =>
      apply goldeneye_is_hulk in Hg; congruence
  end.
Qed.

(** A SYN flood on a web port is answered first: with a destination port
    among 80, 443 and 8080, at least two SYNs and forward packets more than
    five times the backward ones (or none backward), the engine, when it
    returns, answers ("DDoS", 0.90): no other field changes the answer. *)
Theorem syn_flood_is_answered_first (feats : gmap string pyfloat)
    (r : string * Q) :
  fmem (get feats "Destination Port" 0) [80; 443; 8080]%Z = true ->
  fge (get feats "SYN Flag Count" 0) (of_int 2) = true ->
  feq (get feats "Total Backward Packets" 0) (of_int 0) = true
  \/ fgt (get feats "Total Fwd Packets" 0)
         (fmul (get feats "Total Backward Packets" 0) (of_int 5)) = true ->
  rule_based_classification feats = Ok r ->
  r = ("DDoS", 0.90).
Proof.
  intros Hport Hsyn Hasym. unfold rule_based_classification.
  destruct (if fgt _ _ then _ else _) as [pps|e]; [|discriminate].
  unfold mbind, pyres_bind. intros H%Ok_inj. rewrite <- H. cbn [first_match].
  rewrite Hport, Hsyn. apply orb_true_iff in Hasym. by rewrite Hasym.
Qed.

Lemma syn_flood_is_answered_first_witness :
  exists r, rule_based_classification syn_flood_request = Ok r
            /\ r = ("DDoS"%string, 0.90).
Proof.
  exists ("DDoS"%string, 0.90). split; [reflexivity|].
  apply (syn_flood_is_answered_first syn_flood_request);
    [reflexivity|reflexivity|left; reflexivity|reflexivity].
Defined.

Lemma get_insert_ne (feats : gmap string pyfloat) k v name d :
  name <> k -> get (<[k := v]> feats) name d = get feats name d.
Proof. intros Hne. unfold get. by rewrite lookup_insert_ne. Qed.

(** The answer depends on ten fields only: an entry under any other
    name, present or not, does not change it.  That holds for the three
    fields the engine reads and never uses as well. *)
Theorem rule_answer_depends_on_ten_fields
    (feats : gmap string pyfloat) (k : string) (v : pyfloat) :
  k ∉ rule_fields ->
  rule_based_classification (<[k := v]> feats) = rule_based_classification feats
  /\ rule_based_classification (delete k feats) = rule_based_classification feats.
Proof.
  intros Hk. unfold rule_fields in Hk.
  rewrite !not_elem_of_cons in Hk.
  destruct Hk as (? & ? & ? & ? & ? & ? & ? & ? & ? & ? & _).
  assert (Hdel : forall name d, name <> k -> get (delete k feats) name d = get feats name d).
  { intros name d Hne. unfold get. by rewrite lookup_delete_ne. }
  unfold rule_based_classification.
  split.
  - rewrite !get_insert_ne by congruence. reflexivity.
  - rewrite !Hdel by congruence. reflexivity.
Qed.

Lemma rule_answer_depends_on_ten_fields_witness :
  rule_based_classification (<["FIN Flag Count" := of_int 9]> syn_flood_request)
  = rule_based_classification syn_flood_request.
Proof.
  apply (rule_answer_depends_on_ten_fields syn_flood_request "FIN Flag Count" (of_int 9)).
  unfold rule_fields. rewrite !not_elem_of_cons.
  repeat split; try discriminate. apply not_elem_of_nil.
Defined.

End RuleProps.

(** ** Verdicts and failures of a request *)

Module ServiceProps.

Import Engine PyFacts Examples EngineProps RuleDefs RuleProps Service.
Local Open Scope Q_scope.

Section Requests.
Variable np_argsort : list Q -> list nat.

Lemma fusion_type rt rc mt mc t c m :
  fusion rt rc mt mc = (t, c, m) ->
  rt <> "BENIGN" ->
  t <> "BENIGN" /\ (m = "rules" \/ m = "ml-multiclass")
  /\ (t = rt /\ c = rc \/ t = mt /\ c = mc).
Proof.
  unfold fusion. intros H Hrt.
  destruct (_ && _) in H; [injection H as <- <- <-; tauto|].
  destruct (String.eqb_spec mt "BENIGN") as [Hmt|Hmt]; simpl in H.
  - injection H as <- <- <-; tauto.
  - destruct (Qgtb mc 0.30); injection H as <- <- <-; tauto.
Qed.

(** The three ways a request ends. *)
Lemma predict_flow_cases BM MM now data hist :
  let g := binary_gate BM (features data) in
  let o := predict_flow np_argsort BM MM now data hist in
  (is_attack g || Qgtb (attack_prob g) 0.20 = false
   /\ exists ev, response o = Ok ev /\ benign_verdict ev
        /\ confidence ev = binary_confidence g
        /\ invoked o = [] /\ history o = deque_append hist ev)
  \/ (is_attack g || Qgtb (attack_prob g) 0.20 = true /\ MM = None
      /\ response o = Raise (HTTPException 400 ValueError)
      /\ history o = hist)
  \/ (is_attack g || Qgtb (attack_prob g) 0.20 = true /\ is_Some MM
      /\ exists ev, response o = Ok ev /\ attack_verdict ev
           /\ invoked o = [RuleEngine; MulticlassResolver]
           /\ history o = deque_append hist ev).
Proof.
  intros g o.
  destruct (is_attack g || Qgtb (attack_prob g) 0.20) eqn:Hreach.
  - right. destruct MM as [m|].
    + right. split; [done|]. split; [done|].
      destruct (rule_based_classification_total (features data)) as (rt & rc & Hrule).
      destruct (classify_available np_argsort m (features data))
        as (mt & mc & top3 & Hml & _).
      destruct (predict_flow_fusion np_argsort BM (Some m) now data hist
                  _ _ _ _ _ Hreach Hrule Hml)
        as (ev & Hev & Hlab & Hmal & Hfus & Hinv & Hhist & _).
      exists ev. split; [exact Hev|]. split; [|done].
      apply rule_answer_listed in Hrule.
      assert (Hrt : rt <> "BENIGN").
      { intros ->.
        repeat (apply elem_of_cons in Hrule as [Hrule|Hrule]; [discriminate Hrule|]).
        by apply elem_of_nil in Hrule. }
      symmetry in Hfus. destruct (fusion_type _ _ _ _ _ _ _ Hfus Hrt) as (H1 & H2 & _).
      by repeat split.
    + left. split; [done|]. split; [done|].
      by apply predict_flow_unavailable.
  - left. split; [done|]. unfold o, predict_flow. fold g. rewrite Hreach.
    eexists. split; [reflexivity|]. by repeat split.
Qed.

(** A verdict has one of two shapes: ATTACK, malicious, with a type other
    than BENIGN and the method "rules" or "ml-multiclass"; or BENIGN, not
    malicious, of type BENIGN and method "ml".  It carries the time of the
    request, the addresses and the port the request gave ("unknown" and 0
    when it gave none), and it is the newest event of the buffer. *)
Theorem verdicts_are_of_two_shapes
    (BM : option BinaryModel) (MM : option MulticlassModel)
    (now : string) (data : FlowData) (hist : list Event) (ev : Event) :
  response (predict_flow np_argsort BM MM now data hist) = Ok ev ->
  (attack_verdict ev \/ benign_verdict ev)
  /\ timestamp ev = now /\ model ev = "Hybrid-v3"
  /\ dst_port ev = get (features data) "Destination Port" 0
  /\ src_ip ev = default "unknown" (features_src_ip data)
  /\ dst_ip ev = default "unknown" (features_dst_ip data)
  /\ last (history (predict_flow np_argsort BM MM now data hist)) = Some ev.
Proof.
  intros Hev.
  assert (Hfields : timestamp ev = now /\ model ev = "Hybrid-v3"
    /\ dst_port ev = get (features data) "Destination Port" 0
    /\ src_ip ev = default "unknown" (features_src_ip data)
    /\ dst_ip ev = default "unknown" (features_dst_ip data)).
  { revert Hev. unfold predict_flow.
    destruct (_ || _).
    - destruct (classify_type _ _) as [calls [r|e]]; [|done].
      by intros [= <-].
    - by intros [= <-]. }
  assert (Hlast : forall d : list Event, last (deque_append d ev) = Some ev).
  { intros d. unfold deque_append. destruct (_ <? _)%nat; apply last_snoc. }
  destruct (predict_flow_cases BM MM now data hist)
    as [(_ & ev' & Hev' & Hb & _ & _ & Hh) | [(_ & _ & Herr & _)
        | (_ & _ & ev' & Hev' & Ha & _ & Hh)]].
  - rewrite Hev in Hev'. injection Hev' as <-. rewrite Hh. split; [tauto|].
    repeat split; try tauto. apply Hlast.
  - rewrite Hev in Herr. discriminate Herr.
  - rewrite Hev in Hev'. injection Hev' as <-. rewrite Hh. split; [tauto|].
    repeat split; try tauto. apply Hlast.
Qed.


(** Without a binary model nothing is ever detected: every request is
    answered BENIGN with confidence 0.5 and attack probability 0.0, and
    neither the rule engine nor the multiclass resolver is called. *)
Theorem no_binary_model_no_detection
    (MM : option MulticlassModel) (now : string) (data : FlowData)
    (hist : list Event) :
  let o := predict_flow np_argsort None MM now data hist in
  exists ev, response o = Ok ev
    /\ benign_verdict ev /\ confidence ev = 0.5 /\ ml_attack_prob ev = 0.0
    /\ invoked o = [].
Proof.
  intros o. unfold o, predict_flow. simpl.
  eexists. split; [reflexivity|]. by repeat split.
Qed.

End Requests.

Lemma verdicts_are_of_two_shapes_witness :
  exists ev,
    response (predict_flow demo_argsort (Some demo_binary) (Some demo_multiclass)
                "2024-01-01T00:00:00" scan_request []) = Ok ev
    /\ (attack_verdict ev \/ benign_verdict ev)
    /\ src_ip ev = host_a.
Proof.
  destruct (response (predict_flow demo_argsort (Some demo_binary)
                        (Some demo_multiclass) "2024-01-01T00:00:00"
                        scan_request [])) as [ev|e] eqn:Hev.
  - exists ev. split; [reflexivity|].
    destruct (verdicts_are_of_two_shapes demo_argsort _ _ _ _ _ ev Hev)
      as (H1 & _ & _ & _ & H2 & _).
    by split.
  - exfalso. vm_compute in Hev. discriminate Hev.
Defined.


End ServiceProps.

(** ** The event buffer and its statistics *)

Module StatsProps.

Import Engine PyFacts EngineProps RuleDefs RuleProps Service ServiceProps.
Local Open Scope Q_scope.

Lemma deque_append_length {A} (d : list A) (x : A) :
  (length d <= maxlen)%nat ->
  (length (deque_append d x) <= maxlen)%nat
  /\ length (deque_append d x) = Nat.min (S (length d)) maxlen.
Proof.
  unfold deque_append, maxlen. intros Hd.
  destruct (length d <? 100)%nat eqn:E.
  - apply Nat.ltb_lt in E. rewrite length_app. simpl. lia.
  - apply Nat.ltb_ge in E. rewrite length_app, length_drop. simpl. lia.
Qed.

Lemma deque_append_elem {A} (d : list A) (x y : A) :
  y ∈ deque_append d x -> y = x \/ y ∈ d.
Proof.
  unfold deque_append. destruct (_ <? _)%nat; rewrite elem_of_app.
  - intros [H|H]; [by right|]. left. by apply list_elem_of_singleton in H.
  - intros [H|H]; [|left; by apply list_elem_of_singleton in H].
    right. by apply (subseteq_drop 1 d).
Qed.

Section Buffer.
Variable np_argsort : list Q -> list nat.
Variable BM : option BinaryModel.
Variable MM : option MulticlassModel.

Lemma serve_keeps (hist : list Event) (r : Request) :
  (length hist <= maxlen)%nat ->
  Forall (fun ev => attack_verdict ev \/ benign_verdict ev) hist ->
  (length (serve np_argsort BM MM hist r) <= maxlen)%nat
  /\ Forall (fun ev => attack_verdict ev \/ benign_verdict ev)
            (serve np_argsort BM MM hist r).
Proof.
  intros Hlen Hwf. destruct r as [now data|]; simpl;
    [|split; [unfold maxlen; simpl; lia | constructor]].
  assert (Happ : forall ev, attack_verdict ev \/ benign_verdict ev ->
            (length (deque_append hist ev) <= maxlen)%nat
            /\ Forall (fun ev => attack_verdict ev \/ benign_verdict ev)
                      (deque_append hist ev)).
  { intros ev Hev. split; [by apply deque_append_length|].
    apply Forall_forall. intros y Hy.
    apply deque_append_elem in Hy as [-> | Hy]; [done|].
    rewrite Forall_forall in Hwf. by apply Hwf. }
  destruct (predict_flow_cases np_argsort BM MM now data hist)
    as [(_ & ev & _ & Hb & _ & _ & ->) | [(_ & _ & _ & ->)
        | (_ & _ & ev & _ & Ha & _ & ->)]].
  - apply Happ. by right.
  - by split.
  - apply Happ. by left.
Qed.

(** Whatever requests are served, predictions and clears in any order, the
    event buffer never holds more than 100 events, and every event in it
    has one of the two shapes of a verdict. *)
Theorem buffer_stays_bounded_and_well_formed (requests : list Request) :
  let h := fold_left (serve np_argsort BM MM) requests [] in
  (length h <= maxlen)%nat
  /\ Forall (fun ev => attack_verdict ev \/ benign_verdict ev) h.
Proof.
  intros h. unfold h.
  assert (H : forall hist,
    (length hist <= maxlen)%nat ->
    Forall (fun ev => attack_verdict ev \/ benign_verdict ev) hist ->
    (length (fold_left (serve np_argsort BM MM) requests hist) <= maxlen)%nat
    /\ Forall (fun ev => attack_verdict ev \/ benign_verdict ev)
              (fold_left (serve np_argsort BM MM) requests hist)).
  { induction requests as [|r rest IH]; intros hist Hlen Hwf; [by split|].
    simpl. destruct (serve_keeps hist r Hlen Hwf). by apply IH. }
  apply H; [unfold maxlen; simpl; lia | constructor].
Qed.

End Buffer.

(** *** The histograms *)

Lemma bump_lookup k d t :
  bump k d !! t
  = if decide (k = t) then Some (default 0 (d !! t) + 1)%Z else d !! t.
Proof.
  unfold bump. case_decide as Hk.
  - subst. by rewrite lookup_insert_eq.
  - by rewrite lookup_insert_ne.
Qed.

Lemma count_cons P e es :
  count P (e :: es) = if P e then S (count P es) else count P es.
Proof.
  unfold count. rewrite filter_cons. destruct (P e) eqn:E.
  - rewrite decide_True by done. done.
  - rewrite decide_False by done. done.
Qed.

Lemma more_step o n :
  more (Some (default 0 o + 1)%Z) n = more o (S n).
Proof.
  unfold more. simpl. destruct (n =? 0)%nat eqn:E.
  - apply Nat.eqb_eq in E. subst. done.
  - simpl. f_equal. lia.
Qed.

Lemma tally_fold events : forall d t m,
  (fold_left tally events d).1 !! t
  = more (d.1 !! t)
         (count (fun e => is_malicious e && String.eqb (attack_type e) t) events)
  /\ (fold_left tally events d).2 !! m
     = more (d.2 !! m)
            (count (fun e => String.eqb (detection_method e) m) events).
Proof.
  induction events as [|e es IH]; intros d t m; [done|].
  simpl fold_left. destruct (IH (tally d e) t m) as [-> ->].
  rewrite !count_cons. unfold tally. simpl. split.
  - destruct (is_malicious e); simpl; [|done].
    rewrite bump_lookup. destruct (String.eqb_spec (attack_type e) t) as [Heq|Hne].
    + rewrite decide_True by done. apply more_step.
    + by rewrite decide_False.
  - rewrite bump_lookup.
    destruct (String.eqb_spec (detection_method e) m) as [Heq|Hne].
    + rewrite decide_True by done. apply more_step.
    + by rewrite decide_False.
Qed.

Lemma count_le P (events : list Event) : (count P events <= length events)%nat.
Proof. unfold count. apply length_filter. Qed.

Lemma len_pos {A} (x : A) (l : list A) : (0 < len (x :: l))%Z.
Proof. unfold len. simpl. lia. Qed.

Lemma get_stats_nonempty e es :
  let events := e :: es in
  let attacks := filter (fun e => is_malicious e = true) events in
  get_stats events = Ok
    {| total := len events;
       attacks := len attacks;
       benign := (len events - len attacks)%Z;
       breakdown := Some
         {| attack_percentage :=
              inject_Z (len attacks) / inject_Z (len events) * 100;
            attack_types := (fold_left tally events (∅, ∅)).1;
            detection_methods := (fold_left tally events (∅, ∅)).2 |} |}.
Proof.
  intros events attacks. unfold events, get_stats. cbv beta iota zeta.
  rewrite py_div_nonzero; [reflexivity|].
  intros H. pose proof (len_pos e es). unfold Qeq in H. simpl in H. lia.
Qed.

(** The statistics never fail and add up: the total is the number of
    buffered events, the attacks are the malicious ones, and attacks and
    benign make the total.  An empty buffer gives the three zero counts
    and nothing else; otherwise the percentage is attacks * 100 / total,
    between 0 and 100, and the two histograms count the malicious events
    by attack type and all events by detection method, with no entry for
    a name that did not occur. *)
Theorem stats_add_up (EVENT_HISTORY : list Event) :
  exists st,
    get_stats EVENT_HISTORY = Ok st
    /\ total st = len EVENT_HISTORY
    /\ attacks st = Z.of_nat (count is_malicious EVENT_HISTORY)
    /\ total st = (attacks st + benign st)%Z
    /\ (0 <= benign st)%Z
    /\ match breakdown st with
       | None => EVENT_HISTORY = []
       | Some b =>
           EVENT_HISTORY <> []
           /\ attack_percentage b
              == inject_Z (attacks st) * 100 / inject_Z (total st)
           /\ 0 <= attack_percentage b /\ attack_percentage b <= 100
           /\ (forall t, attack_types b !! t
                 = entry (count (fun e => is_malicious e
                                          && String.eqb (attack_type e) t)
                                EVENT_HISTORY))
           /\ (forall m, detection_methods b !! m
                 = entry (count (fun e => String.eqb (detection_method e) m)
                                EVENT_HISTORY))
       end.
Proof.
  destruct EVENT_HISTORY as [|e es].
  { eexists. split; [reflexivity|]. simpl. unfold len; simpl. done. }
  set (events := e :: es).
  eexists. split; [apply get_stats_nonempty|]. fold events.
  cbn [total attacks benign breakdown attack_percentage attack_types
       detection_methods].
  pose proof (count_le is_malicious events) as Hle.
  pose proof (len_pos e es) as Hpos. fold events in Hpos.
  unfold len in *.
  change (length (filter (fun e0 => is_malicious e0 = true) events))
    with (count is_malicious events).
  set (n := count is_malicious events) in *.
  assert (Hq : 0 < inject_Z (Z.of_nat (length events))).
  { rewrite (Zlt_Qlt 0) in Hpos. exact Hpos. }
  assert (Ha : 0 <= inject_Z (Z.of_nat n)).
  { rewrite <- (Zle_Qle 0). lia. }
  assert (Hb : inject_Z (Z.of_nat n) <= inject_Z (Z.of_nat (length events))).
  { rewrite <- Zle_Qle. lia. }
  split; [done|]. split; [done|]. split; [lia|]. split; [lia|].
  split; [done|].
  split; [field; lra|].
  split.
  { apply Qmult_le_0_compat; [|discriminate].
    apply Qle_shift_div_l; [done|]. lra. }
  split.
  { assert (inject_Z (Z.of_nat n) / inject_Z (Z.of_nat (length events)) <= 1).
    { apply Qle_shift_div_r; [done|]. lra. }
    lra. }
  split.
  - intros t. destruct (tally_fold events (∅, ∅) t "") as [-> _].
    simpl. rewrite lookup_empty. unfold more, entry.
    destruct (_ =? 0)%nat; [done|]. simpl. f_equal.
  - intros m. destruct (tally_fold events (∅, ∅) "" m) as [_ ->].
    simpl. rewrite lookup_empty. unfold more, entry.
    destruct (_ =? 0)%nat; [done|]. simpl. f_equal.
Qed.

End StatsProps.

(** ** The multiclass resolver *)

Module ResolverProps.

Import Engine PyFacts EngineProps RuleDefs RuleProps Service ServiceProps Examples ResolverDefs.
Local Open Scope Q_scope.

(** [argmax_from] answers the position of the first largest entry among
    the current best and the rest. *)
Lemma argmax_from_spec l : forall best_i best i,
  (best_i < i)%nat ->
  let r := argmax_from best_i best i l in
  exists v,
    (r = best_i /\ v = best \/ (i <= r)%nat /\ l !! (r - i)%nat = Some v /\ best < v)
    /\ best <= v
    /\ Forall (fun x => x <= v) l
    /\ (forall j x, (i + j < r)%nat -> l !! j = Some x -> x < v).
Proof.
  induction l as [|x rest IH]; intros best_i best i Hlt; simpl.
  - exists best. split; [by left|]. split; [lra|]. split; [constructor|].
    intros j y Hj. lia.
  - destruct (Qgtb x best) eqn:E; to_prop.
    + destruct (IH i x (S i)) as (v & Hv & Hbv & Hall & Hfirst); [lia|].
      exists v. split.
      { right. destruct Hv as [[-> ->] | (Hle & Hlook & Hlt')].
        - split; [lia|]. rewrite Nat.sub_diag. simpl. split; [done|lra].
        - split; [lia|]. replace (argmax_from i x (S i) rest - i)%nat
            with (S (argmax_from i x (S i) rest - S i)) by lia.
          simpl. split; [done|lra]. }
      split; [lra|]. split; [by constructor|].
      intros j y Hj Hy. destruct j as [|j]; simpl in Hy.
      * injection Hy as <-.
        destruct Hv as [[Hr ->] | (Hle & Hlook & Hlt')]; [lia|lra].
      * apply (Hfirst j y); [lia|done].
    + destruct (IH best_i best (S i)) as (v & Hv & Hbv & Hall & Hfirst); [lia|].
      exists v. split.
      { destruct Hv as [[Hr ->] | (Hle & Hlook & Hlt')].
        - left. done.
        - right. split; [lia|].
          replace (argmax_from best_i best (S i) rest - i)%nat
            with (S (argmax_from best_i best (S i) rest - S i)) by lia.
          simpl. done. }
      split; [done|]. split; [constructor; [lra|done]|].
      intros j y Hj Hy. destruct j as [|j]; simpl in Hy.
      * injection Hy as <-.
        destruct Hv as [[Hr ->] | (Hle & Hlook & Hlt')]; [lia|lra].
      * apply (Hfirst j y); [lia|done].
Qed.

Lemma np_argmax_spec probs i :
  np_argmax probs = Ok i ->
  exists c, probs !! i = Some c
    /\ Forall (fun p => p <= c) probs
    /\ (forall j p, (j < i)%nat -> probs !! j = Some p -> p < c).
Proof.
  destruct probs as [|x rest]; [done|]. simpl. intros [= <-].
  destruct (argmax_from_spec rest 0%nat x 1%nat) as (v & Hv & Hbv & Hall & Hfirst); [lia|].
  exists v. split; [|split].
  - destruct Hv as [[-> ->] | (Hle & Hlook & _)]; [done|].
    destruct (argmax_from 0 x 1 rest) as [|r]; [lia|].
    simpl. by replace (S r - 1)%nat with r in Hlook by lia.
  - by constructor.
  - intros j p Hj Hp. destruct j as [|j]; simpl in Hp.
    + injection Hp as <-. destruct Hv as [[Hr ->] | (_ & _ & Hlt)]; [lia|done].
    + apply (Hfirst j p); [lia|done].
Qed.

Lemma index_Ok {A} (l : list A) i x : index l i = Ok x <-> l !! i = Some x.
Proof.
  unfold index. destruct (l !! i); split; congruence.
Qed.

Lemma for_each_length {A B} (f : A -> pyres B) l : forall r,
  for_each f l = Ok r -> length r = length l.
Proof.
  induction l as [|x rest IH]; simpl; intros r.
  - by intros [= <-].
  - destruct (f x) as [y|e]; [|done]. simpl.
    destruct (for_each f rest) as [ys|e]; [|done]. simpl.
    intros [= <-]. simpl. f_equal. by apply IH.
Qed.

Section Loaded.
Variable np_argsort : list Q -> list nat.

(** With a loaded model the resolver always answers a tuple of three.
    When its [try] raises, the answer is ("Unknown", 0.5, []); otherwise
    the type is the class at the first position of the largest
    probability and the confidence is that probability, and the list of
    top classes has at most three entries. *)
Theorem resolver_answers_the_first_largest_probability
    (m : MulticlassModel) (feats : gmap string pyfloat) :
  exists t c top3,
    classify_attack_type_ml np_argsort (Some m) feats = Tuple3 t c top3
    /\ (length top3 <= 3)%nat
    /\ ((exists e, classify_try np_argsort m feats = Raise e)
        /\ t = "Unknown" /\ c = 0.5 /\ top3 = []
        \/ exists probs i,
             multiclass_probs m feats = Ok probs
             /\ MULTICLASS_classes m !! i = Some t
             /\ probs !! i = Some c
             /\ Forall (fun p => p <= c) probs
             /\ (forall j p, (j < i)%nat -> probs !! j = Some p -> p < c)).
Proof.
  unfold classify_attack_type_ml.
  destruct (classify_try np_argsort m feats) as [[[t c] top3]|e] eqn:Htry.
  - exists t, c, top3. split; [done|].
    revert Htry. unfold classify_try, multiclass_probs.
    destruct (MULTICLASS_PREPROCESSOR_transform m _) as [processed|?]; [|done].
    simpl.
    destruct (for_each (index processed) _) as [selected|?]; [|done]. simpl.
    destruct (MULTICLASS_MODEL_predict_proba m selected) as [probs|?]; [|done].
    simpl.
    destruct (np_argmax probs) as [i|?] eqn:Hi; [|done]. simpl.
    destruct (index (MULTICLASS_classes m) i) as [t'|?] eqn:Ht; [|done]. simpl.
    destruct (index probs i) as [c'|?] eqn:Hc; [|done]. simpl.
    destruct (for_each _ _) as [top|?] eqn:Htop; [|done]. simpl.
    apply index_Ok in Ht, Hc.
    intros [= <- <- <-].
    apply for_each_length in Htop.
    split.
    { rewrite Htop, length_rev, length_drop. lia. }
    right. exists probs, i. split; [done|]. split; [done|]. split; [done|].
    destruct (np_argmax_spec probs i Hi) as (c0 & Hc0 & Hall & Hfirst).
    rewrite Hc in Hc0. injection Hc0 as <-. done.
  - exists "Unknown"%string, 0.5, []. split; [done|]. split; [simpl; lia|].
    left. split; [by exists e|done].
Qed.

(** A failed resolver still wins over a weak rule: when the [try] raises
    and the rule engine's answer is below 0.70 or "Unknown Attack", the
    verdict is ("Unknown", 0.5) with method "ml-multiclass". *)
Theorem failed_resolver_overrides_weak_rules
    (BM : option BinaryModel) (m : MulticlassModel)
    (now : string) (data : FlowData) (hist : list Event)
    (rule_type : string) (rule_conf : Q) (e : exn) :
  let g := binary_gate BM (features data) in
  is_attack g = true \/ 0.20 < attack_prob g ->
  classify_try np_argsort m (features data) = Raise e ->
  rule_based_classification (features data) = Ok (rule_type, rule_conf) ->
  rule_conf < 0.70 \/ rule_type = "Unknown Attack" ->
  exists ev,
    response (predict_flow np_argsort BM (Some m) now data hist) = Ok ev
    /\ attack_type ev = "Unknown" /\ confidence ev = 0.5
    /\ detection_method ev = "ml-multiclass"
    /\ label ev = "ATTACK".
Proof.
  intros g Hg Htry Hrule Hweak.
  assert (Hml : classify_attack_type_ml np_argsort (Some m) (features data)
                = Tuple3 "Unknown" 0.5 []).
  { unfold classify_attack_type_ml. by rewrite Htry. }
  apply reached_iff in Hg.
  destruct (predict_flow_fusion np_argsort BM (Some m) now data hist
              _ _ _ _ _ Hg Hrule Hml)
    as (ev & Hev & Hlab & _ & Hfus & _).
  exists ev. split; [exact Hev|].
  destruct (fusion_cases rule_type rule_conf "Unknown" 0.5) as (_ & F2 & _).
  rewrite F2 in Hfus.
  - injection Hfus as -> -> ->. done.
  - intros [H1 H2]. destruct Hweak; [lra|done].
  - split; [discriminate|reflexivity].
Qed.

End Loaded.

Lemma failed_resolver_overrides_weak_rules_witness :
  exists ev,
    response (predict_flow demo_argsort (Some demo_binary) (Some broken_multiclass)
                "2024-01-01T00:00:00" odd_request []) = Ok ev
    /\ attack_type ev = "Unknown" /\ confidence ev = 0.5
    /\ detection_method ev = "ml-multiclass".
Proof.
  destruct (failed_resolver_overrides_weak_rules demo_argsort (Some demo_binary)
              broken_multiclass "2024-01-01T00:00:00" odd_request []
              "Unknown Attack" 0.50 ValueError)
    as (ev & Hev & H1 & H2 & H3 & _).
  - left. reflexivity.
  - reflexivity.
  - reflexivity.
  - right. reflexivity.
  - by exists ev.
Defined.

End ResolverProps.

(** ** The books of a flow *)

Module AccountingProps.

Import Extractor PyFacts Accounting.

Lemma feed_snoc f arrivals a :
  feed f (arrivals ++ [a])
  = add_packet (feed f arrivals) a.1.1 a.1.2 (time a.1.1) a.2.
Proof. unfold feed. by rewrite fold_left_app. Qed.

Lemma omap_snoc {A B} (g : A -> option B) l a :
  omap g (l ++ [a]) = omap g l ++ match g a with Some b => [b] | None => [] end.
Proof.
  rewrite omap_app. simpl. by destruct (g a).
Qed.

Lemma omap_cons' {A B} (g : A -> option B) a l :
  omap g (a :: l) = match g a with Some b => b :: omap g l | None => omap g l end.
Proof. reflexivity. Qed.

Lemma zsum_snoc l n : zsum (l ++ [n]) = (zsum l + n)%Z.
Proof. unfold zsum. induction l as [|x l IH]; simpl; lia. Qed.

Lemma flagged_snoc c l p :
  flagged c (l ++ [p]) = count_if (has_flag p c) (flagged c l).
Proof.
  unfold flagged, count_if. rewrite filter_app, length_app.
  rewrite filter_cons, filter_nil.
  destruct (decide (has_flag p c = true)) as [H|H].
  - rewrite H. simpl. lia.
  - apply not_true_is_false in H. rewrite H. simpl. lia.
Qed.

Lemma gaps_snoc l t :
  gaps (l ++ [t])
  = gaps l ++ match last l with
              | Some t' => [((t - t') * 1_000_000)%Q]
              | None => []
              end.
Proof.
  induction l as [|t1 rest IH]; [done|].
  destruct rest as [|t2 rest]; [done|].
  change (gaps ((t1 :: t2 :: rest) ++ [t]))
    with (((t2 - t1) * 1_000_000)%Q :: gaps ((t2 :: rest) ++ [t])).
  rewrite IH.
  change (gaps (t1 :: t2 :: rest))
    with (((t2 - t1) * 1_000_000)%Q :: gaps (t2 :: rest)).
  by rewrite last_cons_cons.
Qed.

(** The flow key tells two conversations apart exactly when their endpoint
    pairs differ as unordered pairs. *)
Theorem flow_keys_collide_only_on_the_same_endpoints
    (a b c d : string) (pa pb pc pd : Z) :
  get_flow_key a pa b pb = get_flow_key c pc d pd
  <-> ((a, pa) = (c, pc) /\ (b, pb) = (d, pd))
      \/ ((a, pa) = (d, pd) /\ (b, pb) = (c, pc)).
Proof.
  split.
  - rewrite !FlowKeyProps.get_flow_key_unfold.
    destruct (endpoint_lt (b, pb) (a, pa)), (endpoint_lt (d, pd) (c, pc));
      intros [= -> -> -> ->]; auto.
  - intros [[[= -> ->] [= -> ->]] | [[= -> ->] [= -> ->]]]; [done|].
    apply FlowKeyProps.get_flow_key_sym.
Qed.


Lemma last_reading_snoc t1 arrivals a :
  last_reading t1 (arrivals ++ [a]) = a.2.
Proof. unfold last_reading. rewrite map_app. simpl. by rewrite last_snoc. Qed.

Lemma books_new a b pa pb proto t0 t1 :
  books a b pa pb proto t0 t1 [] (CICFlow_init a b pa pb proto t0 t1).
Proof. by constructor. Qed.

Lemma books_add a b pa pb proto t0 t1 arrivals f p d now :
  books a b pa pb proto t0 t1 arrivals f ->
  books a b pa pb proto t0 t1 (arrivals ++ [(p, d, now)])
        (add_packet f p d (time p) now).
Proof.
  intros [].
  constructor; unfold add_packet, packets, fwd_of, bwd_of, header_lengths;
    cbn [src_ip dst_ip src_port dst_port protocol start_time last_seen
         all_pkt_lengths fwd_pkt_lengths bwd_pkt_lengths fwd_packets bwd_packets
         fwd_bytes bwd_bytes fin_count syn_count rst_count psh_count ack_count
         urg_count cwe_count ece_count fwd_psh_count fwd_urg_count
         fwd_header_len bwd_header_len];
    rewrite ?last_reading_snoc, ?map_app, ?omap_snoc, ?flagged_snoc;
    cbn [fst snd map];
    try done; try congruence.
  all: destruct d; cbn [is_fwd negb count_if];
    rewrite ?map_app, ?length_app, ?zsum_snoc, ?flagged_snoc, ?omap_snoc,
            ?app_nil_r, ?andb_true_r, ?andb_false_r;
    cbn [map length count_if];
    fold (packets arrivals) (fwd_of arrivals) (bwd_of arrivals);
    try congruence; try lia.
  all: unfold header_lengths in *;
    try (destruct (tcp_layer p); cbn [fmap option_fmap option_map]);
    rewrite ?zsum_snoc, ?app_nil_r; congruence.
Qed.

Lemma books_feed a b pa pb proto t0 t1 arrivals :
  books a b pa pb proto t0 t1 arrivals
        (feed (CICFlow_init a b pa pb proto t0 t1) arrivals).
Proof.
  induction arrivals as [|[[p d] now] arrivals IH] using rev_ind.
  - apply books_new.
  - rewrite feed_snoc. by apply books_add.
Qed.

Lemma zsum_app l1 l2 : zsum (l1 ++ l2) = (zsum l1 + zsum l2)%Z.
Proof. unfold zsum. induction l1 as [|x l IH]; simpl; lia. Qed.

Lemma zsum_directions arrivals :
  zsum (map len (packets arrivals))
  = (zsum (map len (fwd_of arrivals)) + zsum (map len (bwd_of arrivals)))%Z.
Proof.
  induction arrivals as [|[[p d] now] arrivals IH]; [done|].
  unfold packets, fwd_of, bwd_of, zsum in *. rewrite !omap_cons'.
  destruct d; cbn [is_fwd fst snd map foldr]; lia.
Qed.

Lemma length_directions arrivals :
  (length (fwd_of arrivals) + length (bwd_of arrivals))%nat = length arrivals.
Proof.
  induction arrivals as [|[[p d] now] arrivals IH]; [done|].
  unfold fwd_of, bwd_of in *. rewrite !omap_cons'.
  destruct d; cbn [is_fwd fst snd length]; lia.
Qed.

Lemma flagged_bounds c l : (0 <= flagged c l <= Z.of_nat (length l))%Z.
Proof.
  unfold flagged. pose proof (length_filter (fun p => has_flag p c = true) l). lia.
Qed.

Lemma flagged_fwd c arrivals :
  (flagged c (fwd_of arrivals) <= flagged c (packets arrivals))%Z.
Proof.
  unfold flagged.
  induction arrivals as [|[[p d] now] arrivals IH]; [done|].
  unfold packets, fwd_of in *. rewrite omap_cons'.
  destruct d; cbn [is_fwd fst snd map].
  - rewrite !filter_cons. destruct (decide (has_flag p c = true)); simpl; lia.
  - rewrite !filter_cons. destruct (decide (has_flag p c = true)); simpl; lia.
Qed.

Lemma flagged_no_tcp c l :
  Forall (fun p => tcp_layer p = None) l -> flagged c l = 0%Z.
Proof.
  unfold flagged. induction 1 as [|p l Hp _ IH]; [done|].
  rewrite filter_cons.
  destruct (decide (has_flag p c = true)) as [H|_]; [|exact IH].
  unfold has_flag in H. rewrite Hp in H. discriminate H.
Qed.

(** The packet and byte counters of a flow are those of the packets it was
    fed: the two packet counters are the lengths of the two length lists and
    add up to the number of packets, the two byte counters are the sums of
    the two lists and add up to the bytes of all packets; the identity and
    the creation time stay as the flow was made, and the flow was last seen
    at the clock reading of its last packet. *)
Theorem counters_are_those_of_the_packets_fed
    (a b : string) (pa pb : Z) (proto : string) (t0 t1 : Q)
    (arrivals : list (Packet * Direction * Q)) :
  let f := feed (CICFlow_init a b pa pb proto t0 t1) arrivals in
  total_packets f = Z.of_nat (length arrivals)
  /\ fwd_packets f = Z.of_nat (length (fwd_pkt_lengths f))
  /\ bwd_packets f = Z.of_nat (length (bwd_pkt_lengths f))
  /\ all_pkt_lengths f = map len (packets arrivals)
  /\ fwd_pkt_lengths f = map len (fwd_of arrivals)
  /\ bwd_pkt_lengths f = map len (bwd_of arrivals)
  /\ fwd_bytes f = zsum (fwd_pkt_lengths f)
  /\ bwd_bytes f = zsum (bwd_pkt_lengths f)
  /\ (fwd_bytes f + bwd_bytes f)%Z = zsum (all_pkt_lengths f)
  /\ (src_ip f, src_port f, dst_ip f, dst_port f, protocol f) = (a, pa, b, pb, proto)
  /\ start_time f = t0
  /\ last_seen f = last_reading t1 arrivals.
Proof.
  intros f. pose proof (books_feed a b pa pb proto t0 t1 arrivals) as B.
  fold f in B. destruct B.
  repeat split; try congruence.
  - unfold total_packets. pose proof (length_directions arrivals). lia.
  - rewrite b_fwd_packets0, b_fwd0. by rewrite length_map.
  - rewrite b_bwd_packets0, b_bwd0. by rewrite length_map.
  - rewrite b_all0, zsum_directions. congruence.
Qed.

(** The flag counters of a flow count the packets that carry the flag: none
    exceeds the number of packets, the forward PSH and URG counters do not
    exceed the PSH and URG counters, and a flow without a TCP packet has
    them all at zero. *)
Theorem flag_counters_count_flagged_packets
    (a b : string) (pa pb : Z) (proto : string) (t0 t1 : Q)
    (arrivals : list (Packet * Direction * Q)) :
  let f := feed (CICFlow_init a b pa pb proto t0 t1) arrivals in
  let counters := [fin_count f; syn_count f; rst_count f; psh_count f;
                   ack_count f; urg_count f; cwe_count f; ece_count f] in
  counters = map (fun c => flagged c (packets arrivals))
                 ["F"; "S"; "R"; "P"; "A"; "U"; "C"; "E"]%char
  /\ fwd_psh_count f = flagged "P" (fwd_of arrivals)
  /\ fwd_urg_count f = flagged "U" (fwd_of arrivals)
  /\ Forall (fun n => (0 <= n <= total_packets f)%Z) counters
  /\ (0 <= fwd_psh_count f <= psh_count f)%Z
  /\ (0 <= fwd_urg_count f <= urg_count f)%Z
  /\ (Forall (fun p => tcp_layer p = None) (packets arrivals) ->
      Forall (fun n => n = 0%Z) counters).
Proof.
  intros f counters.
  pose proof (books_feed a b pa pb proto t0 t1 arrivals) as B.
  fold f in B. destruct B.
  assert (Htot : total_packets f = Z.of_nat (length (packets arrivals))).
  { unfold total_packets, packets. rewrite length_map.
    pose proof (length_directions arrivals). lia. }
  assert (Hc : counters = map (fun c => flagged c (packets arrivals))
                              ["F"; "S"; "R"; "P"; "A"; "U"; "C"; "E"]%char).
  { unfold counters. simpl. congruence. }
  split; [exact Hc|]. split; [done|]. split; [done|].
  split; [|split; [|split]].
  - rewrite Hc, Htot. rewrite Forall_map. apply Forall_forall. intros c _.
    apply flagged_bounds.
  - rewrite b_fwd_psh0, b_psh0.
    pose proof (flagged_bounds "P" (fwd_of arrivals)).
    pose proof (flagged_fwd "P" arrivals). lia.
  - rewrite b_fwd_urg0, b_urg0.
    pose proof (flagged_bounds "U" (fwd_of arrivals)).
    pose proof (flagged_fwd "U" arrivals). lia.
  - intros Hudp. rewrite Hc, Forall_map. apply Forall_forall. intros c _.
    by apply flagged_no_tcp.
Qed.

(** *** Inter-arrival times *)

Lemma py_sum_gaps times : (py_sum (gaps times) == span times)%Q.
Proof.
  induction times as [|t times IH] using rev_ind; [reflexivity|].
  rewrite gaps_snoc. destruct times as [|t' times].
  - simpl. unfold py_sum. simpl. ring.
  - destruct (last (t' :: times)) as [tl|] eqn:Hl.
    + rewrite py_sum_snoc, IH. unfold span. rewrite Hl.
      assert (Hlast : last ((t' :: times) ++ [t]) = Some t) by apply last_snoc.
      simpl app in *. rewrite Hlast. simpl. ring.
    + apply last_None in Hl. discriminate Hl.
Qed.

Lemma length_gaps times : length (gaps times) = (length times - 1)%nat.
Proof.
  induction times as [|t times IH] using rev_ind; [done|].
  rewrite gaps_snoc, !length_app. destruct times as [|t' times]; [done|].
  destruct (last (t' :: times)) eqn:Hl.
  - simpl in *. lia.
  - apply last_None in Hl. discriminate Hl.
Qed.

Lemma iat_feed a b pa pb proto t0 t1 arrivals :
  let f := feed (CICFlow_init a b pa pb proto t0 t1) arrivals in
  last_pkt_time f = last (map time (packets arrivals))
  /\ last_fwd_time f = last (map time (fwd_of arrivals))
  /\ last_bwd_time f = last (map time (bwd_of arrivals))
  /\ flow_iat f = gaps (map time (packets arrivals))
  /\ fwd_iat f = gaps (map time (fwd_of arrivals))
  /\ bwd_iat f = gaps (map time (bwd_of arrivals)).
Proof.
  induction arrivals as [|[[p d] now] arrivals IH] using rev_ind; [done|].
  rewrite feed_snoc. cbv zeta in IH.
  destruct IH as (H1 & H2 & H3 & H4 & H5 & H6).
  unfold add_packet, packet_iat, packets, fwd_of, bwd_of in *.
  cbn [last_pkt_time last_fwd_time last_bwd_time flow_iat fwd_iat bwd_iat fst snd].
  rewrite !map_app, !omap_snoc, ?gaps_snoc. cbn [fst snd map].
  rewrite H1, H2, H3, H4, H5, H6.
  destruct d; cbn [is_fwd]; rewrite ?map_app, ?app_nil_r; cbn [map];
    rewrite ?gaps_snoc, ?last_snoc.
  all: repeat split; try done.
  all: match goal with |- context [last ?l] => destruct (last l) end;
    simpl; by rewrite ?app_nil_r.
Qed.

(** The inter-arrival lists of a flow hold the gaps between consecutive
    packets, of the whole flow and of each direction, in microseconds; so a
    flow of n packets has n - 1 flow gaps, and each list adds up to the time
    from the first to the last of its packets. *)
Theorem inter_arrival_times_are_the_gaps
    (a b : string) (pa pb : Z) (proto : string) (t0 t1 : Q)
    (arrivals : list (Packet * Direction * Q)) :
  let f := feed (CICFlow_init a b pa pb proto t0 t1) arrivals in
  flow_iat f = gaps (map time (packets arrivals))
  /\ fwd_iat f = gaps (map time (fwd_of arrivals))
  /\ bwd_iat f = gaps (map time (bwd_of arrivals))
  /\ length (flow_iat f) = (length arrivals - 1)%nat
  /\ (py_sum (flow_iat f) == span (map time (packets arrivals)))%Q
  /\ (py_sum (fwd_iat f) == span (map time (fwd_of arrivals)))%Q
  /\ (py_sum (bwd_iat f) == span (map time (bwd_of arrivals)))%Q.
Proof.
  intros f.
  destruct (iat_feed a b pa pb proto t0 t1 arrivals) as (_ & _ & _ & H4 & H5 & H6).
  fold f in H4, H5, H6. rewrite H4, H5, H6.
  repeat split; try apply py_sum_gaps.
  rewrite length_gaps. unfold packets. by rewrite !length_map.
Qed.

(** *** Initial windows and the smallest forward segment *)

Lemma first_window_snoc ws w :
  first_window (ws ++ [w])
  = if (first_window ws =? -1)%Z then w else first_window ws.
Proof.
  unfold first_window. rewrite filter_app.
  destruct (filter (fun w => w <> (-1)%Z) ws) as [|x rest] eqn:Hf.
  - simpl. rewrite filter_cons, filter_nil.
    destruct (decide (w <> (-1)%Z)) as [H|H]; [done|].
    simpl. apply dec_stable in H. done.
  - simpl.
    assert (Hx : x <> (-1)%Z).
    { assert (Hin : x ∈ filter (fun w => w <> (-1)%Z) ws)
        by (rewrite Hf; apply list_elem_of_here).
      by apply list_elem_of_filter in Hin as [Hin _]. }
    apply Z.eqb_neq in Hx. by rewrite Hx.
Qed.

(** The initial window of a direction is the window of the first TCP packet
    of that direction whose window is not the sentinel -1, and stays -1 when
    there is none: once set it is never overwritten. *)
Theorem initial_windows_are_the_first_seen
    (a b : string) (pa pb : Z) (proto : string) (t0 t1 : Q)
    (arrivals : list (Packet * Direction * Q)) :
  let f := feed (CICFlow_init a b pa pb proto t0 t1) arrivals in
  init_win_fwd f = first_window (windows (fwd_of arrivals))
  /\ init_win_bwd f = first_window (windows (bwd_of arrivals))
  /\ (forall more, init_win_fwd f <> (-1)%Z ->
        init_win_fwd (feed f more) = init_win_fwd f)
  /\ (forall more, init_win_bwd f <> (-1)%Z ->
        init_win_bwd (feed f more) = init_win_bwd f).
Proof.
  intros f.
  assert (H : forall l,
            let g := feed (CICFlow_init a b pa pb proto t0 t1) l in
            init_win_fwd g = first_window (windows (fwd_of l))
            /\ init_win_bwd g = first_window (windows (bwd_of l))).
  { induction l as [|[[p d] now] l IH] using rev_ind; [done|].
    rewrite feed_snoc. cbv zeta in IH. destruct IH as [H1 H2].
    unfold add_packet, windows, fwd_of, bwd_of in *.
    cbn [init_win_fwd init_win_bwd fst snd].
    rewrite !omap_snoc. cbn [fst snd]. rewrite H1, H2.
    destruct d; cbn [is_fwd negb andb]; rewrite ?omap_snoc, ?app_nil_r;
      destruct (tcp_layer p) as [t|]; cbn [fmap option_fmap option_map];
      rewrite ?app_nil_r, ?first_window_snoc; try done.
    all: split; [done|]; by destruct (_ =? _)%Z. }
  destruct (H arrivals) as [H1 H2]. fold f in H1, H2.
  split; [done|]. split; [done|].
  assert (Hf : f = feed (CICFlow_init a b pa pb proto t0 t1) arrivals) by done.
  split.
  - intros more Hset.
    assert (Hm : feed f more = feed (CICFlow_init a b pa pb proto t0 t1)
                                 (arrivals ++ more)).
    { unfold f, feed. by rewrite fold_left_app. }
    rewrite Hm. destruct (H (arrivals ++ more)) as [-> _]. rewrite H1.
    unfold windows, fwd_of. rewrite !omap_app. unfold first_window.
    rewrite filter_app.
    rewrite H1 in Hset. unfold first_window, windows, fwd_of in Hset.
    destruct (filter _ (omap _ (omap _ arrivals))); [done|]. done.
  - intros more Hset.
    assert (Hm : feed f more = feed (CICFlow_init a b pa pb proto t0 t1)
                                 (arrivals ++ more)).
    { unfold f, feed. by rewrite fold_left_app. }
    rewrite Hm. destruct (H (arrivals ++ more)) as [_ ->]. rewrite H2.
    unfold windows, bwd_of. rewrite !omap_app. unfold first_window.
    rewrite filter_app.
    rewrite H2 in Hset. unfold first_window, windows, bwd_of in Hset.
    destruct (filter _ (omap _ (omap _ arrivals))); [done|]. done.
Qed.

(** The smallest forward segment is the least length among the forward
    packets that carry data, and 0 when no forward packet carries any; the
    data packet counter counts those packets. *)
Theorem smallest_forward_segment
    (a b : string) (pa pb : Z) (proto : string) (t0 t1 : Q)
    (arrivals : list (Packet * Direction * Q)) :
  let f := feed (CICFlow_init a b pa pb proto t0 t1) arrivals in
  let sizes := data_lengths (fwd_of arrivals) in
  fwd_data_pkts f = Z.of_nat (length sizes)
  /\ (sizes = [] <-> min_seg_size_fwd f = 0%Z)
  /\ (sizes <> [] ->
      min_seg_size_fwd f ∈ sizes
      /\ Forall (fun n => (min_seg_size_fwd f <= n)%Z) sizes).
Proof.
  cbv zeta.
  induction arrivals as [|[[p d] now] arrivals IH] using rev_ind; [done|].
  rewrite feed_snoc. destruct IH as (H1 & H2 & H3).
  set (f := feed _ arrivals) in *.
  unfold add_packet, data_lengths, fwd_of in *.
  cbn [fwd_data_pkts min_seg_size_fwd fst snd].
  rewrite omap_snoc. cbn [fst snd].
  destruct d; cbn [is_fwd andb]; rewrite ?app_nil_r; [|done].
  rewrite map_app, filter_app. cbn [map]. rewrite filter_cons, filter_nil.
  set (sizes := filter _ (map len (omap _ arrivals))) in *.
  destruct (decide (0 < len p)%Z) as [Hpos|Hpos].
  - assert (Hb : (0 <? len p)%Z = true) by by apply Z.ltb_lt.
    rewrite Hb. cbn [count_if andb]. rewrite length_app. simpl.
    split; [lia|].
    destruct sizes as [|x rest] eqn:Hs.
    + assert (H0 : min_seg_size_fwd f = 0%Z) by by apply H2.
      rewrite H0. simpl. split.
      * split; [done|lia].
      * intros _. split; [apply list_elem_of_here|].
        apply Forall_singleton. lia.
    + destruct H3 as [Hin Hall]; [done|].
      assert (Hne : min_seg_size_fwd f <> 0%Z).
      { intros H0. apply H2 in H0. done. }
      assert (Hmpos : (0 < min_seg_size_fwd f)%Z).
      { unfold sizes in Hs.
        assert (Hin' : min_seg_size_fwd f ∈ filter (fun n => (0 < n)%Z)
                         (map len (omap
                            (fun a : Packet * Direction * Q =>
                               if is_fwd a.1.2 then Some a.1.1 else None) arrivals)))
          by (rewrite Hs; exact Hin).
        by apply list_elem_of_filter in Hin' as [? _]. }
      apply Z.eqb_neq in Hne. rewrite Hne. cbn [orb].
      destruct (len p <? min_seg_size_fwd f)%Z eqn:Hlt.
      * apply Z.ltb_lt in Hlt. split; [split; [done|lia]|].
        intros _. split.
        -- apply elem_of_app. right. apply list_elem_of_here.
        -- apply Forall_app. split.
           ++ eapply Forall_impl; [exact Hall|]. simpl. lia.
           ++ apply Forall_singleton. lia.
      * apply Z.ltb_ge in Hlt. split; [split; [done|lia]|].
        intros _. split.
        -- apply elem_of_app. by left.
        -- apply Forall_app. split; [done|]. by apply Forall_singleton.
  - assert (Hb : (0 <? len p)%Z = false) by (apply Z.ltb_ge; lia).
    rewrite Hb. cbn [count_if andb]. by rewrite app_nil_r.
Qed.

End AccountingProps.

(** ** The two threads *)

Module ThreadProps.

Import Extractor PyFacts Examples Threads FlowTableProps.

Lemma Early_init : Early init.
Proof. by split. Qed.

Lemma handler_knows_same s s' :
  handler s' = handler s -> heap s' = heap s ->
  (forall k, active_flows s' !! k = active_flows s !! k
             \/ active_flows s' !! k = None) ->
  handler_knows s -> handler_knows s'.
Proof.
  unfold handler_knows. intros -> -> Ht.
  destruct (handler s) as [|c|c|c|c id|c id|k flow|e]; try done.
  - intros [Hlt H]. split; [done|].
    destruct (Ht (l_flow_key c)) as [-> | ->]; [done|by right].
  - intros [Hlt H]. split; [done|].
    destruct (Ht (l_flow_key c)) as [-> | ->]; [done|by right].
Qed.

Lemma Early_step a s s' :
  Inv s -> Early s -> step a s = Some s' -> Early s'.
Proof.
  intros HI [E1 E2 E3]. destruct a as [d|packet| |]; simpl.
  - intros [= <-]. by split.
  - destruct (handler s) eqn:Hpc; try done. intros [= <-]. split; try done.
    unfold handler_knows. simpl. by destruct (locals_of packet).
  - unfold handler_step.
    destruct (handler s) as [|c|c|c|c id|c id|k flow|e] eqn:Hpc; try done.
    + intros [= <-]. split; try done.
      unfold handler_knows. simpl. by case_decide.
    + intros [= <-]. split; try done.
    + intros [= <-]. split; try done.
      unfold handler_knows. simpl.
      destruct (active_flows s !! l_flow_key c) as [id|] eqn:Hk; [|done].
      split; [|by left].
      destruct (inv_table s HI id) as [_ Hlt]; [by exists (l_flow_key c)|done].
    + destruct (heap s !! id) as [f|] eqn:Hf; [|done]. simpl.
      intros [= <-]. split; try done.
      unfold handler_knows in *. rewrite Hpc in E1. simpl.
      by rewrite length_insert.
    + destruct (heap s !! id) as [f|] eqn:Hf; [|done]. simpl.
      unfold handler_knows in E1. rewrite Hpc in E1. destruct E1 as [Hlt Hk].
      destruct (_ && _) eqn:Htest.
      * intros [= <-]. split; try done.
        unfold handler_knows. simpl.
        destruct Hk as [-> | ->]; [|done].
        exists f. split; [done|].
        apply andb_true_iff in Htest as [H2 Hs].
        apply Z.eqb_eq in H2. apply Z.leb_le in Hs. done.
      * intros [= <-]. split; try done.
    + cbv zeta. unfold handler_knows in E1. rewrite Hpc in E1.
      destruct flow as [id|].
      * destruct E1 as (f & Hf & H2 & Hs).
        unfold send_after_pop. rewrite Hf.
        replace (total_packets f <? MIN_PACKETS)%Z with false
          by (symmetry; apply Z.ltb_ge; unfold MIN_PACKETS; lia).
        intros [= <-]. split; simpl; try done.
        apply Forall_app. split; [done|]. apply Forall_singleton. done.
      * intros [= <-]. split; done.
  - unfold sweeper_step.
    destruct (sweeper s) as [|[|k rest]|k flow rest] eqn:Hpc.
    + intros [= <-]. split; try done.
    + intros [= <-]. split; try done.
    + intros [= <-]. split; try done.
      apply (handler_knows_same s); try done. simpl. intros k'.
      destruct (decide (k = k')) as [->|Hne].
      * right. apply lookup_delete_eq.
      * left. by apply lookup_delete_ne.
    + cbv zeta. unfold send_after_pop.
      destruct flow as [id|]; [|intros [= <-]; by split].
      destruct (heap s !! id) as [f|] eqn:Hf; [|intros [= <-]; by split].
      destruct (total_packets f <? MIN_PACKETS)%Z; intros [= <-];
        split; simpl; try done.
      * apply Forall_app. split; [done|]. by apply Forall_singleton.
      * apply Forall_app. split; [done|]. by apply Forall_singleton.
Qed.

Lemma Early_run acts : forall s s',
  Inv s -> Early s -> run acts s = Some s' -> Early s'.
Proof.
  induction acts as [|a acts IH]; simpl; intros s s' HI HE.
  - by intros [= <-].
  - destruct (step a s) as [s1|] eqn:Hs; [|done]. simpl.
    apply IH; [by apply (Inv_step a s) | by apply (Early_step a s)].
Qed.

(** Under every interleaving, a flow that the early-emit trigger closed is
    handed to feature extraction with exactly two packets, one of them at
    least a SYN, although the sweeper may pop the key and the handler add
    the packet in any order; and the early path never lets a flow go, so
    every flow that was discarded for being too short was closed by the
    sweeper. *)
Theorem early_emits_are_two_packet_syn_flows
    (acts : list Action) (s : State) :
  run acts init = Some s ->
  Forall (fun c => cl_path c = early_emit ->
                   total_packets (cl_flow c) = 2%Z
                   /\ (1 <= syn_count (cl_flow c))%Z) (emitted s)
  /\ Forall (fun c => cl_path c = timeout_sweep) (dropped s).
Proof.
  intros Hrun.
  destruct (Early_run acts init s Inv_init Early_init Hrun) as [E1 E2 E3].
  by split.
Qed.

Lemma early_emits_are_two_packet_syn_flows_witness :
  exists s, run double_emission init = Some s
    /\ Forall (fun c => cl_path c = early_emit ->
                        total_packets (cl_flow c) = 2%Z
                        /\ (1 <= syn_count (cl_flow c))%Z) (emitted s)
    /\ map cl_path (emitted s) = [early_emit; timeout_sweep].
Proof.
  destruct (run double_emission init) as [s|] eqn:Hrun.
  - exists s. split; [reflexivity|].
    destruct (early_emits_are_two_packet_syn_flows double_emission s Hrun)
      as (H1 & _).
    split; [exact H1|].
    vm_compute in Hrun. by injection Hrun as <-.
  - exfalso. vm_compute in Hrun. discriminate Hrun.
Defined.

Lemma handler_alone_step a s s' :
  Inv s -> a <> Sweeper -> handler_alone s -> step a s = Some s' ->
  handler_alone s'.
Proof.
  intros HI Ha (A1 & A2 & A3 & A4). destruct a as [d|packet| |]; simpl; [..|done].
  - by intros [= <-].
  - destruct (handler s) eqn:Hpc; try done. intros [= <-].
    repeat split; try done. simpl. by destruct (locals_of packet).
  - unfold handler_step.
    destruct (handler s) as [|c|c|c|c id|c id|k flow|e] eqn:Hpc; try done.
    + intros [= <-]. repeat split; try done. simpl.
      case_decide as Hk; [done|]. by apply not_eq_None_Some.
    + intros [= <-]. repeat split; try done. simpl.
      rewrite lookup_insert_eq. by eexists.
    + destruct A4 as [id Hk]. intros [= <-]. repeat split; try done. simpl.
      rewrite Hk. split; [done|].
      destruct (inv_table s HI id) as [_ Hlt]; [by exists (l_flow_key c)|done].
    + destruct (heap s !! id) as [f|] eqn:Hf; [|done]. simpl.
      intros [= <-]. repeat split; try done; simpl; try tauto.
      rewrite length_insert. tauto.
    + destruct (heap s !! id) as [f|] eqn:Hf; [|done]. simpl.
      destruct A4 as [Hk Hlt].
      destruct (_ && _) eqn:Htest; intros [= <-]; repeat split; try done.
      simpl. exists id, f. split; [done|]. split; [done|].
      apply andb_true_iff in Htest as [H2 _]. by apply Z.eqb_eq in H2.
    + cbv zeta. destruct A4 as (id & f & -> & Hf & H2).
      unfold send_after_pop. rewrite Hf.
      replace (total_packets f <? MIN_PACKETS)%Z with false
        by (symmetry; apply Z.ltb_ge; unfold MIN_PACKETS; lia).
      intros [= <-]. repeat split; try done. simpl.
      apply Forall_app. split; [done|]. by apply Forall_singleton.
Qed.

Lemma handler_alone_run acts : forall s s',
  Inv s -> Forall (fun a => a <> Sweeper) acts -> handler_alone s ->
  run acts s = Some s' -> handler_alone s'.
Proof.
  induction acts as [|a acts IH]; simpl; intros s s' HI Hacts HA.
  - by intros [= <-].
  - destruct (step a s) as [s1|] eqn:Hs; [|done]. simpl.
    apply Forall_cons in Hacts as [Ha Hacts].
    apply IH; [by apply (Inv_step a s) | done |].
    by apply (handler_alone_step a s).
Qed.

(** While the sweeper does not run, the packet handler never raises: the
    key it tested or stored is there at its subscript, the pop of an early
    emit returns the flow, the flow passes the MIN_PACKETS test, and
    nothing is discarded; and whenever it is inside a packet it can take
    its next step.  With the sweeper in between it can raise: when the
    sweeper pops the key between the membership test and the subscript, the
    subscript raises KeyError. *)
Theorem handler_alone_never_fails (acts : list Action) (s : State) :
  Forall (fun a => a <> Sweeper) acts ->
  run acts init = Some s ->
  (forall e, handler s <> H_dead e)
  /\ dropped s = []
  /\ Forall (fun c => cl_path c = early_emit) (emitted s)
  /\ (handler s <> H_idle -> is_Some (step Handler s))
  /\ handler <$> run sweep_before_subscript init = Some (H_dead KeyError).
Proof.
  intros Hacts Hrun.
  destruct (handler_alone_run acts init s Inv_init Hacts) as (A1 & A2 & A3 & A4);
    [by repeat split | exact Hrun |].
  split; [|split; [done|split; [done|split; [|by vm_compute]]]].
  - intros e He. by rewrite He in A4.
  - intros Hne. simpl. unfold handler_step.
    destruct (handler s) as [|c|c|c|c id|c id|k flow|e]; try done.
    + destruct A4 as [_ Hlt].
      destruct (lookup_lt_is_Some_2 _ _ Hlt) as [f ->]. by eexists.
    + destruct A4 as [_ Hlt].
      destruct (lookup_lt_is_Some_2 _ _ Hlt) as [f ->]. simpl.
      destruct (_ && _); by eexists.
Qed.

Lemma handler_alone_never_fails_witness :
  exists s, run (handle syn 5 ++ handle syn_ack 5) init = Some s
    /\ dropped s = [] /\ (forall e, handler s <> H_dead e).
Proof.
  destruct (run (handle syn 5 ++ handle syn_ack 5) init) as [s|] eqn:Hrun.
  - exists s. split; [reflexivity|].
    destruct (handler_alone_never_fails (handle syn 5 ++ handle syn_ack 5) s)
      as (H1 & H2 & _).
    + repeat constructor; discriminate.
    + exact Hrun.
    + by split.
  - exfalso. vm_compute in Hrun. discriminate Hrun.
Defined.

(** *** A round of the sweeper *)

Lemma expired_keys_spec now table h k :
  k ∈ expired_keys now table h
  <-> exists id f, table !! k = Some id /\ h !! id = Some f
        /\ (FLOW_TIMEOUT < now - last_seen f)%Q.
Proof.
  unfold expired_keys. rewrite list_elem_of_omap. split.
  - intros ([k' id] & Hin & Hsome). apply elem_of_map_to_list in Hin.
    simpl in Hsome. destruct (h !! id) as [f|] eqn:Hf; [|done].
    destruct (Qgtb _ _) eqn:Hgt; [|done]. injection Hsome as <-.
    exists id, f. split; [done|]. split; [done|]. by apply Qgtb_gt.
  - intros (id & f & Hk & Hf & Hgt). exists (k, id). split.
    + by apply elem_of_map_to_list.
    + simpl. rewrite Hf. apply Qgtb_gt in Hgt. by rewrite Hgt.
Qed.

Lemma NoDup_omap_fst {K V} (g : K * V -> option K) (l : list (K * V)) :
  (forall x y, g x = Some y -> y = x.1) ->
  NoDup (map fst l) -> NoDup (omap g l).
Proof.
  intros Hg. induction l as [|x l IH]; simpl; [constructor|].
  intros Hnd. apply NoDup_cons in Hnd as [Hnin Hnd].
  change (NoDup (match g x with Some y => y :: omap g l | None => omap g l end)).
  destruct (g x) as [y|] eqn:Hx; [|by apply IH].
  apply NoDup_cons. split; [|by apply IH].
  intros Hin. apply list_elem_of_omap in Hin as (x' & Hin & Hx').
  apply Hg in Hx, Hx'. subst y. apply Hnin.
  apply list_elem_of_fmap. by exists x'.
Qed.

Lemma NoDup_expired_keys now table h : NoDup (expired_keys now table h).
Proof.
  unfold expired_keys. apply NoDup_omap_fst.
  - intros [k id] y. simpl. destruct (h !! id); [|done].
    destruct (Qgtb _ _); [|done]. by intros [= <-].
  - apply NoDup_fst_map_to_list.
Qed.

Lemma omap_ext_in {A B} (g1 g2 : A -> option B) (l : list A) :
  (forall x, x ∈ l -> g1 x = g2 x) -> omap g1 l = omap g2 l.
Proof.
  induction l as [|x l IH]; [done|]. intros H.
  change (match g1 x with Some y => y :: omap g1 l | None => omap g1 l end
          = match g2 x with Some y => y :: omap g2 l | None => omap g2 l end).
  rewrite (H x) by apply list_elem_of_here.
  rewrite IH; [done|]. intros y Hy. apply H. by apply list_elem_of_further.
Qed.

(** The loop [for key in expired: send_flow_to_api(key)], run without the
    handler in between. *)
Lemma sweep_loop ks : forall s,
  sweeper s = S_loop ks -> NoDup ks ->
  exists s',
    run (replicate (2 * length ks + 1) Sweeper) s = Some s'
    /\ sweeper s' = S_sleep /\ handler s' = handler s
    /\ heap s' = heap s /\ clock s' = clock s
    /\ (forall k, active_flows s' !! k
                  = if decide (k ∈ ks) then None else active_flows s !! k)
    /\ emitted s' = emitted s
         ++ omap (fun k => extracted (send_after_pop timeout_sweep k
                                        (active_flows s !! k) (heap s))) ks
    /\ dropped s' = dropped s
         ++ omap (fun k => let_go (send_after_pop timeout_sweep k
                                     (active_flows s !! k) (heap s))) ks.
Proof.
  induction ks as [|k rest IH]; intros s Hpc Hnd.
  - simpl. unfold sweeper_step. rewrite Hpc. simpl.
    eexists. split; [reflexivity|]. simpl. rewrite !app_nil_r.
    repeat split; try done.
  - apply NoDup_cons in Hnd as [Hnin Hnd].
    replace (2 * length (k :: rest) + 1)%nat
      with (S (S (2 * length rest + 1))) by (simpl; lia).
    cbn [replicate run step].
    set (r := send_after_pop timeout_sweep k (active_flows s !! k) (heap s)).
    set (s1 := {| heap := heap s; active_flows := delete k (active_flows s);
                  handler := handler s;
                  sweeper := S_send k (active_flows s !! k) rest;
                  emitted := emitted s; dropped := dropped s;
                  clock := clock s |}).
    set (s2' := {| heap := heap s; active_flows := delete k (active_flows s);
                   handler := handler s; sweeper := S_loop rest;
                   emitted := log_emitted r (emitted s);
                   dropped := log_dropped r (dropped s);
                   clock := clock s |}).
    assert (Hs1 : sweeper_step s = Some s1)
      by (unfold sweeper_step; by rewrite Hpc).
    assert (Hs2 : sweeper_step s1 = Some s2') by done.
    rewrite Hs1. cbn [mbind option_bind]. rewrite Hs2. cbn [mbind option_bind].
    destruct (IH s2') as (s' & Hrun & H1 & H2 & H3 & H4 & H5 & H6 & H7);
      [done|done|].
    exists s'. split; [exact Hrun|]. split; [done|]. split; [done|].
    split; [done|]. split; [done|].
    assert (Hlook : forall k', k' ∈ rest ->
              active_flows s2' !! k' = active_flows s !! k').
    { intros k' Hk'. unfold s2'. cbn [active_flows heap].
      apply lookup_delete_ne. intros ->. done. }
    split; [|split].
    + intros k'. rewrite H5. unfold s2'. cbn [active_flows].
      destruct (decide (k' ∈ rest)) as [Hin|Hin].
      * rewrite decide_True; [done|]. by apply list_elem_of_further.
      * destruct (decide (k' = k)) as [->|Hne].
        -- rewrite decide_True by apply list_elem_of_here.
           apply lookup_delete_eq.
        -- rewrite decide_False.
           ++ by apply lookup_delete_ne.
           ++ intros Hin'. apply elem_of_cons in Hin' as [?|?]; done.
    + rewrite H6. unfold s2' at 1. cbn [emitted].
      change (omap ?g (k :: rest))
        with (match g k with Some y => y :: omap g rest | None => omap g rest end).
      fold r.
      rewrite (omap_ext_in
                 (fun k0 => extracted (send_after_pop timeout_sweep k0
                                         (active_flows s2' !! k0) (heap s2')))
                 (fun k0 => extracted (send_after_pop timeout_sweep k0
                                         (active_flows s !! k0) (heap s))) rest).
      * unfold log_emitted, extracted. subst r.
        destruct (send_after_pop timeout_sweep k _ _); rewrite <- ?app_assoc; done.
      * intros k' Hk'. by rewrite Hlook.
    + rewrite H7. unfold s2' at 1. cbn [dropped].
      change (omap ?g (k :: rest))
        with (match g k with Some y => y :: omap g rest | None => omap g rest end).
      fold r.
      rewrite (omap_ext_in
                 (fun k0 => let_go (send_after_pop timeout_sweep k0
                                      (active_flows s2' !! k0) (heap s2')))
                 (fun k0 => let_go (send_after_pop timeout_sweep k0
                                      (active_flows s !! k0) (heap s))) rest).
      * unfold log_dropped, let_go. subst r.
        destruct (send_after_pop timeout_sweep k _ _); rewrite <- ?app_assoc; done.
      * intros k' Hk'. by rewrite Hlook.
Qed.

(** A round of the sweeper that the handler does not interrupt closes
    exactly the flows that are in the table and were last seen more than
    FLOW_TIMEOUT seconds ago: each of their keys leaves the table, each such
    flow is handed to feature extraction if it has at least MIN_PACKETS
    packets and is discarded otherwise, once; the other flows stay. *)
Theorem an_undisturbed_sweep_closes_the_expired_flows (s : State) :
  sweeper s = S_sleep ->
  let expired := expired_keys (clock s) (active_flows s) (heap s) in
  exists s',
    run (sweep (length expired)) s = Some s'
    /\ sweeper s' = S_sleep /\ handler s' = handler s /\ heap s' = heap s
    /\ NoDup expired
    /\ (forall k, k ∈ expired
         <-> exists id f, active_flows s !! k = Some id /\ heap s !! id = Some f
               /\ (FLOW_TIMEOUT < clock s - last_seen f)%Q)
    /\ (forall k, active_flows s' !! k
                  = if decide (k ∈ expired) then None else active_flows s !! k)
    /\ emitted s' = emitted s
         ++ omap (fun k => extracted (send_after_pop timeout_sweep k
                                        (active_flows s !! k) (heap s))) expired
    /\ dropped s' = dropped s
         ++ omap (fun k => let_go (send_after_pop timeout_sweep k
                                     (active_flows s !! k) (heap s))) expired.
Proof.
  intros Hpc expired. unfold sweep.
  replace (2 * length expired + 2)%nat with (S (2 * length expired + 1)) by lia.
  cbn [replicate run step].
  assert (Hs1 : sweeper_step s = Some (set_sweeper (S_loop expired) s))
    by (unfold sweeper_step; by rewrite Hpc).
  rewrite Hs1. cbn [mbind option_bind].
  destruct (sweep_loop expired (set_sweeper (S_loop expired) s))
    as (s' & Hrun & H1 & H2 & H3 & H4 & H5 & H6 & H7);
    [done | apply NoDup_expired_keys |].
  exists s'. split; [exact Hrun|]. split; [done|]. split; [done|].
  split; [done|]. split; [apply NoDup_expired_keys|].
  split; [intros k; apply expired_keys_spec|]. done.
Qed.

Lemma an_undisturbed_sweep_closes_the_expired_flows_witness :
  exists s', run (sweep 1) lone_syn = Some s'
    /\ active_flows s' = ∅ /\ emitted s' = [] /\ length (dropped s') = 1%nat.
Proof.
  destruct (an_undisturbed_sweep_closes_the_expired_flows lone_syn)
    as (s' & Hrun & _ & _ & _ & _ & _ & Htable & Hem & Hdr); [reflexivity|].
  exists s'. split; [exact Hrun|]. split; [|split].
  - apply map_eq. intros k. rewrite Htable, lookup_empty.
    case_decide as Hk; [done|].
    destruct (active_flows lone_syn !! k) as [id|] eqn:Hlook; [|done].
    exfalso. apply Hk. vm_compute.
    assert (Hkey : k = connection_key).
    { apply elem_of_map_to_list in Hlook. vm_compute in Hlook.
      apply list_elem_of_singleton in Hlook. by injection Hlook. }
    rewrite Hkey. apply list_elem_of_here.
  - rewrite Hem. reflexivity.
  - rewrite Hdr. reflexivity.
Defined.

End ThreadProps.

(** ** The forward direction *)

Module ForwardProps.

Import Extractor PyFacts Examples Forwards FlowTableProps.

Lemma Forward_init : Forward init.
Proof.
  by split.
Qed.

Lemma direction_of_sender c f : from_sender c f -> direction_of c f = fwd.
Proof.
  intros [H1 H2]. unfold direction_of. rewrite H1, H2.
  by rewrite String.eqb_refl, Z.eqb_refl.
Qed.

Lemma add_packet_forward c f p t now :
  starts_forward f -> (fwd_packets f = 0%Z -> from_sender c f) ->
  let f' := add_packet f p (direction_of c f) t now in
  starts_forward f' /\ (0 < fwd_packets f')%Z.
Proof.
  intros (H1 & H2 & H3) Hs. cbv zeta. unfold starts_forward, add_packet.
  cbn [fwd_packets bwd_packets].
  destruct (decide (fwd_packets f = 0%Z)) as [H0|H0].
  - rewrite (direction_of_sender c f (Hs H0)). cbn [is_fwd negb count_if].
    specialize (H3 H0). lia.
  - destruct (direction_of c f); cbn [is_fwd negb count_if]; lia.
Qed.

(** Steps that leave the heap and the logs alone and do not grow the
    table. *)
Lemma Forward_same s s' :
  heap s' = heap s -> emitted s' = emitted s -> dropped s' = dropped s ->
  (forall k id, active_flows s' !! k = Some id -> active_flows s !! k = Some id) ->
  (forall c id, handler s = H_fetch c \/ handler s = H_add c id ->
                handler s' = handler s) ->
  (forall c id, handler s' = H_add c id -> handler s = H_add c id) ->
  Forward s -> Forward s'.
Proof.
  intros Hh He Hd Ht Hpc Hadd [F1 F2 F3 F4].
  split; rewrite ?Hh, ?He, ?Hd; try done.
  - intros k id f Hk Hf H0.
    destruct (F2 k id f (Ht _ _ Hk) Hf H0) as (c & Hc & Hkey & Hs).
    exists c. split; [|done].
    rewrite (Hpc c id Hc). done.
  - intros c id f Hc. apply F3. by apply Hadd.
Qed.

Lemma Forward_close s s' c :
  heap s' = heap s -> active_flows s' = active_flows s ->
  (emitted s' = emitted s ++ [c] /\ dropped s' = dropped s
   \/ emitted s' = emitted s /\ dropped s' = dropped s ++ [c]) ->
  starts_forward (cl_flow c) ->
  (forall c id, handler s = H_fetch c \/ handler s = H_add c id ->
                handler s' = handler s) ->
  (forall c id, handler s' = H_add c id -> handler s = H_add c id) ->
  Forward s -> Forward s'.
Proof.
  intros Hh Ht Hlog Hc Hpc Hadd [F1 F2 F3 F4].
  split; rewrite ?Hh, ?Ht; try done.
  - intros k id f Hk Hf H0.
    destruct (F2 k id f Hk Hf H0) as (c' & Hc' & Hkey & Hs).
    exists c'. split; [|done]. rewrite (Hpc c' id Hc'). done.
  - intros c' id f Hc'. apply F3. by apply Hadd.
  - apply Forall_app in F4 as [F4 F5].
    destruct Hlog as [[-> ->] | [-> ->]].
    + rewrite <- app_assoc. apply Forall_app. split; [done|]. by constructor.
    + rewrite app_assoc. apply Forall_app. split; [by apply Forall_app|].
      by apply Forall_singleton.
Qed.

Lemma heap_starts_forward s id f :
  Forward s -> heap s !! id = Some f -> starts_forward f.
Proof.
  intros [F1 _ _ _] Hf. rewrite Forall_forall in F1. apply F1.
  by eapply list_elem_of_lookup_2.
Qed.

Lemma Forward_step a s s' :
  Inv s -> Forward s -> step a s = Some s' -> Forward s'.
Proof.
  intros HI HF. destruct a as [d|packet| |]; simpl.
  - intros [= <-].
    apply (Forward_same s); try done.
  - destruct (handler s) eqn:Hpc; try done. intros [= <-].
    apply (Forward_same s); try done.
    + intros c id [H|H]; rewrite Hpc in H; discriminate H.
    + simpl. intros c id. by destruct (locals_of packet).
  - unfold handler_step.
    destruct (handler s) as [|c|c|c|c id|c id|k flow|e] eqn:Hpc; try done.
    + (* the membership test *)
      intros [= <-]. apply (Forward_same s); try done.
      * intros c' id [H|H]; rewrite Hpc in H; discriminate H.
      * simpl. intros c' id. by case_decide.
    + (* the store *)
      intros [= <-]. destruct HF as [F1 F2 F3 F4]. split; simpl; try done.
      * apply Forall_app. split; [done|]. apply Forall_singleton.
        unfold starts_forward. simpl. lia.
      * intros k id f Hk Hf H0.
        destruct (decide (k = l_flow_key c)) as [->|Hne].
        -- rewrite lookup_insert_eq in Hk. injection Hk as <-.
           rewrite lookup_app_r in Hf by lia.
           rewrite Nat.sub_diag in Hf. simpl in Hf. injection Hf as <-.
           exists c. split; [by left|]. split; [done|]. done.
        -- rewrite lookup_insert_ne in Hk by done.
           destruct (inv_table s HI id) as [_ Hlt]; [by exists k|].
           rewrite lookup_app_l in Hf by done.
           destruct (F2 k id f Hk Hf H0) as (c' & [Hc'|Hc'] & _);
             rewrite Hpc in Hc'; discriminate Hc'.
    + (* the subscript *)
      intros [= <-]. destruct HF as [F1 F2 F3 F4]. split; simpl; try done.
      * intros k id f Hk Hf H0.
        destruct (F2 k id f Hk Hf H0) as (c' & [Hc'|Hc'] & Hkey & Hs);
          rewrite Hpc in Hc'; [|discriminate Hc'].
        injection Hc' as <-. subst k. rewrite Hk.
        exists c. split; [by right|]. done.
      * intros c' id f.
        destruct (active_flows s !! l_flow_key c) as [id'|] eqn:Hk; [|done].
        intros [= <- <-] Hf H0.
        destruct (F2 _ _ f Hk Hf H0) as (c' & [Hc'|Hc'] & Hkey & Hs);
          rewrite Hpc in Hc'; [|discriminate Hc'].
        by injection Hc' as <-.
    + (* add_packet *)
      destruct (heap s !! id) as [f|] eqn:Hf; [|done]. simpl.
      intros [= <-].
      destruct (add_packet_forward c f (l_packet c) (time (l_packet c)) (clock s))
        as [Hsf Hpos].
      { by apply (heap_starts_forward s id). }
      { by apply (fw_add s HF c id). }
      destruct HF as [F1 F2 F3 F4]. split; simpl; try done.
      * by apply Forall_insert.
      * intros k id' f' Hk Hf' H0.
        destruct (decide (id' = id)) as [->|Hne].
        -- rewrite list_lookup_insert_eq in Hf' by (by eapply lookup_lt_Some).
           injection Hf' as <-. lia.
        -- rewrite list_lookup_insert_ne in Hf' by done.
           destruct (F2 k id' f' Hk Hf' H0) as (c' & [Hc'|Hc'] & _);
             rewrite Hpc in Hc'; [discriminate Hc'|].
           injection Hc' as _ ->. done.
    + (* the early-emit test and its pop *)
      destruct (heap s !! id) as [f|] eqn:Hf; [|done]. simpl.
      destruct (_ && _); intros [= <-]; apply (Forward_same s); try done.
      * simpl. intros k id'. intros Hk.
        destruct (decide (k = l_flow_key c)) as [->|Hne].
        -- by rewrite lookup_delete_eq in Hk.
        -- by rewrite lookup_delete_ne in Hk.
      * intros c' id' [H|H]; rewrite Hpc in H; discriminate H.
      * intros c' id' [H|H]; rewrite Hpc in H; discriminate H.
    + (* send_flow_to_api after the pop *)
      cbv zeta. unfold send_after_pop.
      assert (Hpc1 : forall c id, handler s = H_fetch c \/ handler s = H_add c id ->
                H_idle = handler s).
      { intros c id [H|H]; rewrite Hpc in H; discriminate H. }
      destruct flow as [id|];
        [|intros [= <-]; apply (Forward_same s); try done].
      destruct (heap s !! id) as [f|] eqn:Hf;
        [|intros [= <-]; apply (Forward_same s); try done].
      pose proof (heap_starts_forward s id f HF Hf) as Hsf.
      destruct (total_packets f <? MIN_PACKETS)%Z; intros [= <-].
      * apply (Forward_close s _ {| cl_path := early_emit; cl_key := k;
                                    cl_rec := id; cl_flow := f |});
          try done; try (by right).
        all: intros c' id' H; simpl in *; rewrite Hpc in H; by destruct H.
      * apply (Forward_close s _ {| cl_path := early_emit; cl_key := k;
                                    cl_rec := id; cl_flow := f |});
          try done; try (by left).
        all: intros c' id' H; simpl in *; rewrite Hpc in H; by destruct H.
  - unfold sweeper_step.
    destruct (sweeper s) as [|[|k rest]|k flow rest] eqn:Hpc.
    + intros [= <-]. apply (Forward_same s); try done.
    + intros [= <-]. apply (Forward_same s); try done.
    + intros [= <-]. apply (Forward_same s); try done.
      simpl. intros k' id' Hk.
      destruct (decide (k' = k)) as [->|Hne].
      * by rewrite lookup_delete_eq in Hk.
      * by rewrite lookup_delete_ne in Hk.
    + cbv zeta. unfold send_after_pop.
      destruct flow as [id|];
        [|intros [= <-]; apply (Forward_same s); try done].
      destruct (heap s !! id) as [f|] eqn:Hf;
        [|intros [= <-]; apply (Forward_same s); try done].
      pose proof (heap_starts_forward s id f HF Hf) as Hsf.
      destruct (total_packets f <? MIN_PACKETS)%Z; intros [= <-].
      * apply (Forward_close s _ {| cl_path := timeout_sweep; cl_key := k;
                                    cl_rec := id; cl_flow := f |});
          try done; by right.
      * apply (Forward_close s _ {| cl_path := timeout_sweep; cl_key := k;
                                    cl_rec := id; cl_flow := f |});
          try done; by left.
Qed.

Lemma Forward_run acts : forall s s',
  Inv s -> Forward s -> run acts s = Some s' -> Forward s'.
Proof.
  induction acts as [|a acts IH]; simpl; intros s s' HI HF.
  - by intros [= <-].
  - destruct (step a s) as [s1|] eqn:Hs; [|done]. simpl.
    apply IH; [by apply (Inv_step a s) | by apply (Forward_step a s)].
Qed.

(** Under every interleaving, the forward direction of a flow object is
    that of the first packet added to it: an object that holds a packet
    holds a forward one, and so does every flow handed to feature
    extraction, whose Down/Up ratio is then its backward count over its
    forward count. *)
Theorem every_flow_starts_forward (acts : list Action) (s : State) :
  run acts init = Some s ->
  Forall (fun f => (0 < total_packets f -> 0 < fwd_packets f)%Z
                   /\ (0 <= bwd_packets f)%Z) (heap s)
  /\ Forall (fun c => (0 < fwd_packets (cl_flow c))%Z
                      /\ (0 <= bwd_packets (cl_flow c))%Z) (emitted s).
Proof.
  intros Hrun.
  pose proof (Inv_run acts init s Inv_init Hrun) as HI.
  destruct (Forward_run acts init s Inv_init Forward_init Hrun) as [F1 _ _ F4].
  split.
  - eapply Forall_impl; [exact F1|]. unfold starts_forward, total_packets.
    simpl. intros f (H1 & H2 & H3). split; [|done]. intros Hpos.
    destruct (decide (fwd_packets f = 0%Z)) as [H0|H0]; [|lia].
    specialize (H3 H0). lia.
  - apply Forall_app in F4 as [F4 _].
    pose proof (inv_emitted s HI) as Hmin.
    rewrite Forall_forall in *. intros c Hc.
    specialize (F4 c Hc). specialize (Hmin c Hc). simpl in Hmin.
    unfold starts_forward, total_packets, MIN_PACKETS in *.
    destruct F4 as (H1 & H2 & H3). split; [|done].
    destruct (decide (fwd_packets (cl_flow c) = 0%Z)) as [H0|H0]; [|lia].
    specialize (H3 H0). lia.
Qed.

Lemma every_flow_starts_forward_witness :
  exists s, run double_emission init = Some s
    /\ Forall (fun c => (0 < fwd_packets (cl_flow c))%Z
                        /\ (0 <= bwd_packets (cl_flow c))%Z) (emitted s).
Proof.
  destruct (run double_emission init) as [s|] eqn:Hrun.
  - exists s. split; [reflexivity|].
    by destruct (every_flow_starts_forward double_emission s Hrun) as [_ H].
  - exfalso. vm_compute in Hrun. discriminate Hrun.
Defined.

End ForwardProps.

(** ** Conservation of packets *)

Module ConservationProps.

Import Extractor Examples Conservation.

Lemma added_app h1 h2 : added (h1 ++ h2) = (added h1 + added h2)%Z.
Proof. unfold added. induction h1 as [|f h IH]; simpl; lia. Qed.

Lemma added_insert h : forall id f f',
  h !! id = Some f ->
  added (<[id := f']> h) = (added h - total_packets f + total_packets f')%Z.
Proof.
  induction h as [|x h IH]; intros id f f' Hf; [done|].
  destruct id as [|id]; simpl in *.
  - injection Hf as ->. lia.
  - rewrite (IH id f f' Hf). lia.
Qed.

Lemma add_packet_total f p d t now :
  total_packets (add_packet f p d t now) = (total_packets f + 1)%Z.
Proof.
  unfold total_packets, add_packet. cbn [fwd_packets bwd_packets].
  destruct d; cbn [is_fwd negb count_if]; lia.
Qed.

Lemma step_conserves a s s' :
  step a s = Some s' ->
  (added (heap s') + in_flight s')%Z
  = (added (heap s) + in_flight s + (if accepts a then 1 else 0))%Z.
Proof.
  destruct a as [d|packet| |]; simpl.
  - intros [= <-]. unfold in_flight. simpl. lia.
  - unfold in_flight. destruct (handler s) eqn:Hpc; try done. intros [= <-].
    simpl. destruct (locals_of packet); lia.
  - unfold handler_step, in_flight.
    destruct (handler s) as [|c|c|c|c id|c id|k flow|e] eqn:Hpc; try done.
    + intros [= <-]. simpl. case_decide; lia.
    + intros [= <-]. simpl. rewrite added_app. unfold added, total_packets.
      simpl. lia.
    + intros [= <-]. simpl. destruct (_ !! _); lia.
    + destruct (heap s !! id) as [f|] eqn:Hf; [|done]. simpl.
      intros [= <-]. simpl. rewrite (added_insert _ _ f _ Hf), add_packet_total.
      lia.
    + destruct (heap s !! id) as [f|] eqn:Hf; [|done]. simpl.
      destruct (_ && _); intros [= <-]; simpl; lia.
    + intros [= <-]. simpl. lia.
  - unfold sweeper_step, in_flight.
    destruct (sweeper s) as [|[|k rest]|k flow rest]; intros [= <-]; simpl; lia.
Qed.

Lemma accepted_cons a acts :
  accepted (a :: acts) = ((if accepts a then 1 else 0) + accepted acts)%Z.
Proof.
  unfold accepted. rewrite filter_cons.
  destruct (accepts a); [rewrite decide_True by done|rewrite decide_False by done];
    simpl length; lia.
Qed.

Lemma run_conserves acts : forall s s',
  run acts s = Some s' ->
  (added (heap s') + in_flight s')%Z
  = (added (heap s) + in_flight s + accepted acts)%Z.
Proof.
  induction acts as [|a acts IH]; simpl; intros s s'.
  - intros [= <-]. unfold accepted. simpl. lia.
  - destruct (step a s) as [s1|] eqn:Hs; [|done]. simpl. intros Hrun.
    rewrite (IH s1 s' Hrun), (step_conserves a s s1 Hs), accepted_cons. lia.
Qed.

(** Under every interleaving, every packet that got past the early returns
    of the handler is added to one flow object, once: the packets that the
    flow objects hold are the packets accepted, less the one the handler is
    still about to add or has died on. *)
Theorem every_accepted_packet_is_added_once (acts : list Action) (s : State) :
  run acts init = Some s ->
  (added (heap s) + in_flight s)%Z = accepted acts
  /\ (handler s = H_idle -> added (heap s) = accepted acts)
  /\ (forall e, handler s = H_dead e -> added (heap s) = (accepted acts - 1)%Z).
Proof.
  intros Hrun. pose proof (run_conserves acts init s Hrun) as H.
  change (added (heap init)) with 0%Z in H.
  change (in_flight init) with 0%Z in H.
  split; [lia|]. split.
  - intros Hpc. unfold in_flight in H. rewrite Hpc in H. lia.
  - intros e Hpc. unfold in_flight in H. rewrite Hpc in H. lia.
Qed.

Lemma every_accepted_packet_is_added_once_witness :
  exists s, run double_emission init = Some s
    /\ added (heap s) = 4%Z.
Proof.
  destruct (run double_emission init) as [s|] eqn:Hrun.
  - exists s. split; [reflexivity|].
    destruct (every_accepted_packet_is_added_once double_emission s Hrun)
      as (_ & H & _).
    rewrite H; [reflexivity|].
    vm_compute in Hrun. by injection Hrun as <-.
  - exfalso. vm_compute in Hrun. discriminate Hrun.
Defined.

End ConservationProps.

(** ** From a flow to the rule engine's answer *)

Module PipelineProps.

Import Extractor Engine PyFacts Examples FeatureProps EngineProps RuleDefs
       Accounting AccountingProps Pipeline.
Local Open Scope Q_scope.

Lemma list_to_map_assoc {V} (d : list (string * V)) k :
  (list_to_map d : gmap string V) !! k = assoc k d.
Proof.
  induction d as [|[k' v] d IH]; simpl.
  - apply lookup_empty.
  - destruct (String.eqb_spec k k') as [->|Hne].
    + apply lookup_insert_eq.
    + rewrite lookup_insert_ne by congruence. exact IH.
Qed.

Lemma dict_literal_keys {V} (entries : list (string * pyres V)) d :
  dict_literal entries = Ok d -> map fst d = map fst entries.
Proof.
  revert d. induction entries as [|[k e] rest IH]; simpl; intros d.
  - by intros [= <-].
  - destruct e as [v|?]; [|done]. simpl.
    destruct (dict_literal rest) as [vs|?]; [|done]. simpl.
    intros [= <-]. simpl. f_equal. by apply IH.
Qed.

(** *** Order statistics *)

Lemma fold_min_spec rest : forall x,
  let lo := fold_left (fun m y => if Qltb y m then y else m) rest x in
  lo <= x /\ Forall (fun y => lo <= y) rest.
Proof.
  induction rest as [|y rest IH]; intros x; simpl.
  - split; [lra|constructor].
  - destruct (Qltb y x) eqn:E; to_prop.
    + destruct (IH y) as [H1 H2]. split; [lra|]. by constructor.
    + destruct (IH x) as [H1 H2]. split; [done|]. constructor; [lra|done].
Qed.

Lemma fold_max_spec rest : forall x,
  let hi := fold_left (fun m y => if Qgtb y m then y else m) rest x in
  x <= hi /\ Forall (fun y => y <= hi) rest.
Proof.
  induction rest as [|y rest IH]; intros x; simpl.
  - split; [lra|constructor].
  - destruct (Qgtb y x) eqn:E; to_prop.
    + destruct (IH y) as [H1 H2]. split; [lra|]. by constructor.
    + destruct (IH x) as [H1 H2]. split; [done|]. constructor; [lra|done].
Qed.

Lemma Qlen_snoc l x : Qlen (l ++ [x]) == Qlen l + 1.
Proof.
  unfold Qlen. rewrite length_app. simpl.
  rewrite Nat2Z.inj_add, inject_Z_plus. reflexivity.
Qed.

Lemma py_sum_bounds lo hi l :
  Forall (fun y => lo <= y /\ y <= hi) l ->
  lo * Qlen l <= py_sum l /\ py_sum l <= hi * Qlen l.
Proof.
  induction l as [|x l IH] using rev_ind; intros Hall.
  - change (Qlen []) with 0. change (py_sum []) with 0. lra.
  - apply Forall_app in Hall as [Hl Hx]. apply Forall_inv in Hx.
    destruct (IH Hl) as [H1 H2]. rewrite py_sum_snoc, Qlen_snoc.
    simpl in Hx. destruct Hx as [Hx1 Hx2]. split; nra.
Qed.

Lemma Qlen_pos x l : 0 < Qlen (x :: l).
Proof.
  unfold Qlen. change 0 with (inject_Z 0). rewrite <- Zlt_Qlt. simpl. lia.
Qed.

Lemma mean_between lo hi l n :
  0 < n -> lo * n <= py_sum l -> py_sum l <= hi * n ->
  lo <= py_sum l / n /\ py_sum l / n <= hi.
Proof.
  intros Hn H1 H2. split.
  - apply Qle_shift_div_l; [done|lra].
  - apply Qle_shift_div_r; [done|lra].
Qed.

Lemma py_sum_nonneg l : Forall (fun y => 0 <= y) l -> 0 <= py_sum l.
Proof.
  intros Hall. destruct (py_sum_bounds 0 (py_sum l + 1) l) as [H _]; [|lra].
  induction l as [|x l IH] using rev_ind; [constructor|].
  apply Forall_app in Hall as [Hl Hx]. apply Forall_inv in Hx.
  rewrite py_sum_snoc. apply Forall_app. split.
  - eapply Forall_impl; [apply (IH Hl)|]. simpl. intros y [? ?]. lra.
  - apply Forall_singleton.
    assert (0 <= py_sum l).
    { destruct (py_sum_bounds 0 (py_sum l + 1) l (IH Hl)). lra. }
    lra.
Qed.

Section Sent.
Variable np_sqrt : Q -> Q.

(** The guarded minimum, mean and maximum of a sequence are in order. *)
Lemma safe_statistics_ordered (l : list Q) :
  exists lo me hi,
    _safe l f_min (of_int 0) = Ok (Fin lo)
    /\ _safe l f_mean (of_int 0) = Ok (Fin me)
    /\ _safe l f_max (of_int 0) = Ok (Fin hi)
    /\ lo <= me /\ me <= hi.
Proof.
  destruct l as [|x rest].
  - exists 0, 0, 0. repeat split; lra.
  - unfold _safe, f_min, f_mean, f_max, py_min, py_max, np_mean.
    cbn [length Nat.ltb Nat.leb]. cbn [mbind pyres_bind mret pyres_ret].
    eexists _, _, _. split; [reflexivity|]. split; [reflexivity|].
    split; [reflexivity|].
    destruct (fold_min_spec rest x) as [L1 L2].
    destruct (fold_max_spec rest x) as [U1 U2].
    cbv zeta in *.
    set (lo := fold_left _ rest x) in *.
    set (hi := fold_left (fun m y => if Qgtb y m then y else m) rest x) in *.
    destruct (py_sum_bounds lo hi (x :: rest)) as [S1 S2].
    { constructor; [done|]. rewrite Forall_forall in *. intros y Hy.
      split; [by apply L2|by apply U2]. }
    apply mean_between; [apply Qlen_pos|done|done].
Qed.

Lemma safe_variance_nonneg (l : list Q) :
  exists v, _safe l f_var (of_int 0) = Ok (Fin v) /\ 0 <= v.
Proof.
  destruct l as [|x rest].
  - exists 0. split; [done|lra].
  - unfold _safe, f_var, np_var. cbn [length Nat.ltb Nat.leb].
    eexists. split; [reflexivity|].
    apply Qle_shift_div_l; [apply Qlen_pos|].
    rewrite Qmult_0_l. apply py_sum_nonneg.
    rewrite Forall_map. apply Forall_forall. intros y _. simpl.
    set (z := y - _). destruct (Qlt_le_dec z 0); nra.
Qed.

Lemma features_lookup self :
  exists d,
    get_features np_sqrt self = Ok d
    /\ map fst d = map fst (feature_entries np_sqrt self)
    /\ forall k v, assoc k (feature_entries np_sqrt self) = Some (Ok v) ->
                   (list_to_map d : gmap string pyfloat) !! k = Some v.
Proof.
  destruct (dict_literal_returns _ (feature_entries_return np_sqrt self))
    as (d & Hd & Hassoc).
  exists d. split; [exact Hd|]. split; [by apply dict_literal_keys|].
  intros k v Hk. rewrite list_to_map_assoc.
  specialize (Hassoc k). rewrite Hk in Hassoc.
  destruct (assoc k d); simpl in Hassoc; congruence.
Qed.

(** The feature dict of a flow has seventy entries under distinct names;
    in the request built from it, the ten fields the rule engine uses hold
    the flow's own counters and its duration, so the engine falls back on
    none of its defaults. *)
Theorem rule_inputs_are_the_flow_counters (self : CICFlow) :
  exists d,
    get_features np_sqrt self = Ok d
    /\ length d = 70%nat
    /\ NoDup (map fst d)
    /\ map (fun k => features (request_of self d) !! k) rule_fields
       = map Some [ of_int (Extractor.dst_port self); of_int (syn_count self);
                    of_int (rst_count self); of_int (ack_count self);
                    of_int (psh_count self); of_int (fwd_packets self);
                    of_int (bwd_packets self); of_int (fwd_bytes self);
                    of_int (bwd_bytes self); Fin (flow_duration self) ].
Proof.
  destruct (features_lookup self) as (d & Hd & Hkeys & Hlook).
  exists d. split; [exact Hd|]. split; [|split].
  - rewrite <- (length_map fst), Hkeys. reflexivity.
  - rewrite Hkeys. unfold feature_entries. cbn [map fst].
    refine (bool_decide_unpack _ _). vm_compute. exact I.
  - unfold rule_fields, request_of. cbn [map features].
    repeat match goal with
    | |- context [list_to_map d !! ?k] => rewrite (Hlook k _ eq_refl)
    end.
    reflexivity.
Qed.

(** For every flow the minimum, the mean and the maximum of each packet
    length family are sent in that order of size, and the packet length
    variance sent is not negative; a family without a packet has all three
    at 0. *)
Theorem packet_length_statistics_are_ordered (self : CICFlow) :
  exists d,
    get_features np_sqrt self = Ok d
    /\ Forall (fun names : string * string * string =>
                 exists lo me hi,
                   assoc names.1.1 d = Some (Fin lo)
                   /\ assoc names.1.2 d = Some (Fin me)
                   /\ assoc names.2 d = Some (Fin hi)
                   /\ lo <= me /\ me <= hi) length_statistics
    /\ (exists v, assoc "Packet Length Variance" d = Some (Fin v) /\ 0 <= v)
    /\ (fwd_pkt_lengths self = [] ->
        assoc "Fwd Packet Length Min" d = Some (of_int 0)
        /\ assoc "Fwd Packet Length Mean" d = Some (of_int 0)
        /\ assoc "Fwd Packet Length Max" d = Some (of_int 0)).
Proof.
  destruct (dict_literal_returns _ (feature_entries_return np_sqrt self))
    as (d & Hd & Hassoc).
  exists d. split; [exact Hd|].
  assert (Hlook : forall k v,
            assoc k (feature_entries np_sqrt self) = Some (Ok v) ->
            assoc k d = Some v).
  { intros k v Hk. specialize (Hassoc k). rewrite Hk in Hassoc.
    destruct (assoc k d); simpl in Hassoc; congruence. }
  split; [|split].
  - unfold length_statistics.
    destruct (safe_statistics_ordered (ints (fwd_pkt_lengths self)))
      as (lo1 & me1 & hi1 & F1 & F2 & F3 & F4 & F5).
    destruct (safe_statistics_ordered (ints (bwd_pkt_lengths self)))
      as (lo2 & me2 & hi2 & B1 & B2 & B3 & B4 & B5).
    destruct (safe_statistics_ordered (ints (all_pkt_lengths self)))
      as (lo3 & me3 & hi3 & A1 & A2 & A3 & A4 & A5).
    repeat constructor; cbn [fst snd].
    + exists lo1, me1, hi1.
      repeat split; try done; apply Hlook; simpl; by f_equal.
    + exists lo2, me2, hi2.
      repeat split; try done; apply Hlook; simpl; by f_equal.
    + exists lo3, me3, hi3.
      repeat split; try done; apply Hlook; simpl; by f_equal.
  - destruct (safe_variance_nonneg (ints (all_pkt_lengths self))) as (v & V1 & V2).
    exists v. split; [|done]. apply Hlook. simpl. by f_equal.
  - intros Hnone. repeat split; apply Hlook; simpl; by rewrite Hnone.
Qed.

Lemma fmem_int (n : Z) (l : list Z) : n ∈ l -> fmem (of_int n) l = true.
Proof.
  intros Hin. unfold fmem. apply existsb_exists. exists n. split.
  - by apply list_elem_of_In.
  - unfold feq, of_int. by apply Qeq_bool_iff.
Qed.

(** A one-way flow to a web port with two SYNs or more, such as a SYN that
    was sent again because the server did not answer, is called a DDoS with
    confidence 0.90 by the rule engine, whatever else the flow holds. *)
Theorem one_way_syn_flows_to_web_ports_are_called_ddos
    (a b : string) (pa pb : Z) (proto : string) (t0 t1 : Q)
    (arrivals : list (Packet * Direction * Q)) :
  let f := feed (CICFlow_init a b pa pb proto t0 t1) arrivals in
  pb ∈ [80; 443; 8080]%Z ->
  bwd_of arrivals = [] ->
  (2 <= flagged "S" (packets arrivals))%Z ->
  exists d,
    get_features np_sqrt f = Ok d
    /\ rule_based_classification (features (request_of f d)) = Ok ("DDoS", 0.90).
Proof.
  intros f Hport Hbwd Hsyn.
  pose proof (books_feed a b pa pb proto t0 t1 arrivals) as B. fold f in B.
  destruct (features_lookup f) as (d & Hd & _ & Hlook).
  exists d. split; [exact Hd|].
  set (feats := features (request_of f d)).
  assert (H1 : get feats "Destination Port" 0 = of_int pb).
  { unfold get, feats, request_of. cbn [features].
    rewrite (Hlook "Destination Port" _ eq_refl). simpl.
    by rewrite (b_dst_port _ _ _ _ _ _ _ _ _ B). }
  assert (H2 : get feats "SYN Flag Count" 0 = of_int (flagged "S" (packets arrivals))).
  { unfold get, feats, request_of. cbn [features].
    rewrite (Hlook "SYN Flag Count" _ eq_refl). simpl.
    by rewrite (b_syn _ _ _ _ _ _ _ _ _ B). }
  assert (H3 : get feats "Total Backward Packets" 0 = of_int 0).
  { unfold get, feats, request_of. cbn [features].
    rewrite (Hlook "Total Backward Packets" _ eq_refl). simpl.
    by rewrite (b_bwd_packets _ _ _ _ _ _ _ _ _ B), Hbwd. }
  unfold rule_based_classification.
  destruct (pps_total (get feats "Flow Duration" 1)
              (fadd (get feats "Total Fwd Packets" 0)
                    (get feats "Total Backward Packets" 0))
              (get feats "Total Fwd Packets" 0)) as [pps ->].
  unfold mbind, pyres_bind. f_equal. cbn [first_match].
  rewrite H1, H2, H3.
  rewrite (fmem_int pb) by done.
  replace (fge (of_int (flagged "S" (packets arrivals))) (of_int 2)) with true.
  - reflexivity.
  - symmetry. apply RuleProps.fge_int. right. eexists. split; [reflexivity|].
    by rewrite <- Zle_Qle.
Qed.

End Sent.

Lemma one_way_syn_flows_to_web_ports_are_called_ddos_witness :
  exists d,
    get_features (fun v => v)
      (feed (CICFlow_init host_a host_b 40000 80 "TCP" 0 0) repeated_syn) = Ok d
    /\ rule_based_classification
         (features (request_of
            (feed (CICFlow_init host_a host_b 40000 80 "TCP" 0 0) repeated_syn) d))
       = Ok ("DDoS", 0.90).
Proof.
  apply (one_way_syn_flows_to_web_ports_are_called_ddos (fun v => v)
           host_a host_b 40000 80 "TCP" 0 0 repeated_syn).
  - apply list_elem_of_here.
  - reflexivity.
  - vm_compute. discriminate.
Defined.

End PipelineProps.
